(** * distarray: the execution context and its remote key namespace

    A shallow embedding of [distarray/context.py] (class [Context]) and of
    [distarray/dist/functions.py] (the wrapped unary and binary operations),
    with the properties of the key naming scheme, of the purge / dump /
    teardown routines, of the rank alignment and of the early validation
    errors, and of the escape-time kernel of
    [examples/julia-set/julia_example.py].

    The controlling process is sequential: every routine is a computation
    in a state-and-exception monad whose state holds the global namespace of
    every engine, the log of the remote calls issued so far and the number
    of uuids drawn.  The code that the context sends to the engines as text
    is represented by a small command type, one constructor per command
    template of the source, interpreted over an engine's [globals()].  The
    templates are filled with [%]: a text of the caller that is not made of
    name characters can change the code it is pasted into, and the command
    sent is then left to the interpreter of the engine, which is a
    parameter of the development. *)

From Stdlib Require Import Ascii.
From stdpp Require Import gmap strings list fin_maps functions pretty sorting.

(* ===================================================================== *)
(** * Python strings *)
(* ===================================================================== *)

Module PyStr.

(** [k.startswith(h)] *)
Fixpoint startswith (k h : string) {struct h} : bool :=
  match h with
  | EmptyString => true
  | String c h' =>
      match k with
      | EmptyString => false
      | String d k' => if decide (c = d) then startswith k' h' else false
      end
  end.

(** [s[:n]] *)
Fixpoint slice_to (n : nat) (s : string) : string :=
  match n, s with
  | S n', String c s' => String c (slice_to n' s')
  | _, _ => EmptyString
  end.

(** every character of [s] satisfies [p] *)
Fixpoint all_chars (p : ascii → bool) (s : string) : bool :=
  match s with
  | EmptyString => true
  | String c s' => p c && all_chars p s'
  end.

(** the characters of the ['%x'] format *)
Definition is_hexdigit (c : ascii) : bool :=
  bool_decide (c ∈ ["0"; "1"; "2"; "3"; "4"; "5"; "6"; "7"; "8"; "9";
                    "a"; "b"; "c"; "d"; "e"; "f"]%char).

Definition hex_char (d : N) : ascii :=
  match d with
  | 0 => "0" | 1 => "1" | 2 => "2" | 3 => "3" | 4 => "4" | 5 => "5"
  | 6 => "6" | 7 => "7" | 8 => "8" | 9 => "9" | 10 => "a" | 11 => "b"
  | 12 => "c" | 13 => "d" | 14 => "e" | _ => "f"
  end%N%char.

(** ['%0wx' % n], the digits accumulated in front of [acc] *)
Fixpoint hex_go (w : nat) (n : N) (acc : string) : string :=
  match w with
  | O => acc
  | S w' => hex_go w' (n / 16)%N (String (hex_char (n mod 16)%N) acc)
  end.

(** [str(x)] of a value that is [None] or already a string, as the
    ['%s'] format renders it *)
Definition str_of (x : option string) : string :=
  match x with
  | Some s => s
  | None => "None"
  end.

End PyStr.

Import PyStr.

(** [uuid.UUID.hex]: ['%032x' % self.int] *)
Definition uuid_hex (u : N) : string := hex_go 32 u "".

(* ===================================================================== *)
(** * Text pasted into code *)
(* ===================================================================== *)

(** The key management routines build the code they send with [%]: a
    prefix given by the caller ends up between the quotes of a string
    literal, a key after [del].  What the engine then runs depends on the
    characters of that text. *)

(** the characters of a Python 2 name: letters, digits and the underscore *)
Definition is_name_char (c : ascii) : bool :=
  let n := N_of_ascii c in
  ((48 <=? n) && (n <=? 57) || (65 <=? n) && (n <=? 90)
   || (97 <=? n) && (n <=? 122) || (n =? 95))%N.

(** made of name characters: between quotes such a text is the value of
    the literal *)
Definition plain (s : string) : bool := all_chars is_name_char s.

(** name characters and then one backslash: pasted right before the
    closing quote of a literal, the backslash escapes that quote and the
    literal runs to the end of the line, which is a [SyntaxError] *)
Fixpoint unclosed (s : string) : bool :=
  match s with
  | EmptyString => false
  | String c EmptyString => bool_decide (c = "\"%char)
  | String c s' => is_name_char c && unclosed s'
  end.

(** the keywords of Python 2 and [__debug__], which are no names to
    delete *)
Definition reserved : list string :=
  ["and"; "as"; "assert"; "break"; "class"; "continue"; "def"; "del";
   "elif"; "else"; "except"; "exec"; "finally"; "for"; "from"; "global";
   "if"; "import"; "in"; "is"; "lambda"; "not"; "or"; "pass"; "print";
   "raise"; "return"; "try"; "while"; "with"; "yield"; "__debug__"].

(** a name: name characters, no digit in front, not reserved *)
Definition is_name (s : string) : bool :=
  match s with
  | EmptyString => false
  | String c _ =>
      negb ((48 <=? N_of_ascii c) && (N_of_ascii c <=? 57))%N
      && plain s && negb (bool_decide (s ∈ reserved))
  end.

(* ===================================================================== *)
(** * Exceptions *)
(* ===================================================================== *)

Inductive exn : Type :=
  | ValueError (msg : string)
  | TypeError (msg : string)
  | ImportError (msg : string)
  | ContextError (msg : string)
  | AssertionError
  | KeyError
  | IndexError
  | AttributeError (name : string)
  | RemoteError (failed : list nat).       (* the engines whose code raised *)

Inductive result (A : Type) : Type :=
  | Ok (a : A)
  | Raise (e : exn).
Arguments Ok {A} a.
Arguments Raise {A} e.

(** what one engine answers to one piece of code *)
Inductive remote_exn : Type :=
  | NameError (name : string)
  | SyntaxError (text : string)
  | OtherError.

(* ===================================================================== *)
(** * Engines *)
(* ===================================================================== *)

(** IPython engine ids *)
Definition engine : Type := nat.

(** The objects bound in an engine's namespace. *)
Inductive value : Type :=
  | VInt (z : Z)
  | VStr (s : string)
  | VStrs (l : list string)               (* a list of names *)
  | VComm (ranks : list Z)                (* create_comm_with_list(ranks) *)
  | VModule
  | VDims (l : list nat)                  (* one dim_data per process *)
  | VObj (tag : nat).                     (* anything else *)

#[global] Instance value_eq_dec : EqDecision value.
Proof. solve_decision. Defined.

#[global] Instance value_countable : Countable value.
Proof.
  refine (inj_countable'
    (λ v, match v with
          | VInt z => inl z
          | VStr s => inr (inl s)
          | VStrs l => inr (inr (inl l))
          | VComm r => inr (inr (inr (inl r)))
          | VModule => inr (inr (inr (inr (inl ()))))
          | VDims l => inr (inr (inr (inr (inr (inl l)))))
          | VObj t => inr (inr (inr (inr (inr (inr t)))))
          end)
    (λ x, match x with
          | inl z => VInt z
          | inr (inl s) => VStr s
          | inr (inr (inl l)) => VStrs l
          | inr (inr (inr (inl r))) => VComm r
          | inr (inr (inr (inr (inl _)))) => VModule
          | inr (inr (inr (inr (inr (inl l))))) => VDims l
          | inr (inr (inr (inr (inr (inr t))))) => VObj t
          end) _).
  by intros [].
Defined.

(** A value the controlling process pushes. *)
Inductive pyobj : Type :=
  | PStr (s : string)
  | PList (l : list string)
  | PDims (l : list nat)
  | POther (tag : nat).

Definition value_of_pyobj (o : pyobj) : value :=
  match o with
  | PStr s => VStr s
  | PList l => VStrs l
  | PDims l => VDims l
  | POther t => VObj t
  end.

(** The code templates of [context.py].  A constructor stands for its
    template filled with names and with headers made of name characters;
    the routines that paste a text of the caller send [CLocal] or
    [CMalformed] when the text is of another kind. *)
Inductive cmd : Type :=
  | CImport
      (* "import distarray.local; import distarray.mpiutils; import numpy" *)
  | CCreateComm (dst : string) (ranks : list Z)
      (* '%s = distarray.mpiutils.create_comm_with_list(%s)' *)
  | CGetRank (dst comm : string)
      (* '%s = %s.Get_rank()' *)
  | CDel (name : string)
      (* 'del %s' *)
  | CPurge (header : string)
      (* for k in globals().keys():
             if k.startswith('%s'): del globals()[k] *)
  | CPurgeAll (header comm_header : string)
      (* for k in globals().keys():
             if k.startswith('%s') and not k.startswith('%s'):
                 del globals()[k] *)
  | CListKeys (dst header : string)
      (* '%s = [k for k in globals().keys() if k.startswith("%s")]' *)
  | CLocal (template : string) (subs : list string)
      (* code that is not interpreted here: a call into distarray.local
         with the substituted names, or a key management template filled
         with a text that is not made of name characters *)
  | CMalformed (template : string) (subs : list string).
      (* a template whose closing quote is escaped by the backslash at the
         end of the pasted text: no Python code *)

(** the outcome of running one piece of code on one engine *)
Inductive outcome : Type :=
  | Done (g : gmap string value)
  | Failed (err : remote_exn).

(** [globals().keys()]: a list, in the dictionary's order (Python 2) *)
Definition keys (g : gmap string value) : list string := (map_to_list g).*1.

(** The body of both purge loops, over the key list taken before the loop:
    the loop variable [k] is itself a global of the engine, and
    [del globals()[k]] raises [KeyError] on an unbound name. *)
Fixpoint purge_loop (cond : string → bool) (ks : list string)
    (g : gmap string value) : outcome :=
  match ks with
  | [] => Done g
  | k :: ks' =>
      let g1 := <["k" := VStr k]> g in
      if cond k then
        match g1 !! k with
        | Some _ => purge_loop cond ks' (delete k g1)
        | None => Failed OtherError
        end
      else purge_loop cond ks' g1
  end.

Section Engines.

(** The MPI side, which lives in [distarray.mpiutils] and in mpi4py:
    [Get_rank e ranks] is what [Get_rank()] answers on engine [e] for the
    communicator made by [create_comm_with_list(ranks)]. *)
Variable Get_rank : engine → list Z → Z.

(** The code this development does not interpret: the calls into
    [distarray.local] (array construction and the file codecs), and the key
    management code when the text pasted into it is not made of name
    characters, which may then be any Python code. *)
Variable local_call : engine → string → list string → gmap string value → outcome.

Definition exec_cmd (e : engine) (c : cmd) (g : gmap string value) : outcome :=
  match c with
  | CImport => Done (<["numpy" := VModule]> (<["distarray" := VModule]> g))
  | CCreateComm dst ranks => Done (<[dst := VComm ranks]> g)
  | CGetRank dst comm =>
      match g !! comm with
      | Some (VComm ranks) => Done (<[dst := VInt (Get_rank e ranks)]> g)
      | Some _ => Failed OtherError
      | None => Failed (NameError comm)
      end
  | CDel name =>
      if decide (name = "None") then Failed (SyntaxError "del None")
      else match g !! name with
           | Some _ => Done (delete name g)
           | None => Failed (NameError name)
           end
  | CPurge header =>
      purge_loop (λ k, startswith k header) (keys g) g
  | CPurgeAll header comm_header =>
      purge_loop (λ k, startswith k header && negb (startswith k comm_header))
                 (keys g) g
  | CListKeys dst header =>
      let ks := keys g in
      let g1 := match last ks with
                | Some k => <["k" := VStr k]> g
                | None => g
                end in
      Done (<[dst := VStrs (List.filter (λ k, startswith k header) ks)]> g1)
  | CLocal template subs => local_call e template subs g
  | CMalformed _ _ => Failed (SyntaxError "EOL while scanning string literal")
  end.

End Engines.

(* ===================================================================== *)
(** * The controlling process *)
(* ===================================================================== *)

(** the requests that reach the engines *)
Inductive rcall : Type :=
  | Execute (c : cmd) (on : list engine)
  | Push (d : list (string * pyobj)) (on : list engine)
  | PushFunction (name : string) (on : list engine)
  | Pull (name : string) (on : list engine)
  | ApplyAsync (f : string) (on : list engine).

Record state : Type := mkState {
  world : engine → gmap string value;     (* globals() of every engine *)
  calls : list rcall;                     (* remote calls, oldest first *)
  drawn : nat                             (* uuids drawn so far *)
}.

Definition M (A : Type) : Type := state → result A * state.

#[global] Instance M_ret : MRet M := λ A a st, (Ok a, st).

#[global] Instance M_bind : MBind M := λ A B k m st,
  match m st with
  | (Ok a, st') => k a st'
  | (Raise e, st') => (Raise e, st')
  end.

Definition raise {A} (e : exn) : M A := λ st, (Raise e, st).

(** [[f(x) for x in l]] with an [f] that may raise *)
Fixpoint for_each {A B} (f : A → M B) (l : list A) : M (list B) :=
  match l with
  | [] => mret []
  | x :: l' => y ← f x; ys ← for_each f l'; mret (y :: ys)
  end.

(** [d[k]] *)
Definition getitem `{Countable K} {V} (d : gmap K V) (k : K) : M V :=
  match d !! k with
  | Some v => mret v
  | None => raise KeyError
  end.

Definition log (c : rcall) : M unit :=
  λ st, (Ok (), mkState (world st) (calls st ++ [c]) (drawn st)).

(** [set(range(n))] *)
Definition set_range (n : Z) : gset Z :=
  list_to_set (Z.of_nat <$> seq 0 (Z.to_nat n)).

(** [{v: k for (k, v) in d.items()}] *)
Definition invert_items {K V} `{Countable V} (items : list (K * V)) : gmap V K :=
  foldl (λ acc kv, <[kv.2 := kv.1]> acc) ∅ items.

Record Client : Type := { ids : list engine }.

(** A [Context] object.  [_comm_key] is [None] while the attribute does
    not exist yet, [Some None] when it holds Python's [None]. *)
Record Context : Type := mkContext {
  view_targets : list engine;             (* self.view.targets *)
  targets : list engine;
  key_context : string;
  _comm_key : option (option string)
}.

(** [distarray.client.DistArray(key, context)] *)
Record DistArray : Type := mkDistArray {
  key : string;
  context : Context
}.

(** the [name] argument of [save] and [load] *)
Inductive name_arg : Type :=
  | NameStr (s : string)                  (* isinstance(name, six.string_types) *)
  | NameList (l : list string)            (* another collections.Iterable *)
  | NameOther (tag : nat).

(** ** Key names *)

Definition _key_base (prefix : option string) : string :=
  let base := "__distarray_" in
  match prefix with
  | Some prefix => (base +:+ "_") +:+ prefix
  | None => base
  end.

Definition _key_header (self : Context) (prefix : option string) : string :=
  (_key_base prefix +:+ "_") +:+ key_context self.

Section Controller.

Variable Get_rank : engine → list Z → Z.
Variable local_call : engine → string → list string → gmap string value → outcome.

(** the values [uuid.uuid4().int] takes, in the order they are drawn *)
Variable entropy : nat → N.

(** [COMM_PRIVATE.Get_rank()] and [COMM_PRIVATE.Get_size()] on an engine *)
Variable private_rank : engine → Z.
Variable private_size : engine → Z.

(** whether [import h5py] succeeds in the controlling process *)
Variable h5py_available : bool.

(** the client [Client()] connects to *)
Variable default_client : Client.

(** ** The view *)

(** run [c] on the engines [ts], one after the other; an engine whose code
    raises keeps its namespace and is reported *)
Fixpoint run_on (c : cmd) (ts : list engine) (w : engine → gmap string value)
    : (engine → gmap string value) * list engine :=
  match ts with
  | [] => (w, [])
  | t :: ts' =>
      match exec_cmd Get_rank local_call t c (w t) with
      | Done g => run_on c ts' (<[t := g]> w)
      | Failed _ => let '(w', failed) := run_on c ts' w in (w', t :: failed)
      end
  end.

(** whether the code [c] raises on engine [t] *)
Definition fails (c : cmd) (w : engine → gmap string value) (t : engine) : bool :=
  match exec_cmd Get_rank local_call t c (w t) with
  | Done _ => false
  | Failed _ => true
  end.

(** [view.execute(code, targets=ts, block=block)] *)
Definition view_execute (c : cmd) (ts : list engine) (block : bool) : M unit :=
  λ st,
    let '(w', failed) := run_on c ts (world st) in
    let st' := mkState w' (calls st ++ [Execute c ts]) (drawn st) in
    match failed with
    | _ :: _ => if block then (Raise (RemoteError failed), st') else (Ok (), st')
    | [] => (Ok (), st')
    end.

Definition push_on (d : list (string * pyobj)) (ts : list engine)
    (w : engine → gmap string value) : engine → gmap string value :=
  foldl (λ w t, <[t := foldl (λ g kv, <[kv.1 := value_of_pyobj kv.2]> g) (w t) d]> w)
        w ts.

(** [view.push(d, targets=ts, block=True)] *)
Definition view_push (d : list (string * pyobj)) (ts : list engine) : M unit :=
  λ st, (Ok (), mkState (push_on d ts (world st)) (calls st ++ [Push d ts]) (drawn st)).

(** [view.pull(name, targets=ts)], waited for: the values in the order of
    [ts]; an engine where [name] is unbound raises *)
Definition view_pull (name : string) (ts : list engine) : M (list value) :=
  λ st,
    let st' := mkState (world st) (calls st ++ [Pull name ts]) (drawn st) in
    let failed := List.filter (λ t, bool_decide (world st t !! name = None)) ts in
    match failed with
    | _ :: _ => (Raise (RemoteError failed), st')
    | [] => (Ok (omap (λ t, world st t !! name) ts), st')
    end.

(** [view.apply_async(f)], waited for, on every engine of the view *)
Definition view_apply (f : string) (impl : engine → Z) (ts : list engine)
    : M (list Z) :=
  log (ApplyAsync f ts);; mret (impl <$> ts).

(** [AsyncResult.get_dict()] of IPython.parallel: the results keyed by
    engine id; it refuses two results from one engine, and looks at the
    last engine id first *)
Definition get_dict {A} (ts : list engine) (results : list A)
    : M (gmap engine A) :=
  match ts with
  | [] => raise IndexError
  | _ :: _ =>
      if bool_decide (NoDup ts) then mret (list_to_map (zip ts results))
      else raise (ValueError "Cannot build dict")
  end.

(** ** Key management *)

Definition uuid4 : M N :=
  λ st, (Ok (entropy (drawn st)), mkState (world st) (calls st) (S (drawn st))).

(** the new value of [self.key_context] *)
Definition _setup_key_context : M string :=
  uid ← uuid4;
  mret (slice_to 16 (uuid_hex uid)).

Definition _generate_key (self : Context) (prefix : option string) : M string :=
  uid ← uuid4;
  mret ((_key_header self prefix +:+ "_") +:+ uuid_hex uid).

Definition _execute (self : Context) (lines : cmd) : M unit :=
  view_execute lines (targets self) true.

Definition _push (self : Context) (d : list (string * pyobj)) : M unit :=
  view_push d (targets self).

Definition _pull (self : Context) (k : string) : M (list value) :=
  view_pull k (targets self).

Definition _key_and_push (self : Context) (values : list pyobj) : M (list string) :=
  keys ← for_each (λ _, _generate_key self None) values;
  _push self (zip keys values);;
  mret keys.

(** Whether ['del %s' % key] deletes the one name [key].  It does for a
    name; the attribute [self._comm_key] is written by [_make_intracomm],
    which stores a generated key, and by [_cleanup_keys], which stores
    [None], so its text is taken as it stands. *)
Definition names_one_key (self : Context) (key : option string) : bool :=
  is_name (str_of key) || bool_decide (_comm_key self = Some key).

Definition delete_key (self : Context) (key : option string) : M unit :=
  let cmd := if names_one_key self key then CDel (str_of key)
             else CLocal "del %s" [str_of key] in
  _execute self cmd.

(** The two loops of [purge_keys] paste a header between quotes.  The key
    context in it is sixteen hexadecimal digits; the prefix is the
    caller's, and the loop is the code of the template when the prefix is
    made of name characters. *)
Definition purge_keys (self : Context) (prefix : option string)
    (all_contexts : bool) : M unit :=
  if all_contexts then
    let header := _key_base prefix in
    let comm_header := _key_header self (Some "comm") in
    let cmd :=
      if plain (default "" prefix) then CPurgeAll header comm_header
      else CLocal ("for k in globals().keys(): if k.startswith('%s') "
                     +:+ "and not k.startswith('%s'): del globals()[k]")
                  [header; comm_header] in
    _execute self cmd
  else
    let header := _key_header self prefix in
    let cmd :=
      if plain (default "" prefix) then CPurge header
      else CLocal "for k in globals().keys(): if k.startswith('%s'): del globals()[k]"
                  [header] in
    _execute self cmd.

(** The code of [dump_keys], which pastes the header between quotes (the
    quotes of the source are double quotes).  With [all_contexts] the
    header ends with the prefix, and a backslash at its end escapes the
    closing quote. *)
Definition list_keys_code (prefix : option string) (all_contexts : bool)
    (dst header : string) : cmd :=
  let text := default "" prefix in
  if plain text then CListKeys dst header
  else if all_contexts && unclosed text then
    CMalformed "%s = [k for k in globals().keys() if k.startswith('%s')]"
               [dst; header]
  else
    CLocal "%s = [k for k in globals().keys() if k.startswith('%s')]"
           [dst; header].

(** the two nested loops of [dump_keys] that fill [engine_keys]; the index
    [iengine] comes from [enumerate(keylists)], and [keylists] has one entry
    per target, so [self.targets[iengine]] is in range *)
Definition collect_keys (ts : list engine) (keylists : list (list string))
    : gmap string (list engine) :=
  foldl (λ engine_keys ik,
           foldl (λ ek key,
                    let ek' := match ek !! key with
                               | Some _ => ek
                               | None => <[key := []]> ek
                               end in
                    alter (λ l, l ++ [default 0%nat (ts !! ik.1)]) key ek')
                 engine_keys ik.2)
        ∅ (imap (λ i l, (i, l)) keylists).

Definition dump_keys (self : Context) (prefix : option string)
    (all_contexts : bool) : M (list (string * list engine)) :=
  let header := if all_contexts then _key_base prefix
                else _key_header self prefix in
  dump_key ← _generate_key self None;
  _execute self (list_keys_code prefix all_contexts dump_key header);;
  vals ← _pull self dump_key;
  keylists ← for_each (λ v, match v with
                            | VStrs l => mret l
                            | _ => raise (TypeError "not a list of names")
                            end) vals;
  let engine_keys := collect_keys (targets self) keylists in
  mret ((λ key, (key, default [] (engine_keys !! key)))
          <$> merge_sort String.le (map_to_list engine_keys).*1).

(** [_cleanup_keys], returning the object as it has become; the [print]
    statements write to the controlling process's standard output only *)
Definition _cleanup_keys (self : Context) : M Context :=
  purge_keys self None false;;
  match _comm_key self with
  | Some key =>
      delete_key self key;;
      mret (mkContext (view_targets self) (targets self) (key_context self)
                      (Some None))
  | None => mret self
  end.

(** ** Construction *)

(** the loop of [__init__] over the requested targets *)
Fixpoint select_targets (all_targets targets acc : list engine)
    : M (list engine) :=
  match targets with
  | [] => mret acc
  | target :: rest =>
      if bool_decide (target ∈ all_targets)
      then select_targets all_targets rest (acc ++ [target])
      else raise (ValueError (("Engine with id " +:+ pretty target)
                                +:+ " not registered"))
  end.

Definition set_range_v (n : nat) : gset value :=
  list_to_set ((λ i, VInt (Z.of_nat i)) <$> seq 0 n).

(** [self._comm_key] *)
Definition get_comm_key (self : Context) : M (option string) :=
  match _comm_key self with
  | Some key => mret key
  | None => raise (AttributeError "_comm_key")
  end.

Definition _set_engine_rank_mapping (self : Context) : M Context :=
  rank ← _generate_key self None;
  comm_key ← get_comm_key self;
  view_execute (CGetRank rank (str_of comm_key)) (targets self) true;;
  pulled ← view_pull rank (targets self);
  target_to_rank ← get_dict (targets self) pulled;
  let rank_to_target := invert_items (map_to_list target_to_rank) in
  if negb (bool_decide (list_to_set (targets self) =@{gset engine}
                          dom target_to_rank))
  then raise AssertionError
  else if negb (bool_decide (set_range_v (length (targets self)) =
                               dom rank_to_target))
  then raise AssertionError
  else
    targets' ← for_each (λ i, getitem rank_to_target (VInt (Z.of_nat i)))
                        (seq 0 (size rank_to_target));
    mret (mkContext (view_targets self) targets' (key_context self)
                    (_comm_key self)).

Definition _make_intracomm (self : Context) : M Context :=
  rank_list ← view_apply "get_rank" private_rank (view_targets self);
  rank_map ← get_dict (view_targets self) rank_list;
  ranks ← for_each (getitem rank_map) (targets self);
  sizes ← view_apply "get_size" private_size (view_targets self);
  comm_size ← match sizes with
              | size :: _ => mret size
              | [] => raise IndexError
              end;
  if bool_decide (list_to_set (map_to_list rank_map).*2 ≠ set_range comm_size)
  then raise (ValueError "Engines in view must encompass all MPI ranks.")
  else
    key ← _generate_key self (Some "comm");
    view_execute (CCreateComm key ranks) (view_targets self) true;;
    mret (mkContext (view_targets self) (targets self) (key_context self)
                    (Some (Some key))).

Definition __init__ (client : option Client) (targets : option (list engine))
    : M Context :=
  let client := default default_client client in
  let all_targets := ids client in
  ts ← match targets with
       | None => mret all_targets
       | Some targets => select_targets all_targets targets []
       end;
  view_execute CImport all_targets false;;
  key_context ← _setup_key_context;
  self ← _make_intracomm (mkContext all_targets ts key_context None);
  _set_engine_rank_mapping self.

(** ** Array creation *)

Definition zeros (self : Context) (shape dtype dist grid_shape : pyobj)
    : M DistArray :=
  keys ← _key_and_push self [shape; dtype; dist; grid_shape];
  da_key ← _generate_key self None;
  comm_key ← get_comm_key self;
  _execute self
    (CLocal "%s = distarray.local.zeros(%s, %s, %s, %s, %s)"
            ([da_key] ++ keys ++ [str_of comm_key]));;
  mret (mkDistArray da_key self).

Definition ones (self : Context) (shape dtype dist grid_shape : pyobj)
    : M DistArray :=
  keys ← _key_and_push self [shape; dtype; dist; grid_shape];
  da_key ← _generate_key self None;
  comm_key ← get_comm_key self;
  _execute self
    (CLocal "%s = distarray.local.ones(%s, %s, %s, %s, %s)"
            ([da_key] ++ keys ++ [str_of comm_key]));;
  mret (mkDistArray da_key self).

Definition empty (self : Context) (shape dtype dist grid_shape : pyobj)
    : M DistArray :=
  keys ← _key_and_push self [shape; dtype; dist; grid_shape];
  da_key ← _generate_key self None;
  comm_key ← get_comm_key self;
  _execute self
    (CLocal "%s = distarray.local.empty(%s, %s, %s, %s, %s)"
            ([da_key] ++ keys ++ [str_of comm_key]));;
  mret (mkDistArray da_key self).

(** ** Persistence *)

Definition save (self : Context) (name : name_arg) (da : DistArray) : M unit :=
  match name with
  | NameStr s =>
      keys ← _key_and_push self [PStr s];
      _execute self
        (CLocal "distarray.local.save(%s + '_' + str(%s.comm_rank) + '.dnpy', %s)"
                (keys ++ [key da; key da]))
  | NameList l =>
      if bool_decide (length l ≠ length (targets self))
      then raise (TypeError "`name` must be the same length as `self.targets`.")
      else
        keys ← _key_and_push self [PList l];
        _execute self
          (CLocal "distarray.local.save(%s[%s.comm_rank], %s)"
                  (keys ++ [key da; key da]))
  | NameOther _ => raise (TypeError "`name` must be a string or a list.")
  end.

Definition load (self : Context) (name : name_arg) : M DistArray :=
  da_key ← _generate_key self None;
  comm_key ← get_comm_key self;
  match name with
  | NameStr s =>
      keys ← _key_and_push self [PStr s];
      _execute self
        (CLocal "%s = distarray.local.load(%s + '_' + str(%s.Get_rank()) + '.dnpy', %s)"
                ([da_key] ++ keys ++ [str_of comm_key; str_of comm_key]));;
      mret (mkDistArray da_key self)
  | NameList l =>
      if bool_decide (length l ≠ length (targets self))
      then raise (TypeError "`name` must be the same length as `self.targets`.")
      else
        keys ← _key_and_push self [PList l];
        _execute self
          (CLocal "%s = distarray.local.load(%s[%s.Get_rank()], %s)"
                  ([da_key] ++ keys ++ [str_of comm_key; str_of comm_key]));;
        mret (mkDistArray da_key self)
  | NameOther _ => raise (TypeError "`name` must be a string or a list.")
  end.

(** the early [import h5py] of [save_hdf5] and [load_hdf5] *)
Definition import_h5py (errmsg : string) : M unit :=
  if h5py_available then mret () else raise (ImportError errmsg).

Definition save_hdf5 (self : Context) (filename : string) (da : DistArray)
    (key' mode : string) : M unit :=
  import_h5py "An MPI-enabled h5py must be available to use save_hdf5.";;
  keys1 ← _key_and_push self [PStr filename];
  keys2 ← _key_and_push self [PStr key'; PStr mode];
  _execute self
    (CLocal "distarray.local.save_hdf5(%s, %s, %s, %s)"
            (keys1 ++ [key da] ++ keys2)).

Definition load_npy (self : Context) (filename : string)
    (dim_data_per_process : list nat) : M DistArray :=
  if bool_decide (length (targets self) ≠ length dim_data_per_process)
  then raise (TypeError
         "`dim_data_per_process` must contain a dim_data for every process.")
  else
    da_key ← _generate_key self None;
    keys ← _key_and_push self [PStr filename; PDims dim_data_per_process];
    comm_key ← get_comm_key self;
    _execute self
      (CLocal "%s = distarray.local.load_npy(%s, %s[%s.Get_rank()], %s)"
              ([da_key] ++ keys ++ [str_of comm_key; str_of comm_key]));;
    mret (mkDistArray da_key self).

Definition load_hdf5 (self : Context) (filename : string)
    (dim_data_per_process : list nat) (key' : string) : M DistArray :=
  import_h5py "An MPI-enabled h5py must be available to use load_hdf5.";;
  if bool_decide (length (targets self) ≠ length dim_data_per_process)
  then raise (TypeError
         "`dim_data_per_process` must contain a dim_data for every process.")
  else
    da_key ← _generate_key self None;
    keys1 ← _key_and_push self [PStr filename; PDims dim_data_per_process];
    comm_key ← get_comm_key self;
    keys2 ← _key_and_push self [PStr key'];
    _execute self
      (CLocal "%s = distarray.local.load_hdf5(%s, %s[%s.Get_rank()], %s, %s)"
              ([da_key] ++ keys1 ++ [str_of comm_key] ++ keys2
                 ++ [str_of comm_key]));;
    mret (mkDistArray da_key self).

End Controller.

(* ===================================================================== *)
(** * The wrapped numpy operations ([distarray/dist/functions.py]) *)
(* ===================================================================== *)

Module Functions.

(** a [Context] object with its identity: [Context] defines no [__eq__],
    so [==] compares identities *)
Record ContextObj : Type := mkContextObj {
  oid : nat;
  obj : Context
}.

Definition context_eqb (c1 c2 : ContextObj) : bool :=
  bool_decide (oid c1 = oid c2).

Record Distribution : Type := mkDistribution {
  layout : nat;
  dist_targets : list engine
}.

(** [distarray.dist.distarray.DistArray], with the attributes this module
    reads *)
Record DistArray : Type := mkDistArray {
  key : string;
  context : ContextObj;
  targets : list engine;
  distribution : Distribution
}.

(** an argument of a wrapped operation *)
Inductive arg : Type :=
  | ADist (a : DistArray)                 (* isinstance(x, DistArray) *)
  | AScalar (tag : nat)                   (* numpy.isscalar(x) *)
  | AOther (tag : nat).

Definition is_dap (x : arg) : bool :=
  match x with ADist _ => true | _ => false end.

Definition isscalar (x : arg) : bool :=
  match x with AScalar _ => true | _ => false end.

Section Proxies.

Variable Get_rank : engine → list Z → Z.
Variable local_call : engine → string → list string → gmap string value → outcome.
Variable entropy : nat → N.

(** [Distribution.is_compatible], from the layout code *)
Variable is_compatible : Distribution → Distribution → bool.

(** [repr(tuple(set(contexts)))] *)
Variable repr_contexts : list ContextObj → string.

(** [DistArray.from_localarrays(key, distribution=distribution)] *)
Variable from_localarrays : string → Distribution → M DistArray.

(** [x.key], [x.distribution], [x.targets] *)
Definition get_key (x : arg) : M string :=
  match x with
  | ADist a => mret (key a)
  | _ => raise (AttributeError "key")
  end.

Definition get_distribution (x : arg) : M Distribution :=
  match x with
  | ADist a => mret (distribution a)
  | _ => raise (AttributeError "distribution")
  end.

Definition get_targets (x : arg) : M (list engine) :=
  match x with
  | ADist a => mret (targets a)
  | _ => raise (AttributeError "targets")
  end.

(** [contexts.count(c)] *)
Definition count (c : ContextObj) (contexts : list ContextObj) : nat :=
  length (List.filter (context_eqb c) contexts).

Definition determine_context (args : list arg) : M ContextObj :=
  let contexts := omap (λ x, match x with
                             | ADist a => Some (context a)
                             | _ => None
                             end) args in
  match contexts with
  | [] => raise (TypeError "Function must take DistArray or Context objects.")
  | c0 :: _ =>
      if negb (bool_decide (count c0 contexts = length contexts))
      then raise (ContextError
             (("Arguments must use the same Context (given arguments of type "
               +:+ repr_contexts contexts) +:+ ")"))
      else mret c0
  end.

(** A call [context._execute(exec_str)] or
    [context._execute(exec_str, targets=ts)], its arguments evaluated:
    [Context._execute(self, lines)] has no [targets] parameter, so the
    call with the keyword raises [TypeError] and nothing is sent. *)
Definition context_execute (c : ContextObj) (exec_str : cmd)
    (targets : option (list engine)) : M unit :=
  match targets with
  | Some _ =>
      raise (TypeError
               "_execute() got an unexpected keyword argument 'targets'")
  | None => _execute Get_rank local_call (obj c) exec_str
  end.

Definition scalar_obj (x : arg) : pyobj :=
  match x with
  | AScalar t | AOther t => POther t
  | ADist _ => POther 0
  end.

Definition unary_proxy (name : string) (a : arg) (casting : option string)
    : M DistArray :=
  context ← determine_context [a];
  new_key ← _generate_key entropy (obj context) None;
  a_key ← get_key a;
  let exec_str :=
    match casting with
    | Some casting =>
        CLocal "%s = distarray.local.%s(%s, casting='%s')"
               [new_key; name; a_key; casting]
    | None => CLocal "%s = distarray.local.%s(%s)" [new_key; name; a_key]
    end in
  ts ← get_targets a;
  context_execute context exec_str (Some ts);;
  d ← get_distribution a;
  from_localarrays new_key d.

Definition binary_proxy (name : string) (a b : arg) (casting : option string)
    : M DistArray :=
  context ← determine_context [a; b];
  '(a_key, b_key, distribution) ←
    (if is_dap a && is_dap b then
       da ← get_distribution a;
       db ← get_distribution b;
       if negb (is_compatible da db)
       then raise (ValueError "distributions not compatible.")
       else
         a_key ← get_key a;
         b_key ← get_key b;
         mret (a_key, b_key, da)
     else if is_dap a && isscalar b then
       a_key ← get_key a;
       keys ← _key_and_push entropy (obj context) [scalar_obj b];
       b_key ← match keys with
               | k :: _ => mret k
               | [] => raise IndexError
               end;
       da ← get_distribution a;
       mret (a_key, b_key, da)
     else if is_dap b && isscalar a then
       keys ← _key_and_push entropy (obj context) [scalar_obj a];
       a_key ← match keys with
               | k :: _ => mret k
               | [] => raise IndexError
               end;
       b_key ← get_key b;
       db ← get_distribution b;
       mret (a_key, b_key, db)
     else raise (TypeError "only DistArray or scalars are accepted"));
  new_key ← _generate_key entropy (obj context) None;
  let exec_str :=
    match casting with
    | Some casting =>
        CLocal "%s = distarray.local.%s(%s,%s, casting='%s')"
               [new_key; name; a_key; b_key; casting]
    | None =>
        CLocal "%s = distarray.local.%s(%s,%s)" [new_key; name; a_key; b_key]
    end in
  context_execute context exec_str (Some (dist_targets distribution));;
  from_localarrays new_key distribution.

End Proxies.

End Functions.

(* ===================================================================== *)
(** * The escape-time kernel ([examples/julia-set/julia_example.py]) *)
(* ===================================================================== *)

(** what a call of [julia_calc] ends with: the count it returns, or the
    [OverflowError] of [abs] *)
Inductive escape : Type :=
  | Count (n : Z)
  | AbsOverflow.

Section Julia.

(** complex numbers and magnitudes with the operations the kernel uses;
    [Cabs z] is [None] where [abs(z)] raises [OverflowError] *)
Variable C : Type.
Variable R : Type.
Variable Cmul Cadd : C → C → C.
Variable Cabs : C → option R.
Variable Rlt : R → R → bool.

(** the [while] loop of [julia_calc], its body run at most [fuel] times *)
Fixpoint julia_loop (fuel : nat) (z c : C) (z_max : R) (n_max n : Z)
    : option escape :=
  match Cabs z with
  | None => Some AbsOverflow
  | Some m =>
      if Rlt m z_max && (n <? n_max)%Z then
        match fuel with
        | O => None
        | S fuel => julia_loop fuel (Cadd (Cmul z z) c) c z_max n_max (n + 1)
        end
      else Some (Count n)
  end.

Definition julia_calc (fuel : nat) (z c : C) (z_max : R) (n_max : Z)
    : option escape :=
  julia_loop fuel z c z_max n_max 0.

(** whether the [k]-th iterate of [z -> z*z + c] has a magnitude below
    [z_max] *)
Definition below (z c : C) (z_max : R) (k : nat) : option bool :=
  (λ m, Rlt m z_max) <$> Cabs (Nat.iter k (λ z, Cadd (Cmul z z) c) z).

End Julia.

(* ===================================================================== *)
(** * Well-formed contexts and observations *)
(* ===================================================================== *)

(** what [_setup_key_context] produces: sixteen hexadecimal digits *)
Definition wf_key_context (s : string) : Prop :=
  String.length s = 16%nat ∧ all_chars is_hexdigit s = true.

(** the two ways [context.py] calls [_generate_key] *)
Definition used_prefix (prefix : option string) : Prop :=
  prefix = None ∨ prefix = Some "comm".

(** the names bound on an engine that carry the header of [self] *)
Definition live_keys (self : Context) (g : gmap string value) : gset string :=
  filter (λ k, startswith k (_key_header self None) = true) (dom g).

(** the check of [_make_intracomm]: the engines of the view report exactly
    the ranks [0 .. size-1], [size] being what the first engine reports *)
Definition view_covers_ranks (private_rank private_size : engine → Z)
    (view : list engine) : Prop :=
  match view with
  | first :: _ =>
      list_to_set (private_rank <$> view) =@{gset Z} set_range (private_size first)
  | [] => False
  end.

(** the ranks the engines [ts] report for the communicator made from
    [ranks] are the numbers [0 .. len(ts)-1], each once *)
Definition ranks_aligned (Get_rank : engine → list Z → Z) (ranks : list Z)
    (ts : list engine) : Prop :=
  (λ t, Get_rank t ranks) <$> ts ≡ₚ Z.of_nat <$> seq 0 (length ts).

(** the integer a pulled rank stands for *)
Definition int_of (v : value) : Z :=
  match v with
  | VInt z => z
  | _ => 0%Z
  end.

(** [m] reaches the engines [ts] only, and it only adds: the namespace of
    every other engine is as before, the log of remote calls is extended,
    and no uuid is given back *)
Definition confined {A} (ts : list engine) (m : M A) : Prop :=
  ∀ st,
    (∀ t, t ∉ ts → world (m st).2 t = world st t) ∧
    calls st `prefix_of` calls (m st).2 ∧
    (drawn st ≤ drawn (m st).2)%nat.

(** [m] raises nothing but exceptions that satisfy [P] *)
Definition raises_only {A} (P : exn → Prop) (m : M A) : Prop :=
  ∀ st e st', m st = (Raise e, st') → P e.

(** the engines a wrapped operation may reach through the argument [x] *)
Definition reach (x : Functions.arg) : list engine :=
  match x with
  | Functions.ADist a =>
      targets (Functions.obj (Functions.context a))
        ++ Functions.targets a
        ++ Functions.dist_targets (Functions.distribution a)
  | _ => []
  end.

(** the number of [%s] in a template *)
Fixpoint placeholders (template : string) : nat :=
  match template with
  | String "%" (String "s" rest) => S (placeholders rest)
  | String _ rest => placeholders rest
  | EmptyString => 0
  end.

(** a remote call whose code, when it comes from a template, has one
    substitution for each [%s] of the template: the [%] operator of Python
    raises [TypeError] otherwise *)
Definition filled (c : rcall) : Prop :=
  match c with
  | Execute (CLocal template subs) _ => placeholders template = length subs
  | _ => True
  end.

(** every remote call [m] adds to the log is [filled] *)
Definition well_formatted {A} (m : M A) : Prop :=
  ∀ st c, c ∈ calls (m st).2 → c ∈ calls st ∨ filled c.

(* ===================================================================== *)
(** * A concrete pool *)
(* ===================================================================== *)

(** Three engines whose rank in [COMM_PRIVATE] is their id; a communicator
    made from a rank list numbers its members by their position in the
    list, as [MPI_Group_incl] does. *)
Module Demo.

Definition pool : Client := {| ids := [0; 1; 2]%nat |}.

Definition mpi_rank (e : engine) : Z := Z.of_nat e.

Definition mpi_size (_ : engine) : Z := 3%Z.

Definition group_rank (e : engine) (ranks : list Z) : Z :=
  match list_find (λ r, r = mpi_rank e) ranks with
  | Some (i, _) => Z.of_nat i
  | None => (-1)%Z
  end.

Definition no_local (_ : engine) (_ : string) (_ : list string)
    (g : gmap string value) : outcome := Done g.

Definition entropy (n : nat) : N := (N.of_nat (1000 + n) * 2 ^ 70)%N.

(** a communicator of four processes, of which the pool sees three *)
Definition wide_size (_ : engine) : Z := 4%Z.

Definition st0 : state := mkState (λ _, ∅) [] 0.

Definition create : option Client → option (list engine) → M Context :=
  __init__ group_rank no_local entropy mpi_rank mpi_size pool.

Definition blank : Context := mkContext [] [] "" None.

Definition context_of (r : result Context * state) : Context :=
  match r.1 with
  | Ok self => self
  | Raise _ => blank
  end.

(** a first context on the engines 2 and 0, then a second on the whole pool *)
Definition c1 : Context := context_of (create None (Some [2; 0]%nat) st0).
Definition st1 : state := (create None (Some [2; 0]%nat) st0).2.
Definition c2 : Context := context_of (create None None st1).
Definition st2 : state := (create None None st1).2.

End Demo.

(* ===================================================================== *)
(** * Facts about strings and key names *)
(* ===================================================================== *)

Section StringFacts.
Local Arguments String.append !_ _ /.

Lemma app_length (a b : string) :
  String.length (a +:+ b) = (String.length a + String.length b)%nat.
Proof. induction a as [|c a IH]; simpl; [done | by rewrite IH]. Qed.

Lemma app_assoc' (a b c : string) : (a +:+ b) +:+ c = a +:+ (b +:+ c).
Proof. induction a as [|x a IH]; simpl; [done | by rewrite IH]. Qed.

Lemma startswith_app (h r : string) : startswith (h +:+ r) h = true.
Proof. induction h as [|c h IH]; simpl; [done|]. by rewrite decide_True. Qed.

Lemma startswith_spec (k h : string) :
  startswith k h = true ↔ ∃ r, k = h +:+ r.
Proof.
  split.
  - revert k. induction h as [|c h IH]; intros k Hk; simpl in *.
    + by exists k.
    + destruct k as [|d k]; [done|]. case_decide; [|done]. subst d.
      destruct (IH _ Hk) as [r ->]. by exists r.
  - intros [r ->]. apply startswith_app.
Qed.

Lemma app_inj_length (a b x y : string) :
  String.length a = String.length b → a +:+ x = b +:+ y → a = b ∧ x = y.
Proof.
  revert b. induction a as [|c a IH]; intros [|d b] Hl Heq; simpl in *; try done.
  injection Heq as -> Heq. destruct (IH b) as [-> ->]; [lia | done | done].
Qed.

Lemma startswith_app_same_length (a b x y : string) :
  String.length a = String.length b →
  startswith (a +:+ x) (b +:+ y) = true → a = b.
Proof.
  intros Hl [r Hr]%startswith_spec. rewrite app_assoc' in Hr.
  by destruct (app_inj_length _ _ _ _ Hl Hr).
Qed.

Lemma hex_go_length (w : nat) (n : N) (acc : string) :
  String.length (hex_go w n acc) = (w + String.length acc)%nat.
Proof.
  revert n acc. induction w as [|w IH]; intros n acc; simpl; [done|].
  rewrite IH. simpl. lia.
Qed.

Lemma hex_char_hexdigit (d : N) : is_hexdigit (hex_char d) = true.
Proof.
  destruct d as [|p]; [done|].
  do 4 (destruct p as [p|p|]; try done).
Qed.

Lemma hex_go_hexdigits (w : nat) (n : N) (acc : string) :
  all_chars is_hexdigit acc = true →
  all_chars is_hexdigit (hex_go w n acc) = true.
Proof.
  revert n acc. induction w as [|w IH]; intros n acc Hacc; simpl; [done|].
  apply IH. simpl. by rewrite hex_char_hexdigit.
Qed.

Lemma slice_to_length (n : nat) (s : string) :
  (n ≤ String.length s)%nat → String.length (slice_to n s) = n.
Proof.
  revert s. induction n as [|n IH]; intros [|c s] Hn; simpl in *; try done; try lia.
  rewrite IH; lia.
Qed.

Lemma slice_to_all_chars (p : ascii → bool) (n : nat) (s : string) :
  all_chars p s = true → all_chars p (slice_to n s) = true.
Proof.
  revert s. induction n as [|n IH]; intros [|c s] Hs; simpl in *; try done.
  apply andb_true_iff in Hs as [-> Hs]. by rewrite IH.
Qed.

Lemma uuid_hex_length (u : N) : String.length (uuid_hex u) = 32%nat.
Proof. unfold uuid_hex. by rewrite hex_go_length. Qed.

Lemma uuid_hex_hexdigits (u : N) : all_chars is_hexdigit (uuid_hex u) = true.
Proof. by apply hex_go_hexdigits. Qed.

Lemma key_context_wf (u : N) : wf_key_context (slice_to 16 (uuid_hex u)).
Proof.
  split.
  - apply slice_to_length. rewrite uuid_hex_length. lia.
  - apply slice_to_all_chars, uuid_hex_hexdigits.
Qed.

(** a hexadecimal string does not start with the reserved tag *)
Lemma hex_not_comm (s r : string) :
  all_chars is_hexdigit s = true → (2 ≤ String.length s)%nat →
  startswith ("comm_" +:+ r) s = false.
Proof.
  intros Hs Hl. destruct s as [|c [|d s]]; simpl in *; try lia.
  repeat case_decide; try done. subst. done.
Qed.

End StringFacts.

Section KeyFacts.
Local Arguments String.append !_ _ /.

Lemma _key_header_plain (self : Context) :
  _key_header self None = "__distarray__" +:+ key_context self.
Proof. reflexivity. Qed.

Lemma _key_header_comm (self : Context) :
  _key_header self (Some "comm") = "__distarray__comm_" +:+ key_context self.
Proof. reflexivity. Qed.

Lemma _generate_key_eq entropy (self : Context) (prefix : option string) (st : state) :
  _generate_key entropy self prefix st =
    (Ok ((_key_header self prefix +:+ "_") +:+ uuid_hex (entropy (drawn st))),
     mkState (world st) (calls st) (S (drawn st))).
Proof. reflexivity. Qed.

Lemma key_plain_shape (self : Context) (r : string) :
  (_key_header self None +:+ "_") +:+ r =
    "__distarray__" +:+ (key_context self +:+ ("_" +:+ r)).
Proof. unfold _key_header, _key_base. by rewrite !app_assoc'. Qed.

Lemma key_comm_shape (self : Context) (r : string) :
  (_key_header self (Some "comm") +:+ "_") +:+ r =
    "__distarray__" +:+ ("comm_" +:+ (key_context self +:+ ("_" +:+ r))).
Proof. unfold _key_header, _key_base. by rewrite !app_assoc'. Qed.

Lemma startswith_app_both (p k h : string) :
  startswith (p +:+ k) (p +:+ h) = startswith k h.
Proof. induction p as [|c p IH]; simpl; [done|]. by rewrite decide_True. Qed.

Lemma startswith_same_length (a b x : string) :
  String.length a = String.length b →
  startswith (a +:+ x) b = bool_decide (a = b).
Proof.
  intros Hl. case_bool_decide as Hab.
  - subst. apply startswith_app.
  - apply not_true_is_false. intros [r Hr]%startswith_spec.
    by destruct (app_inj_length _ _ _ _ Hl Hr).
Qed.

(** a key of one context does not carry the plain header of another *)
Lemma foreign_header (self other : Context) (prefix : option string) (r : string) :
  wf_key_context (key_context self) → wf_key_context (key_context other) →
  key_context other ≠ key_context self → used_prefix prefix →
  startswith ((_key_header other prefix +:+ "_") +:+ r) (_key_header self None)
    = false.
Proof.
  intros [Hl Hh] [Hl' Hh'] Hne [-> | ->].
  - rewrite key_plain_shape, _key_header_plain, startswith_app_both,
      startswith_same_length by congruence.
    by apply bool_decide_eq_false.
  - rewrite key_comm_shape, _key_header_plain, startswith_app_both.
    apply hex_not_comm; [done | lia].
Qed.

(** the reserved key of a context does not carry its plain header *)
Lemma comm_key_header (self : Context) (r : string) :
  wf_key_context (key_context self) →
  startswith ((_key_header self (Some "comm") +:+ "_") +:+ r)
             (_key_header self None) = false.
Proof.
  intros [Hl Hh]. rewrite key_comm_shape, _key_header_plain, startswith_app_both.
  apply hex_not_comm; [done | lia].
Qed.

(** an ordinary key carries the header of its context *)
Lemma own_key_header (self : Context) (r : string) :
  startswith ((_key_header self None +:+ "_") +:+ r) (_key_header self None)
    = true.
Proof. rewrite app_assoc'. apply startswith_app. Qed.

Lemma key_length (self : Context) (prefix : option string) (r : string) :
  String.length ((_key_header self prefix +:+ "_") +:+ r) =
    (match prefix with Some p => 15 + String.length p | None => 14 end
     + String.length (key_context self) + String.length r)%nat.
Proof.
  unfold _key_header, _key_base. destruct prefix; rewrite !app_length; simpl; lia.
Qed.

End KeyFacts.

(** ** Generated keys are names *)

Lemma all_chars_impl (p q : ascii → bool) (s : string) :
  (∀ c, p c = true → q c = true) →
  all_chars p s = true → all_chars q s = true.
Proof.
  intros Hpq. induction s as [|c s IH]; simpl; [done|].
  intros [Hc Hs]%andb_true_iff. by rewrite (Hpq c Hc), IH.
Qed.

Lemma hexdigit_name_char (c : ascii) :
  is_hexdigit c = true → is_name_char c = true.
Proof.
  unfold is_hexdigit. intros Hc%bool_decide_eq_true_1.
  repeat (apply elem_of_cons in Hc as [->|Hc]; [reflexivity|]).
  by apply elem_of_nil in Hc.
Qed.

Lemma plain_app (s1 s2 : string) : plain (s1 +:+ s2) = plain s1 && plain s2.
Proof.
  unfold plain. induction s1 as [|c s1 IH]; simpl; [done|].
  by rewrite IH, andb_assoc.
Qed.

Lemma wf_key_context_plain (kc : string) : wf_key_context kc → plain kc = true.
Proof. intros [_ Hh]. by apply (all_chars_impl _ _ _ hexdigit_name_char). Qed.

(** the keys that [_generate_key] makes are names: pasted after [del] or
    in front of [=], such a key is the one name it spells *)
Lemma generated_key_is_name (entropy : nat → N) (self : Context)
    (prefix : option string) (st st' : state) (k : string) :
  wf_key_context (key_context self) → used_prefix prefix →
  _generate_key entropy self prefix st = (Ok k, st') →
  is_name k = true.
Proof.
  intros Hwf Hp. rewrite _generate_key_eq. intros [= <- _].
  set (u := uuid_hex (entropy (drawn st))).
  assert (Hu : plain u = true).
  { apply (all_chars_impl _ _ _ hexdigit_name_char), uuid_hex_hexdigits. }
  pose proof (wf_key_context_plain _ Hwf) as Hkc.
  assert (Hshape : ∃ r, (_key_header self prefix +:+ "_") +:+ u
                        = "__distarray__" +:+ r ∧ plain r = true).
  { destruct Hp as [-> | ->].
    - rewrite key_plain_shape. eexists. split; [done|].
      by rewrite !plain_app, Hkc, Hu.
    - rewrite key_comm_shape. eexists. split; [done|].
      by rewrite !plain_app, Hkc, Hu. }
  destruct Hshape as (r & -> & Hr).
  change (is_name ("__distarray__" +:+ r))
    with (plain ("__distarray__" +:+ r)
          && negb (bool_decide ("__distarray__" +:+ r ∈ reserved))).
  rewrite plain_app, Hr. cbn [andb plain all_chars].
  rewrite bool_decide_eq_false_2; [done|].
  intros Hin.
  assert (Hall : Forall (λ w, startswith w "__di" = false) reserved)
    by (repeat constructor).
  rewrite Forall_forall in Hall. by specialize (Hall _ Hin).
Qed.

(** C2. Two contexts whose identifiers ([key_context]) differ never generate
    the same key, whether the keys are ordinary ones or carry the reserved
    ["comm"] prefix.  The key is computed from the context's own identifier
    and the uuid it draws and from nothing else: the statement holds for
    arbitrary, unrelated states and uuid sources of the two contexts. *)
Theorem generated_keys_never_collide
    (entropy1 entropy2 : nat → N) (c1 c2 : Context) (p1 p2 : option string)
    (st1 st2 st1' st2' : state) (k1 k2 : string) :
  wf_key_context (key_context c1) → wf_key_context (key_context c2) →
  key_context c1 ≠ key_context c2 →
  used_prefix p1 → used_prefix p2 →
  _generate_key entropy1 c1 p1 st1 = (Ok k1, st1') →
  _generate_key entropy2 c2 p2 st2 = (Ok k2, st2') →
  k1 ≠ k2.
Proof.
  intros [Hl1 _] [Hl2 _] Hne Hp1 Hp2 Hk1 Hk2.
  rewrite _generate_key_eq in Hk1, Hk2.
  injection Hk1 as <- _. injection Hk2 as <- _. intros Heq.
  destruct Hp1 as [-> | ->], Hp2 as [-> | ->].
  - rewrite !key_plain_shape in Heq. apply String.app_inj in Heq.
    by destruct (app_inj_length _ _ _ _ (eq_trans Hl1 (eq_sym Hl2)) Heq).
  - apply (f_equal String.length) in Heq.
    rewrite !key_length, !uuid_hex_length in Heq. simpl in Heq. lia.
  - apply (f_equal String.length) in Heq.
    rewrite !key_length, !uuid_hex_length in Heq. simpl in Heq. lia.
  - rewrite !key_comm_shape in Heq. do 2 apply String.app_inj in Heq.
    by destruct (app_inj_length _ _ _ _ (eq_trans Hl1 (eq_sym Hl2)) Heq).
Qed.


(* ===================================================================== *)
(** * Facts about the engines and the purge loops *)
(* ===================================================================== *)

Section MonadFacts.

Lemma bind_unfold {A B} (m : M A) (k : A → M B) (st : state) :
  (m ≫= k) st = match m st with
                | (Ok a, st') => k a st'
                | (Raise e, st') => (Raise e, st')
                end.
Proof. reflexivity. Qed.

Lemma bind_ok {A B} (m : M A) (k : A → M B) (st st' : state) (a : A) :
  m st = (Ok a, st') → (m ≫= k) st = k a st'.
Proof. intros H. by rewrite bind_unfold, H. Qed.

Lemma bind_raise {A B} (m : M A) (k : A → M B) (st st' : state) (e : exn) :
  m st = (Raise e, st') → (m ≫= k) st = (Raise e, st').
Proof. intros H. by rewrite bind_unfold, H. Qed.

End MonadFacts.

Lemma filter_none {A} (f : A → bool) (l : list A) :
  (∀ x, x ∈ l → f x = false) → List.filter f l = [].
Proof.
  induction l as [|x l IH]; intros H; simpl; [done|].
  rewrite H by left. apply IH. intros y Hy. apply H. by right.
Qed.

Section EngineFacts.

Variable Get_rank : engine → list Z → Z.
Variable local_call : engine → string → list string → gmap string value → outcome.

Lemma run_on_spec (c : cmd) (ts : list engine) (w w' : engine → gmap string value)
    (failed : list engine) :
  NoDup ts →
  run_on Get_rank local_call c ts w = (w', failed) →
  (∀ t, t ∉ ts → w' t = w t) ∧
  (∀ t, t ∈ ts → match exec_cmd Get_rank local_call t c (w t) with
                 | Done g => w' t = g
                 | Failed _ => w' t = w t
                 end) ∧
  failed = List.filter (fails Get_rank local_call c w) ts.
Proof.
  intros Hnd. revert w w' failed.
  induction Hnd as [|t ts Ht Hnd IH]; intros w w' failed Hrun; simpl in Hrun.
  - injection Hrun as <- <-. split_and!; [done | | done].
    intros t Ht. by apply elem_of_nil in Ht.
  - assert (Hfilter : ∀ g, List.filter (fails Get_rank local_call c (<[t:=g]> w)) ts
                           = List.filter (fails Get_rank local_call c w) ts).
    { intros g. apply List.filter_ext_in. intros t' Ht'%list_elem_of_In.
      unfold fails. rewrite fn_lookup_insert_ne; [done|]. by intros ->. }
    cbn [List.filter]. unfold fails at 1.
    destruct (exec_cmd Get_rank local_call t c (w t)) as [g|err] eqn:Hex.
    + apply IH in Hrun as (Hout & Hin & Hf). split_and!.
      * intros t' Ht'. apply not_elem_of_cons in Ht' as [Hne Ht'].
        rewrite Hout by done. by rewrite fn_lookup_insert_ne.
      * intros t' [-> | Ht']%elem_of_cons.
        -- rewrite Hex, Hout by done. by rewrite fn_lookup_insert.
        -- assert (t' ≠ t) by (by intros ->).
           specialize (Hin t' Ht'). by rewrite fn_lookup_insert_ne in Hin.
      * by rewrite Hf, Hfilter.
    + destruct (run_on Get_rank local_call c ts w) as [w1 f1] eqn:Hrec.
      injection Hrun as <- <-.
      destruct (IH _ _ _ Hrec) as (Hout & Hin & Hf). split_and!.
      * intros t' Ht'. apply not_elem_of_cons in Ht' as [Hne Ht']. by apply Hout.
      * intros t' [-> | Ht']%elem_of_cons.
        -- by rewrite Hex, Hout.
        -- by apply Hin.
      * by rewrite Hf.
Qed.

(** ** The purge loops *)

Lemma keys_elem_of (g : gmap string value) (k : string) :
  k ∈ keys g ↔ is_Some (g !! k).
Proof.
  unfold keys. rewrite list_elem_of_fmap. split.
  - intros [[k' v] [-> Hin]]. apply elem_of_map_to_list in Hin. by exists v.
  - intros [v Hv]. exists (k, v). split; [done|]. by apply elem_of_map_to_list.
Qed.

Lemma keys_NoDup (g : gmap string value) : NoDup (keys g).
Proof. apply NoDup_fst_map_to_list. Qed.

Lemma keys_nil (g : gmap string value) : keys g = [] ↔ g = ∅.
Proof.
  unfold keys. split.
  - intros H. apply fmap_nil_inv in H. by apply map_to_list_empty_iff.
  - intros ->. by rewrite map_to_list_empty.
Qed.

Lemma purge_loop_spec (cond : string → bool) (ks : list string)
    (g : gmap string value) :
  cond "k" = false → NoDup ks → (∀ k, k ∈ ks → is_Some (g !! k)) →
  ∃ g', purge_loop cond ks g = Done g' ∧
    (∀ n, n ≠ "k" →
       g' !! n = if bool_decide (n ∈ ks) && cond n then None else g !! n) ∧
    g' !! "k" = match last ks with Some k => Some (VStr k) | None => g !! "k" end.
Proof.
  intros Hk Hnd. revert g.
  induction Hnd as [|k ks Hk' Hnd IH]; intros g Hbound; cbn [purge_loop].
  - exists g. split_and!; [done | | done]. intros n _.
    by rewrite (bool_decide_eq_false_2 (n ∈ [])) by apply not_elem_of_nil.
  - assert (Hlast : ∀ o : option value,
              match last ks with Some k0 => Some (VStr k0) | None => Some (VStr k) end
              = match last (k :: ks) with Some k0 => Some (VStr k0) | None => o end).
    { intros o. rewrite last_cons. by destruct (last ks). }
    destruct (cond k) eqn:Hc.
    + assert (k ≠ "k") as Hkk by (intros ->; congruence).
      rewrite lookup_insert_ne by done.
      destruct (Hbound k) as [v Hv]; [left|]. rewrite Hv.
      destruct (IH (delete k (<["k":=VStr k]> g))) as (g' & Hrun & Hother & Hloop).
      { intros k0 Hk0. assert (k0 ≠ k) by (by intros ->).
        rewrite lookup_delete_ne by done. destruct (decide (k0 = "k")) as [->|].
        - rewrite lookup_insert_eq. by eexists.
        - rewrite lookup_insert_ne by done. apply Hbound. by right. }
      exists g'. split_and!; [done | |].
      * intros n Hn. rewrite Hother by done.
        destruct (decide (n = k)) as [->|Hnk].
        -- rewrite lookup_delete_eq, (bool_decide_eq_true_2 (k ∈ k :: ks)) by left.
           rewrite Hc. simpl. by destruct (_ && _).
        -- rewrite lookup_delete_ne, lookup_insert_ne by done.
           assert (bool_decide (n ∈ k :: ks) = bool_decide (n ∈ ks)) as ->; [|done].
           apply bool_decide_ext. rewrite elem_of_cons. intuition congruence.
      * rewrite Hloop, lookup_delete_ne, lookup_insert_eq by done. apply Hlast.
    + destruct (IH (<["k":=VStr k]> g)) as (g' & Hrun & Hother & Hloop).
      { intros k0 Hk0. destruct (decide (k0 = "k")) as [->|].
        - rewrite lookup_insert_eq. by eexists.
        - rewrite lookup_insert_ne by done. apply Hbound. by right. }
      exists g'. split_and!; [done | |].
      * intros n Hn. rewrite Hother, lookup_insert_ne by done.
        destruct (decide (n = k)) as [->|Hnk].
        -- rewrite Hc, !andb_false_r. done.
        -- assert (bool_decide (n ∈ k :: ks) = bool_decide (n ∈ ks)) as ->; [|done].
           apply bool_decide_ext. rewrite elem_of_cons. intuition congruence.
      * rewrite Hloop, lookup_insert_eq. apply Hlast.
Qed.

(** what a purge does to one namespace: the names that satisfy the loop's
    condition are unbound, every other name except the loop variable keeps
    its value, and the loop variable is bound unless the namespace was empty *)
Lemma purge_namespace (cond : string → bool) (g : gmap string value) :
  cond "k" = false →
  ∃ g', purge_loop cond (keys g) g = Done g' ∧
    (∀ n, n ≠ "k" → g' !! n = if cond n then None else g !! n) ∧
    (is_Some (g' !! "k") ↔ g ≠ ∅).
Proof.
  intros Hk.
  destruct (purge_loop_spec cond (keys g) g Hk (keys_NoDup g)) as (g' & Hrun & Hother & Hloop).
  { intros k. apply keys_elem_of. }
  exists g'. split_and!; [done | |].
  - intros n Hn. rewrite Hother by done. case_bool_decide as Hin; simpl; [done|].
    rewrite keys_elem_of in Hin. apply eq_None_not_Some in Hin. rewrite Hin.
    by destruct (cond n).
  - rewrite Hloop. destruct (last (keys g)) as [k|] eqn:Hl.
    + split; [|by eexists]. intros _ ->. unfold keys in Hl.
      by rewrite map_to_list_empty in Hl.
    + apply last_None in Hl. apply keys_nil in Hl as ->.
      rewrite lookup_empty. split; [by intros [? ?] | done].
Qed.

End EngineFacts.

Section PurgeFacts.

Variable Get_rank : engine → list Z → Z.
Variable local_call : engine → string → list string → gmap string value → outcome.

Lemma view_execute_eq (c : cmd) (ts : list engine) (st : state)
    (w' : engine → gmap string value) :
  run_on Get_rank local_call c ts (world st) = (w', []) →
  view_execute Get_rank local_call c ts true st =
    (Ok (), mkState w' (calls st ++ [Execute c ts]) (drawn st)).
Proof. intros H. unfold view_execute. by rewrite H. Qed.

(** a purge command on the engines [ts] *)
Lemma purge_world (c : cmd) (cond : string → bool) (ts : list engine)
    (w : engine → gmap string value) :
  (∀ e g, exec_cmd Get_rank local_call e c g = purge_loop cond (keys g) g) →
  cond "k" = false → NoDup ts →
  ∃ w', run_on Get_rank local_call c ts w = (w', []) ∧
    (∀ t, t ∉ ts → w' t = w t) ∧
    (∀ t n, t ∈ ts → n ≠ "k" →
       w' t !! n = if cond n then None else w t !! n) ∧
    (∀ t, t ∈ ts → is_Some (w' t !! "k") ↔ w t ≠ ∅).
Proof.
  intros Hc Hk Hnd.
  destruct (run_on Get_rank local_call c ts w) as [w' failed] eqn:Hrun.
  destruct (run_on_spec _ _ _ _ _ _ _ Hnd Hrun) as (Hout & Hin & Hf).
  assert (failed = []) as ->.
  { rewrite Hf. apply filter_none. intros t _. unfold fails. rewrite Hc.
    by destruct (purge_namespace cond (w t) Hk) as (g' & -> & _). }
  exists w'. split_and!; [done | done | |].
  - intros t n Ht Hn. specialize (Hin t Ht). rewrite Hc in Hin.
    destruct (purge_namespace cond (w t) Hk) as (g' & Hg & Hother & _).
    rewrite Hg in Hin. rewrite Hin. by apply Hother.
  - intros t Ht. specialize (Hin t Ht). rewrite Hc in Hin.
    destruct (purge_namespace cond (w t) Hk) as (g' & Hg & _ & Hloop).
    rewrite Hg in Hin. by rewrite Hin.
Qed.

End PurgeFacts.


(* ===================================================================== *)
(** * Purging *)
(* ===================================================================== *)

Section PurgeKeys.

Variable Get_rank : engine → list Z → Z.
Variable local_call : engine → string → list string → gmap string value → outcome.

Lemma loop_variable_plain (self : Context) (prefix : option string) :
  startswith "k" (_key_header self prefix) = false.
Proof. by destruct prefix. Qed.

Lemma generated_key_not_loop_variable (entropy : nat → N) (self : Context)
    (prefix : option string) (s s' : state) (k : string) :
  _generate_key entropy self prefix s = (Ok k, s') → k ≠ "k".
Proof.
  rewrite _generate_key_eq. intros [= <- _] Heq.
  apply (f_equal String.length) in Heq. rewrite key_length in Heq.
  simpl in Heq. destruct prefix; lia.
Qed.

(** one purge of the context's own keys *)
Lemma purge_keys_own (self : Context) (st : state) :
  NoDup (targets self) →
  ∃ st',
    purge_keys Get_rank local_call self None false st = (Ok (), st') ∧
    calls st' = calls st ++ [Execute (CPurge (_key_header self None)) (targets self)] ∧
    (∀ t, t ∉ targets self → world st' t = world st t) ∧
    (∀ t n, t ∈ targets self → n ≠ "k" →
       world st' t !! n =
         if startswith n (_key_header self None) then None
         else world st t !! n) ∧
    (∀ t, t ∈ targets self → is_Some (world st' t !! "k") ↔ world st t ≠ ∅).
Proof.
  intros Hnd.
  destruct (purge_world Get_rank local_call (CPurge (_key_header self None))
              (λ k, startswith k (_key_header self None)) (targets self) (world st))
    as (w' & Hrun & Hout & Hin & Hloop); [done | apply loop_variable_plain | done |].
  eexists. split; [by apply view_execute_eq|]. by simpl.
Qed.

End PurgeKeys.

(** C3. [purge_keys()] (one context, [all_contexts=False]) unbinds, on the
    context's targets, exactly the names that start with the context's own
    header: every ordinary key the context generated is unbound, its reserved
    ["comm"] key and every key of a context with another identifier keep
    their binding, and the engines outside the targets are not touched.
    A second purge right after the first raises nothing and unbinds nothing.
    (The loop variable [k] of the remote code is itself a global of the
    engine, which is why it is set apart.) *)
Theorem purge_keys_own_context
    (Get_rank : engine → list Z → Z)
    (local_call : engine → string → list string → gmap string value → outcome)
    (self : Context) (st : state) :
  wf_key_context (key_context self) → NoDup (targets self) →
  ∃ st',
    purge_keys Get_rank local_call self None false st = (Ok (), st') ∧
    (∀ t n, t ∈ targets self → n ≠ "k" →
       world st' t !! n =
         if startswith n (_key_header self None) then None
         else world st t !! n) ∧
    (∀ t, t ∉ targets self → world st' t = world st t) ∧
    (∀ entropy s s' k t,
       _generate_key entropy self None s = (Ok k, s') →
       t ∈ targets self → world st' t !! k = None) ∧
    (∀ entropy s s' k t,
       _generate_key entropy self (Some "comm") s = (Ok k, s') →
       world st' t !! k = world st t !! k) ∧
    (∀ other entropy prefix s s' k t,
       wf_key_context (key_context other) →
       key_context other ≠ key_context self → used_prefix prefix →
       _generate_key entropy other prefix s = (Ok k, s') →
       world st' t !! k = world st t !! k) ∧
    ∃ st'',
      purge_keys Get_rank local_call self None false st' = (Ok (), st'') ∧
      ∀ t, dom (world st'' t) = dom (world st' t) ∧
           ∀ n, n ≠ "k" → world st'' t !! n = world st' t !! n.
Proof.
  intros Hwf Hnd.
  destruct (purge_keys_own Get_rank local_call self st Hnd)
    as (st' & Hrun & _ & Hout & Hin & Hloop).
  assert (Hkeep : ∀ entropy other prefix s s' k t,
            _generate_key entropy other prefix s = (Ok k, s') →
            startswith k (_key_header self None) = false →
            world st' t !! k = world st t !! k).
  { intros entropy other prefix s s' k t Hgen Hs.
    destruct (decide (t ∈ targets self)) as [Ht|Ht]; [|by rewrite Hout].
    rewrite Hin, Hs; [done | done |].
    by eapply generated_key_not_loop_variable. }
  exists st'. split_and!; [done | done | done | | | |].
  - intros entropy s s' k t Hgen Ht. rewrite Hin; [|done|].
    + rewrite _generate_key_eq in Hgen. injection Hgen as <- _.
      by rewrite own_key_header.
    + by eapply generated_key_not_loop_variable.
  - intros entropy s s' k t Hgen. eapply Hkeep; [done|].
    rewrite _generate_key_eq in Hgen. injection Hgen as <- _.
    by apply comm_key_header.
  - intros other entropy prefix s s' k t Hwf' Hne Hp Hgen. eapply Hkeep; [done|].
    rewrite _generate_key_eq in Hgen. injection Hgen as <- _.
    by apply foreign_header.
  - destruct (purge_keys_own Get_rank local_call self st' Hnd)
      as (st'' & Hrun' & _ & Hout' & Hin' & Hloop').
    exists st''. split; [done|]. intros t.
    destruct (decide (t ∈ targets self)) as [Ht|Ht]; [|by rewrite Hout'].
    assert (Hsame : ∀ n, n ≠ "k" → world st'' t !! n = world st' t !! n).
    { intros n Hn. rewrite Hin' by done.
      destruct (startswith n (_key_header self None)) eqn:Hs; [|done].
      by rewrite Hin, Hs. }
    split; [|done]. apply set_eq. intros n. rewrite !elem_of_dom.
    destruct (decide (n = "k")) as [->|Hn]; [|by rewrite Hsame].
    rewrite Hloop', Hloop by done. split.
    + intros Hne Hempty. apply Hne. apply map_eq. intros n.
      rewrite lookup_empty. destruct (decide (n = "k")) as [->|Hn].
      * apply eq_None_not_Some. rewrite Hloop by done. tauto.
      * rewrite Hin, Hempty, lookup_empty by done. by destruct (startswith _ _).
    + intros Hne Hempty. assert (is_Some (world st' t !! "k")) as [v Hv].
      { by apply Hloop. }
      by rewrite Hempty, lookup_empty in Hv.
Qed.


(** the hypotheses of [purge_keys_own_context] at the first context of the
    concrete pool *)
Lemma purge_keys_own_context_witness :
  wf_key_context (key_context Demo.c1) ∧ NoDup (targets Demo.c1) ∧
  ∃ st',
    purge_keys Demo.group_rank Demo.no_local Demo.c1 None false Demo.st1
      = (Ok (), st') ∧
    ∀ t, t ∉ targets Demo.c1 → world st' t = world Demo.st1 t.
Proof.
  assert (H1 : wf_key_context (key_context Demo.c1))
    by (vm_compute; split; reflexivity).
  assert (H2 : NoDup (targets Demo.c1)).
  { apply (bool_decide_unpack _). vm_compute. exact I. }
  split; [exact H1 | split; [exact H2|]].
  destruct (purge_keys_own_context Demo.group_rank Demo.no_local
              Demo.c1 Demo.st1 H1 H2) as (st' & Hrun & _ & Hout & _).
  exists st'. split; [exact Hrun | exact Hout].
Defined.

Section SweepFacts.
Local Arguments String.append !_ _ /.

(** a hexadecimal string does not start like the reserved tag *)
Lemma comm_not_hex (s x y : string) :
  all_chars is_hexdigit s = true → (2 ≤ String.length s)%nat →
  startswith (s +:+ x) ("comm_" +:+ y) = false.
Proof.
  intros Hs Hl. destruct s as [|c [|d s]]; simpl in *; try lia.
  repeat case_decide; try done. subst. done.
Qed.

Lemma key_base_prefix (self : Context) (prefix : option string) (r : string) :
  startswith ((_key_header self prefix +:+ "_") +:+ r) (_key_base None) = true.
Proof.
  unfold _key_header, _key_base. destruct prefix; rewrite !app_assoc'; apply startswith_app.
Qed.

(** which generated keys carry the reserved header of [self] *)
Lemma own_comm_header (self : Context) (r : string) :
  startswith ((_key_header self (Some "comm") +:+ "_") +:+ r)
             (_key_header self (Some "comm")) = true.
Proof. rewrite app_assoc'. apply startswith_app. Qed.

Lemma plain_key_comm_header (self other : Context) (r : string) :
  wf_key_context (key_context other) →
  startswith ((_key_header other None +:+ "_") +:+ r)
             (_key_header self (Some "comm")) = false.
Proof.
  intros [Hl Hh].
  rewrite key_plain_shape, _key_header_comm.
  change "__distarray__comm_" with ("__distarray__" +:+ "comm_").
  rewrite app_assoc', startswith_app_both. apply comm_not_hex; [done | lia].
Qed.

Lemma foreign_comm_header (self other : Context) (r : string) :
  wf_key_context (key_context self) → wf_key_context (key_context other) →
  key_context other ≠ key_context self →
  startswith ((_key_header other (Some "comm") +:+ "_") +:+ r)
             (_key_header self (Some "comm")) = false.
Proof.
  intros [Hl Hh] [Hl' Hh'] Hne.
  rewrite key_comm_shape, _key_header_comm.
  change "__distarray__comm_" with ("__distarray__" +:+ "comm_").
  rewrite !app_assoc', !startswith_app_both.
  rewrite startswith_same_length by congruence. by apply bool_decide_eq_false.
Qed.

End SweepFacts.

(** C4, as the code has it.  [purge_keys(all_contexts=True)] unbinds, on the
    targets of the purging context, every name that starts with the shared
    base tag ["__distarray_"] except the names that start with the purging
    context's own reserved header.  So the purging context's own reserved
    key keeps its binding, while every ordinary key of any context and the
    reserved key of every other context are unbound there; the engines
    outside the targets are not touched. *)
Theorem purge_keys_all_contexts
    (Get_rank : engine → list Z → Z)
    (local_call : engine → string → list string → gmap string value → outcome)
    (self : Context) (st : state) :
  wf_key_context (key_context self) → NoDup (targets self) →
  ∃ st',
    purge_keys Get_rank local_call self None true st = (Ok (), st') ∧
    (∀ t n, t ∈ targets self → n ≠ "k" →
       world st' t !! n =
         if startswith n "__distarray_"
            && negb (startswith n (_key_header self (Some "comm")))
         then None else world st t !! n) ∧
    (∀ t, t ∉ targets self → world st' t = world st t) ∧
    (∀ entropy s s' k t,
       _generate_key entropy self (Some "comm") s = (Ok k, s') →
       world st' t !! k = world st t !! k) ∧
    (∀ other entropy s s' k t,
       wf_key_context (key_context other) →
       _generate_key entropy other None s = (Ok k, s') →
       t ∈ targets self → world st' t !! k = None) ∧
    (∀ other entropy s s' k t,
       wf_key_context (key_context other) →
       key_context other ≠ key_context self →
       _generate_key entropy other (Some "comm") s = (Ok k, s') →
       t ∈ targets self → world st' t !! k = None).
Proof.
  intros Hwf Hnd.
  destruct (purge_world Get_rank local_call
              (CPurgeAll (_key_base None) (_key_header self (Some "comm")))
              (λ k, startswith k (_key_base None)
                    && negb (startswith k (_key_header self (Some "comm"))))
              (targets self) (world st))
    as (w' & Hrun & Hout & Hin & Hloop); [done | done | done |].
  eexists. split; [by apply view_execute_eq|]. simpl.
  split_and!; [done | done | | |].
  - intros entropy s s' k t Hgen.
    destruct (decide (t ∈ targets self)) as [Ht|Ht]; [|by rewrite Hout].
    rewrite Hin; [|done|by eapply generated_key_not_loop_variable].
    rewrite _generate_key_eq in Hgen. injection Hgen as <- _.
    by rewrite own_comm_header, andb_false_r.
  - intros other entropy s s' k t Hwf' Hgen Ht.
    rewrite Hin; [|done|by eapply generated_key_not_loop_variable].
    rewrite _generate_key_eq in Hgen. injection Hgen as <- _.
    by rewrite key_base_prefix, plain_key_comm_header.
  - intros other entropy s s' k t Hwf' Hne Hgen Ht.
    rewrite Hin; [|done|by eapply generated_key_not_loop_variable].
    rewrite _generate_key_eq in Hgen. injection Hgen as <- _.
    by rewrite key_base_prefix, foreign_comm_header.
Qed.

(** the hypotheses of [purge_keys_all_contexts] at the first context of the
    concrete pool, after the second context was created *)
Lemma purge_keys_all_contexts_witness :
  wf_key_context (key_context Demo.c1) ∧ NoDup (targets Demo.c1) ∧
  ∃ st',
    purge_keys Demo.group_rank Demo.no_local Demo.c1 None true Demo.st2
      = (Ok (), st') ∧
    ∀ t, t ∉ targets Demo.c1 → world st' t = world Demo.st2 t.
Proof.
  assert (H1 : wf_key_context (key_context Demo.c1)) by (vm_compute; split; reflexivity).
  assert (H2 : NoDup (targets Demo.c1)).
  { apply (bool_decide_unpack _). vm_compute. exact I. }
  split; [exact H1 | split; [exact H2|]].
  destruct (purge_keys_all_contexts Demo.group_rank Demo.no_local
              Demo.c1 Demo.st2 H1 H2) as (st' & Hrun & _ & Hout & _).
  exists st'. split; [exact Hrun | exact Hout].
Defined.

(** C4 as it is worded fails: the second context of the concrete pool is
    created on the pool of the first, its reserved key is bound on engine 0,
    and the first context's [purge_keys(all_contexts=True)] unbinds it
    there. *)
Lemma purge_all_contexts_removes_foreign_comm_key :
  ∃ k c,
    (Demo.create None None Demo.st1).1 = Ok Demo.c2 ∧
    _comm_key Demo.c2 = Some (Some k) ∧
    world Demo.st2 0%nat !! k = Some (VComm c) ∧
    (purge_keys Demo.group_rank Demo.no_local Demo.c1 None true Demo.st2).1
      = Ok () ∧
    world (purge_keys Demo.group_rank Demo.no_local Demo.c1 None true Demo.st2).2
          0%nat !! k = None.
Proof.
  exists "__distarray__comm_000000000000fac0_000000000000fb000000000000000000",
         [0%Z; 1%Z; 2%Z].
  vm_compute. repeat split; reflexivity.
Qed.

(* ===================================================================== *)
(** * Early validation *)
(* ===================================================================== *)

Lemma ret_bind {A B} (a : A) (k : A → M B) (st : state) :
  (mret a ≫= k) st = k a st.
Proof. reflexivity. Qed.

Section Validation.

Variable Get_rank : engine → list Z → Z.
Variable local_call : engine → string → list string → gmap string value → outcome.
Variable entropy : nat → N.
Variable private_rank : engine → Z.
Variable private_size : engine → Z.
Variable default_client : Client.

Lemma bind_inv {A B} (m : M A) (k : A → M B) (st st' : state) (b : B) :
  (m ≫= k) st = (Ok b, st') →
  ∃ a st1, m st = (Ok a, st1) ∧ k a st1 = (Ok b, st').
Proof.
  rewrite bind_unfold. destruct (m st) as [[a|e] st1]; [|done]. eauto.
Qed.

(** the message of the error for an unregistered engine id *)
Lemma not_registered_inj (t t' : engine) :
  ("Engine with id " +:+ pretty t) +:+ " not registered"
    = ("Engine with id " +:+ pretty t') +:+ " not registered" →
  t = t'.
Proof.
  intros H. rewrite !app_assoc' in H. apply String.app_inj in H.
  assert (Hl : String.length (pretty t) = String.length (pretty t')).
  { apply (f_equal String.length) in H. rewrite !app_length in H. lia. }
  destruct (app_inj_length _ _ _ _ Hl H) as [Hp _].
  by apply (inj pretty) in Hp.
Qed.

Lemma select_targets_all (all_targets ts acc : list engine) (st : state) :
  (∀ t, t ∈ ts → t ∈ all_targets) →
  select_targets all_targets ts acc st = (Ok (acc ++ ts), st).
Proof.
  revert acc. induction ts as [|t ts IH]; intros acc Hin; simpl.
  - by rewrite app_nil_r.
  - rewrite bool_decide_eq_true_2 by (apply Hin; left).
    rewrite IH by (intros t' Ht'; apply Hin; by right).
    by rewrite <- app_assoc.
Qed.

Lemma select_targets_unknown (all_targets ts acc : list engine) (st : state) :
  (∃ t, t ∈ ts ∧ t ∉ all_targets) →
  ∃ pre t post,
    ts = pre ++ (t :: post) ∧ (∀ t', t' ∈ pre → t' ∈ all_targets) ∧
    (t ∉ all_targets) ∧
    select_targets all_targets ts acc st =
      (Raise (ValueError (("Engine with id " +:+ pretty t)
                            +:+ " not registered")), st).
Proof.
  revert acc. induction ts as [|t ts IH]; intros acc (t0 & Ht0 & Hout).
  - by apply elem_of_nil in Ht0.
  - simpl. case_bool_decide as Ht.
    + destruct (IH (acc ++ [t])) as (pre & t1 & post & -> & Hpre & Ht1 & Hrun).
      { exists t0. split; [|done]. apply elem_of_cons in Ht0 as [->|]; done. }
      exists (t :: pre), t1, post. split_and!; [done | | done | done].
      intros t' [->|]%elem_of_cons; [done | by apply Hpre].
    + exists [], t, ts. split_and!; [done | | done | done].
      intros t' Ht'. by apply elem_of_nil in Ht'.
Qed.

End Validation.

(** C7. When the requested target list contains an identifier that is not
    an engine of the pool, [Context(client, targets)] raises the
    [ValueError] "Engine with id <id> not registered", whose message carries
    the first such identifier of the list (and no other: the message
    determines the identifier), and the state is the one before the call:
    no remote call has been logged and no engine namespace has changed. *)
Theorem unknown_target_rejected
    (Get_rank : engine → list Z → Z)
    (local_call : engine → string → list string → gmap string value → outcome)
    (entropy : nat → N) (private_rank private_size : engine → Z)
    (default_client : Client)
    (client : option Client) (requested : list engine) (st : state) :
  (∃ t, t ∈ requested ∧ t ∉ ids (default default_client client)) →
  ∃ pre t post,
    requested = pre ++ (t :: post) ∧
    (∀ t', t' ∈ pre → t' ∈ ids (default default_client client)) ∧
    (t ∉ ids (default default_client client)) ∧
    __init__ Get_rank local_call entropy private_rank private_size
             default_client client (Some requested) st
      = (Raise (ValueError (("Engine with id " +:+ pretty t)
                              +:+ " not registered")), st) ∧
    ∀ t', ("Engine with id " +:+ pretty t') +:+ " not registered"
            = ("Engine with id " +:+ pretty t) +:+ " not registered" →
          t' = t.
Proof.
  intros Hbad.
  destruct (select_targets_unknown (ids (default default_client client))
              requested [] st Hbad) as (pre & t & post & Hreq & Hpre & Ht & Hrun).
  exists pre, t, post. split_and!; [done | done | done | |].
  - unfold __init__. by rewrite (bind_raise _ _ _ _ _ Hrun).
  - intros t'. apply not_registered_inj.
Qed.

(** the hypothesis of [unknown_target_rejected] at the concrete pool, asked
    for the engines 2 and 5 *)
Lemma unknown_target_rejected_witness :
  (∃ t, t ∈ [2; 5]%nat ∧ t ∉ ids Demo.pool) ∧
  ∃ t, (t ∉ ids Demo.pool) ∧
    Demo.create None (Some [2; 5]%nat) Demo.st0
      = (Raise (ValueError (("Engine with id " +:+ pretty t)
                              +:+ " not registered")), Demo.st0).
Proof.
  assert (H : ∃ t, t ∈ [2; 5]%nat ∧ t ∉ ids Demo.pool).
  { exists 5%nat. split; apply (bool_decide_unpack _); vm_compute; exact I. }
  split; [exact H|].
  destruct (unknown_target_rejected Demo.group_rank Demo.no_local Demo.entropy
              Demo.mpi_rank Demo.mpi_size Demo.pool None [2; 5]%nat Demo.st0 H)
    as (pre & t & post & _ & _ & Ht & Hrun & _).
  exists t. split; [exact Ht | exact Hrun].
Defined.

(** C8, as the code has it.  A [save], [load] or [load_npy] call whose
    list of names, or of dim_data, has a length other than
    [len(self.targets)] raises the [TypeError] of the length check, and no
    remote call has been issued when it does: the log of remote calls and
    every engine namespace are unchanged ([load] has drawn the uuid of the
    array key, nothing more).  [load_hdf5] does the same when h5py can be
    imported in the controlling process; its import check comes first. *)
Theorem descriptor_count_mismatch
    (Get_rank : engine → list Z → Z)
    (local_call : engine → string → list string → gmap string value → outcome)
    (entropy : nat → N) (h5py_available : bool)
    (self : Context) (st : state) (names : list string) (dims : list nat)
    (da : DistArray) (filename key' : string) :
  is_Some (_comm_key self) → h5py_available = true →
  length names ≠ length (targets self) →
  length dims ≠ length (targets self) →
  save Get_rank local_call entropy self (NameList names) da st
    = (Raise (TypeError "`name` must be the same length as `self.targets`."),
       st) ∧
  (∃ st',
     load Get_rank local_call entropy self (NameList names) st
       = (Raise (TypeError "`name` must be the same length as `self.targets`."),
          st') ∧
     calls st' = calls st ∧ world st' = world st) ∧
  load_npy Get_rank local_call entropy self filename dims st
    = (Raise (TypeError
         "`dim_data_per_process` must contain a dim_data for every process."),
       st) ∧
  load_hdf5 Get_rank local_call entropy h5py_available self filename dims key' st
    = (Raise (TypeError
         "`dim_data_per_process` must contain a dim_data for every process."),
       st).
Proof.
  intros [ck Hck] -> Hnames Hdims. split_and!.
  - unfold save. by rewrite bool_decide_eq_true_2.
  - eexists. split.
    + unfold load. rewrite bind_unfold, _generate_key_eq.
      rewrite bind_unfold. unfold get_comm_key. rewrite Hck. cbn [mret M_ret].
      by rewrite bool_decide_eq_true_2.
    + done.
  - unfold load_npy. by rewrite bool_decide_eq_true_2.
  - unfold load_hdf5, import_h5py. rewrite bind_unfold. cbn [mret M_ret].
    by rewrite bool_decide_eq_true_2.
Qed.

(** the hypotheses of [descriptor_count_mismatch] at the first context of
    the concrete pool, which has two targets, with three names *)
Lemma descriptor_count_mismatch_witness :
  is_Some (_comm_key Demo.c1) ∧
  length ["a"; "b"; "c"] ≠ length (targets Demo.c1) ∧
  length [1; 2; 3]%nat ≠ length (targets Demo.c1) ∧
  save Demo.group_rank Demo.no_local Demo.entropy Demo.c1
       (NameList ["a"; "b"; "c"]) (mkDistArray "x" Demo.c1) Demo.st1
    = (Raise (TypeError "`name` must be the same length as `self.targets`."),
       Demo.st1).
Proof.
  assert (H1 : is_Some (_comm_key Demo.c1)) by (vm_compute; eexists; reflexivity).
  assert (H2 : length ["a"; "b"; "c"] ≠ length (targets Demo.c1)).
  { vm_compute. lia. }
  assert (H3 : length [1; 2; 3]%nat ≠ length (targets Demo.c1)).
  { vm_compute. lia. }
  split; [exact H1 | split; [exact H2 | split; [exact H3|]]].
  exact (proj1 (descriptor_count_mismatch Demo.group_rank Demo.no_local
                  Demo.entropy true Demo.c1 Demo.st1 ["a"; "b"; "c"]
                  [1; 2; 3]%nat (mkDistArray "x" Demo.c1) "f" "buffer"
                  H1 eq_refl H2 H3)).
Defined.

(** C8 as it is worded fails for [load_hdf5]: without h5py in the
    controlling process, a call with three dim_data on the two targets of
    the first context of the concrete pool raises [ImportError], not the
    error of the length check. *)
Lemma load_hdf5_count_mismatch_without_h5py :
  length [1; 2; 3]%nat ≠ length (targets Demo.c1) ∧
  is_Some (_comm_key Demo.c1) ∧
  load_hdf5 Demo.group_rank Demo.no_local Demo.entropy false Demo.c1
            "volume.hdf5" [1; 2; 3]%nat "buffer" Demo.st1
    = (Raise (ImportError
                "An MPI-enabled h5py must be available to use load_hdf5."),
       Demo.st1).
Proof.
  split; [vm_compute; lia|]. split; [vm_compute; eexists; reflexivity|].
  reflexivity.
Qed.

Module FunctionsFacts.
Import Functions.

Section ProxyFacts.

Variable Get_rank : engine → list Z → Z.
Variable local_call : engine → string → list string → gmap string value → outcome.
Variable entropy : nat → N.
Variable is_compatible : Distribution → Distribution → bool.
Variable repr_contexts : list ContextObj → string.
Variable from_localarrays : string → Distribution → M DistArray.

Lemma context_eqb_refl (c : ContextObj) : context_eqb c c = true.
Proof. unfold context_eqb. by apply bool_decide_eq_true_2. Qed.

Lemma determine_context_two (da db : DistArray) (st : state) :
  determine_context repr_contexts [ADist da; ADist db] st =
    if context_eqb (context da) (context db)
    then (Ok (context da), st)
    else (Raise (ContextError
            (("Arguments must use the same Context (given arguments of type "
              +:+ repr_contexts [context da; context db]) +:+ ")")), st).
Proof.
  unfold determine_context, count. simpl.
  rewrite context_eqb_refl. by destruct (context_eqb _ _).
Qed.

End ProxyFacts.

End FunctionsFacts.

(** C9. A wrapped operation checks its arguments before anything else.
    With no [DistArray] among the arguments, the unary and the binary
    wrappers raise [TypeError]; with two [DistArray]s of different
    [Context] objects the binary wrapper raises [ContextError]; with two
    [DistArray]s of one context whose distributions are not compatible it
    raises [ValueError].  In each case the state is the one before the
    call: no uuid has been drawn for a new key and no remote call issued. *)
Theorem wrapped_operation_rejects_arguments
    (Get_rank : engine → list Z → Z)
    (local_call : engine → string → list string → gmap string value → outcome)
    (entropy : nat → N)
    (is_compatible : Functions.Distribution → Functions.Distribution → bool)
    (repr_contexts : list Functions.ContextObj → string)
    (from_localarrays : string → Functions.Distribution → M Functions.DistArray)
    (name : string) (casting : option string) (st : state) :
  (∀ a, Functions.is_dap a = false →
     Functions.unary_proxy Get_rank local_call entropy repr_contexts
       from_localarrays name a casting st
     = (Raise (TypeError "Function must take DistArray or Context objects."),
        st)) ∧
  (∀ a b, Functions.is_dap a = false → Functions.is_dap b = false →
     Functions.binary_proxy Get_rank local_call entropy is_compatible
       repr_contexts from_localarrays name a b casting st
     = (Raise (TypeError "Function must take DistArray or Context objects."),
        st)) ∧
  (∀ da db,
     Functions.context_eqb (Functions.context da) (Functions.context db)
       = false →
     ∃ msg,
       Functions.binary_proxy Get_rank local_call entropy is_compatible
         repr_contexts from_localarrays name
         (Functions.ADist da) (Functions.ADist db) casting st
       = (Raise (ContextError msg), st)) ∧
  (∀ da db,
     Functions.context_eqb (Functions.context da) (Functions.context db)
       = true →
     is_compatible (Functions.distribution da) (Functions.distribution db)
       = false →
     Functions.binary_proxy Get_rank local_call entropy is_compatible
       repr_contexts from_localarrays name
       (Functions.ADist da) (Functions.ADist db) casting st
     = (Raise (ValueError "distributions not compatible."), st)).
Proof.
  split_and!.
  - intros a Ha. unfold Functions.unary_proxy, Functions.determine_context.
    by destruct a.
  - intros a b Ha Hb. unfold Functions.binary_proxy, Functions.determine_context.
    by destruct a, b.
  - intros da db Hne. eexists. unfold Functions.binary_proxy.
    rewrite bind_unfold, FunctionsFacts.determine_context_two, Hne. done.
  - intros da db Heq Hinc. unfold Functions.binary_proxy.
    rewrite bind_unfold, FunctionsFacts.determine_context_two, Heq.
    rewrite bind_unfold. cbn [Functions.is_dap andb Functions.get_distribution].
    by rewrite !ret_bind, Hinc.
Qed.

(** [wrapped_operation_rejects_arguments] at two arrays of two contexts *)
Lemma wrapped_operation_rejects_arguments_witness :
  let d := Functions.mkDistribution 0 [0; 1]%nat in
  let da := Functions.mkDistArray "a" (Functions.mkContextObj 1 Demo.c1) [0; 1]%nat d in
  let db := Functions.mkDistArray "b" (Functions.mkContextObj 2 Demo.c2) [0; 1]%nat d in
  Functions.context_eqb (Functions.context da) (Functions.context db) = false ∧
  ∃ msg,
    Functions.binary_proxy Demo.group_rank Demo.no_local Demo.entropy
      (λ _ _, true) (λ _, "") (λ _ _, raise KeyError) "add"
      (Functions.ADist da) (Functions.ADist db) None Demo.st2
    = (Raise (ContextError msg), Demo.st2).
Proof.
  intros d da db. split; [reflexivity|].
  exact (proj1 (proj2 (proj2 (wrapped_operation_rejects_arguments
           Demo.group_rank Demo.no_local Demo.entropy (λ _ _, true) (λ _, "")
           (λ _ _, raise KeyError) "add" None Demo.st2))) da db eq_refl).
Defined.

(* ===================================================================== *)
(** * Construction: the communicator and the rank mapping *)
(* ===================================================================== *)

Lemma filter_all {A} (f : A → bool) (l : list A) :
  (∀ x, x ∈ l → f x = true) → List.filter f l = l.
Proof.
  induction l as [|x l IH]; intros H; simpl; [done|].
  rewrite H by left. f_equal. apply IH. intros y Hy. apply H. by right.
Qed.

Lemma for_each_ok {A B} (fn : A → M B) (h : A → B) (l : list A) (st : state) :
  (∀ x, x ∈ l → fn x st = (Ok (h x), st)) →
  for_each fn l st = (Ok (h <$> l), st).
Proof.
  induction l as [|x l IH]; intros H; simpl; [done|].
  rewrite bind_unfold, H by left. rewrite bind_unfold, IH; [done|].
  intros y Hy. apply H. by right.
Qed.

Lemma get_dict_ok {A} (ts : list engine) (results : list A) (st : state) :
  ts ≠ [] → NoDup ts →
  get_dict ts results st = (Ok (list_to_map (zip ts results)), st).
Proof.
  intros Hne Hnd. unfold get_dict. destruct ts; [done|].
  by rewrite bool_decide_eq_true_2.
Qed.

Lemma lookup_zip_fmap {A} (f : engine → A) (ts : list engine) (t : engine) :
  (list_to_map (zip ts (f <$> ts)) : gmap engine A) !! t =
    if bool_decide (t ∈ ts) then Some (f t) else None.
Proof.
  induction ts as [|t0 ts IH].
  - apply lookup_empty.
  - change (list_to_map (zip (t0 :: ts) (f <$> t0 :: ts)) : gmap engine A)
      with (<[t0 := f t0]> (list_to_map (zip ts (f <$> ts)) : gmap engine A)).
    destruct (decide (t = t0)) as [->|Hne].
    + rewrite lookup_insert_eq. by rewrite bool_decide_eq_true_2 by left.
    + rewrite lookup_insert_ne, IH by done.
      assert (bool_decide (t ∈ t0 :: ts) = bool_decide (t ∈ ts)) as ->; [|done].
      apply bool_decide_ext. rewrite elem_of_cons. intuition congruence.
Qed.

Lemma zip_fmap_items {A} (f : engine → A) (ts : list engine) :
  NoDup ts →
  map_to_list (list_to_map (zip ts (f <$> ts)) : gmap engine A)
    ≡ₚ zip ts (f <$> ts).
Proof.
  intros Hnd. apply map_to_list_to_map.
  rewrite fst_zip; [done|]. by rewrite length_fmap.
Qed.

Section ViewFacts.

Variable Get_rank : engine → list Z → Z.
Variable local_call : engine → string → list string → gmap string value → outcome.

(** a command that succeeds on every engine it is sent to *)
Lemma run_on_total (c : cmd) (ts : list engine) (w : engine → gmap string value)
    (f : engine → gmap string value → gmap string value) :
  NoDup ts →
  (∀ t, t ∈ ts → exec_cmd Get_rank local_call t c (w t) = Done (f t (w t))) →
  ∃ w', run_on Get_rank local_call c ts w = (w', []) ∧
    (∀ t, t ∈ ts → w' t = f t (w t)) ∧ (∀ t, t ∉ ts → w' t = w t).
Proof.
  intros Hnd Hex.
  destruct (run_on Get_rank local_call c ts w) as [w' failed] eqn:Hrun.
  destruct (run_on_spec _ _ _ _ _ _ _ Hnd Hrun) as (Hout & Hin & Hf).
  exists w'. split_and!; [| |done].
  - f_equal. rewrite Hf. apply filter_none. intros t Ht. unfold fails.
    by rewrite Hex.
  - intros t Ht. specialize (Hin t Ht). by rewrite Hex in Hin.
Qed.

(** a command that raises on every engine it is sent to *)
Lemma run_on_all_fail (c : cmd) (ts : list engine) (w : engine → gmap string value) :
  NoDup ts →
  (∀ t, t ∈ ts → fails Get_rank local_call c w t = true) →
  ∃ w', run_on Get_rank local_call c ts w = (w', ts) ∧ ∀ t, w' t = w t.
Proof.
  intros Hnd Hex.
  destruct (run_on Get_rank local_call c ts w) as [w' failed] eqn:Hrun.
  destruct (run_on_spec _ _ _ _ _ _ _ Hnd Hrun) as (Hout & Hin & Hf).
  exists w'. split.
  - f_equal. rewrite Hf. by apply filter_all.
  - intros t. destruct (decide (t ∈ ts)) as [Ht|Ht]; [|by apply Hout].
    specialize (Hin t Ht). specialize (Hex t Ht). unfold fails in Hex.
    by destruct (exec_cmd _ _ _ _ _).
Qed.

Lemma view_execute_ok (c : cmd) (ts : list engine) (block : bool) (st : state)
    (w' : engine → gmap string value) :
  run_on Get_rank local_call c ts (world st) = (w', []) →
  view_execute Get_rank local_call c ts block st =
    (Ok (), mkState w' (calls st ++ [Execute c ts]) (drawn st)).
Proof. intros H. unfold view_execute. by rewrite H. Qed.

End ViewFacts.

Section IntracommFacts.

Variable Get_rank : engine → list Z → Z.
Variable local_call : engine → string → list string → gmap string value → outcome.
Variable entropy : nat → N.
Variable private_rank : engine → Z.
Variable private_size : engine → Z.
Variable default_client : Client.

Lemma view_apply_eq (f : string) (impl : engine → Z) (ts : list engine)
    (st : state) :
  view_apply f impl ts st =
    (Ok (impl <$> ts),
     mkState (world st) (calls st ++ [ApplyAsync f ts]) (drawn st)).
Proof. reflexivity. Qed.

Lemma rank_map_values (view : list engine) :
  NoDup view →
  list_to_set (map_to_list (list_to_map (zip view (private_rank <$> view))
                              : gmap engine Z)).*2
    =@{gset Z} list_to_set (private_rank <$> view).
Proof.
  intros Hnd. rewrite (zip_fmap_items private_rank view Hnd).
  rewrite snd_zip; [done|]. by rewrite length_fmap.
Qed.

(** [_make_intracomm] on a context whose view is a non-empty set of
    engines that contains the targets *)
Lemma _make_intracomm_view (self : Context) (st : state) :
  NoDup (view_targets self) →
  view_targets self ≠ [] →
  (∀ t, t ∈ targets self → t ∈ view_targets self) →
  let view := view_targets self in
  let asked := (calls st ++ [ApplyAsync "get_rank" view])
                 ++ [ApplyAsync "get_size" view] in
  let ranks := private_rank <$> targets self in
  let key := (_key_header self (Some "comm") +:+ "_")
               +:+ uuid_hex (entropy (drawn st)) in
  (view_covers_ranks private_rank private_size view →
   ∃ w',
     _make_intracomm Get_rank local_call entropy private_rank private_size
                     self st
       = (Ok (mkContext view (targets self) (key_context self)
                        (Some (Some key))),
          mkState w' (asked ++ [Execute (CCreateComm key ranks) view])
                  (S (drawn st))) ∧
     (∀ t, t ∈ view → w' t = <[key := VComm ranks]> (world st t)) ∧
     (∀ t, t ∉ view → w' t = world st t)) ∧
  (¬ view_covers_ranks private_rank private_size view →
   _make_intracomm Get_rank local_call entropy private_rank private_size
                   self st
     = (Raise (ValueError "Engines in view must encompass all MPI ranks."),
        mkState (world st) asked (drawn st))).
Proof.
  intros Hnd Hne Hsub. cbv zeta.
  destruct (view_targets self) as [|v0 view'] eqn:Hv; [done|].
  set (view := v0 :: view') in *.
  set (asked := (calls st ++ [ApplyAsync "get_rank" view])
                  ++ [ApplyAsync "get_size" view]).
  set (ranks := private_rank <$> targets self).
  set (key := (_key_header self (Some "comm") +:+ "_")
                +:+ uuid_hex (entropy (drawn st))).
  assert (Hview : view ≠ []) by done.
  assert (Hprefix :
    _make_intracomm Get_rank local_call entropy private_rank private_size
                    self st
    = (if bool_decide (list_to_set (private_rank <$> view) ≠@{gset Z}
                         set_range (private_size v0))
       then raise (ValueError "Engines in view must encompass all MPI ranks.")
       else
         key ← _generate_key entropy self (Some "comm");
         view_execute Get_rank local_call (CCreateComm key ranks) view true;;
         mret (mkContext view (targets self) (key_context self)
                         (Some (Some key))))
        (mkState (world st) asked (drawn st))).
  { unfold _make_intracomm. rewrite Hv. fold view.
    rewrite (bind_ok _ _ _ _ _ (view_apply_eq _ _ _ _)).
    rewrite (bind_ok _ _ _ _ _ (get_dict_ok _ _ _ Hview Hnd)).
    assert (Hfe : ∀ s,
      for_each (getitem (list_to_map (zip view (private_rank <$> view))
                           : gmap engine Z)) (targets self) s = (Ok ranks, s)).
    { intros s. apply (for_each_ok _ private_rank). intros t Ht. unfold getitem.
      rewrite lookup_zip_fmap.
      by rewrite bool_decide_eq_true_2 by (by apply Hsub). }
    rewrite (bind_ok _ _ _ _ _ (Hfe _)).
    rewrite (bind_ok _ _ _ _ _ (view_apply_eq _ _ _ _)). cbn [world calls drawn].
    rewrite (rank_map_values view Hnd).
    change (private_size <$> view)
      with (private_size v0 :: (private_size <$> view')).
    reflexivity. }
  rewrite Hprefix. clear Hprefix. unfold view_covers_ranks. fold view. split.
  - intros Hc. rewrite bool_decide_eq_false_2 by (by intros H).
    destruct (run_on_total Get_rank local_call (CCreateComm key ranks)
                view (world st) (λ _ g, <[key := VComm ranks]> g))
      as (w' & Hrun & Hin & Hout); [done | done |].
    exists w'. split_and!; [|done|done].
    rewrite bind_unfold, _generate_key_eq. cbn [world calls drawn].
    by rewrite (bind_ok _ _ _ _ _ (view_execute_ok _ _ _ _ _
                  (mkState (world st) asked (S (drawn st))) _ Hrun)).
  - intros Hc. by rewrite bool_decide_eq_true_2.
Qed.

(** [_make_intracomm] on a context whose view is a set of engines that
    contains the targets *)
Lemma _make_intracomm_eq (self : Context) (st : state) :
  NoDup (view_targets self) →
  targets self ≠ [] →
  (∀ t, t ∈ targets self → t ∈ view_targets self) →
  let view := view_targets self in
  let asked := (calls st ++ [ApplyAsync "get_rank" view])
                 ++ [ApplyAsync "get_size" view] in
  let ranks := private_rank <$> targets self in
  let key := (_key_header self (Some "comm") +:+ "_")
               +:+ uuid_hex (entropy (drawn st)) in
  (view_covers_ranks private_rank private_size view →
   ∃ w',
     _make_intracomm Get_rank local_call entropy private_rank private_size
                     self st
       = (Ok (mkContext view (targets self) (key_context self)
                        (Some (Some key))),
          mkState w' (asked ++ [Execute (CCreateComm key ranks) view])
                  (S (drawn st))) ∧
     (∀ t, t ∈ view → w' t = <[key := VComm ranks]> (world st t)) ∧
     (∀ t, t ∉ view → w' t = world st t)) ∧
  (¬ view_covers_ranks private_rank private_size view →
   _make_intracomm Get_rank local_call entropy private_rank private_size
                   self st
     = (Raise (ValueError "Engines in view must encompass all MPI ranks."),
        mkState (world st) asked (drawn st))).
Proof.
  intros Hnd Hne Hsub. apply _make_intracomm_view; [done | | done].
  intros Hv. destruct (targets self) as [|t ts]; [done|].
  specialize (Hsub t (list_elem_of_here _ _)). rewrite Hv in Hsub.
  by apply elem_of_nil in Hsub.
Qed.

End IntracommFacts.

(** ** Inverting the rank dictionary *)

Lemma invert_items_acc {K V} {EqV : EqDecision V} {CV : Countable V} (items : list (K * V))
    (acc : gmap V K) :
  dom (foldl (λ acc kv, <[kv.2 := kv.1]> acc) acc items)
    = dom acc ∪ list_to_set items.*2 ∧
  ∀ v k, foldl (λ acc kv, <[kv.2 := kv.1]> acc) acc items !! v = Some k →
         acc !! v = Some k ∨ (k, v) ∈ items.
Proof.
  revert acc. induction items as [|[k0 v0] items IH]; intros acc; simpl.
  - split; [set_solver | auto].
  - destruct (IH (<[v0 := k0]> acc)) as [Hdom Hlook]. split.
    + rewrite Hdom, dom_insert_L. set_solver.
    + intros v k Hv. destruct (Hlook v k Hv) as [Hacc | Hin].
      * destruct (decide (v0 = v)) as [->|Hne].
        -- rewrite lookup_insert_eq in Hacc. injection Hacc as ->.
           right. left.
        -- rewrite lookup_insert_ne in Hacc by done. by left.
      * right. by right.
Qed.

Lemma invert_items_dom {K V} {EqV : EqDecision V} {CV : Countable V} (items : list (K * V)) :
  dom (invert_items items) = list_to_set items.*2.
Proof.
  unfold invert_items. destruct (invert_items_acc items ∅) as [-> _].
  rewrite dom_empty_L. set_solver.
Qed.

Lemma invert_items_lookup {K V} {EqV : EqDecision V} {CV : Countable V} (items : list (K * V))
    (v : V) (k : K) :
  invert_items items !! v = Some k → (k, v) ∈ items.
Proof.
  unfold invert_items. intros Hv.
  destruct (invert_items_acc items ∅) as [_ Hlook].
  destruct (Hlook v k Hv) as [Hacc|]; [|done]. by rewrite lookup_empty in Hacc.
Qed.

Lemma set_range_v_size (n : nat) : size (set_range_v n) = n.
Proof.
  unfold set_range_v. rewrite size_list_to_set.
  - by rewrite length_fmap, length_seq.
  - apply NoDup_fmap_2; [|apply NoDup_seq]. intros i j Hij.
    injection Hij as Hij. lia.
Qed.

Lemma elem_of_set_range_v (n i : nat) :
  i < n → VInt (Z.of_nat i) ∈ set_range_v n.
Proof.
  intros Hi. unfold set_range_v. apply elem_of_list_to_set, list_elem_of_fmap.
  exists i. split; [done|]. apply elem_of_seq. lia.
Qed.

(** the dictionary [target_to_rank] of the targets [ts], each reporting
    [f t], its inverse, and the reordered target list *)
Lemma rank_to_target_spec (ts : list engine) (f : engine → value) (st : state) :
  NoDup ts →
  let target_to_rank : gmap engine value := list_to_map (zip ts (f <$> ts)) in
  let rank_to_target := invert_items (map_to_list target_to_rank) in
  dom target_to_rank = list_to_set ts ∧
  dom rank_to_target = list_to_set (f <$> ts) ∧
  (set_range_v (length ts) = dom rank_to_target →
   ∃ ts',
     for_each (λ i, getitem rank_to_target (VInt (Z.of_nat i)))
              (seq 0 (size rank_to_target)) st = (Ok ts', st) ∧
     f <$> ts' = (λ i, VInt (Z.of_nat i)) <$> seq 0 (length ts) ∧
     ts' ≡ₚ ts).
Proof.
  intros Hnd m inv.
  assert (Hitems : map_to_list m ≡ₚ zip ts (f <$> ts))
    by apply zip_fmap_items, Hnd.
  assert (Hdom : dom inv = list_to_set (f <$> ts)).
  { unfold inv. rewrite invert_items_dom, Hitems, snd_zip; [done|].
    by rewrite length_fmap. }
  assert (Hlook : ∀ v t, inv !! v = Some t → t ∈ ts ∧ f t = v).
  { intros v t Hv. apply invert_items_lookup, elem_of_map_to_list in Hv.
    unfold m in Hv. rewrite lookup_zip_fmap in Hv.
    case_bool_decide; [|done]. by injection Hv as <-. }
  split_and!; [| done |].
  - unfold m. rewrite dom_list_to_map_L, fst_zip; [done|].
    by rewrite length_fmap.
  - intros Hassert.
    assert (Hsize : size inv = length ts).
    { by rewrite <- size_dom, <- Hassert, set_range_v_size. }
    set (h := λ i : nat, default (0%nat : engine) (inv !! VInt (Z.of_nat i))).
    assert (Hh : ∀ i, i < length ts → inv !! VInt (Z.of_nat i) = Some (h i)).
    { intros i Hi. pose proof (elem_of_set_range_v _ _ Hi) as Hin.
      rewrite Hassert in Hin. apply elem_of_dom in Hin as [t Ht].
      unfold h. by rewrite Ht. }
    assert (Hf : f <$> (h <$> seq 0 (length ts))
                 = (λ i, VInt (Z.of_nat i)) <$> seq 0 (length ts)).
    { rewrite <- list_fmap_compose. apply list_fmap_ext.
      intros i x Hx%lookup_seq. destruct Hx as [-> Hi]. simpl.
      by destruct (Hlook _ _ (Hh _ Hi)). }
    exists (h <$> seq 0 (length ts)). split_and!; [| done |].
    + rewrite Hsize. apply for_each_ok. intros i Hi%elem_of_seq.
      unfold getitem. rewrite Hh by lia. done.
    + apply submseteq_length_Permutation.
      * apply NoDup_submseteq.
        -- apply (NoDup_fmap_1 f). rewrite Hf.
           apply NoDup_fmap_2; [|apply NoDup_seq]. intros i j Hij.
           injection Hij as Hij. lia.
        -- intros t (i & -> & Hi%elem_of_seq)%list_elem_of_fmap.
           apply (Hlook (VInt (Z.of_nat i))). apply Hh. lia.
      * by rewrite length_fmap, length_seq.
Qed.

Lemma view_pull_ok (name : string) (ts : list engine) (h : engine → value)
    (st : state) :
  (∀ t, t ∈ ts → world st t !! name = Some (h t)) →
  view_pull name ts st =
    (Ok (h <$> ts), mkState (world st) (calls st ++ [Pull name ts]) (drawn st)).
Proof.
  intros Hb. unfold view_pull. rewrite filter_none.
  - do 2 f_equal. induction ts as [|t ts IH]; [done|]. simpl.
    rewrite Hb by left. simpl. f_equal. apply IH. intros t' Ht'. apply Hb.
    by right.
  - intros t Ht. rewrite Hb by done. by apply bool_decide_eq_false_2.
Qed.

Section RankMappingFacts.

Variable Get_rank : engine → list Z → Z.
Variable local_call : engine → string → list string → gmap string value → outcome.
Variable entropy : nat → N.

Lemma _set_engine_rank_mapping_eq (self : Context) (st : state)
    (ck : string) (ranks : list Z) :
  _comm_key self = Some (Some ck) →
  targets self ≠ [] → NoDup (targets self) →
  (∀ t, t ∈ targets self → world st t !! ck = Some (VComm ranks)) →
  let ts := targets self in
  let rk := (_key_header self None +:+ "_") +:+ uuid_hex (entropy (drawn st)) in
  let f := λ t, VInt (Get_rank t ranks) in
  ∃ w',
    (∀ t, t ∈ ts → w' t = <[rk := f t]> (world st t)) ∧
    (∀ t, t ∉ ts → w' t = world st t) ∧
    let st' := mkState w' ((calls st ++ [Execute (CGetRank rk ck) ts])
                             ++ [Pull rk ts]) (S (drawn st)) in
    (list_to_set (f <$> ts) = set_range_v (length ts) →
     ∃ ts',
       _set_engine_rank_mapping Get_rank local_call entropy self st
         = (Ok (mkContext (view_targets self) ts' (key_context self)
                          (Some (Some ck))), st') ∧
       f <$> ts' = (λ i, VInt (Z.of_nat i)) <$> seq 0 (length (targets self)) ∧
       ts' ≡ₚ (targets self)) ∧
    (list_to_set (f <$> (targets self)) ≠ set_range_v (length (targets self)) →
     _set_engine_rank_mapping Get_rank local_call entropy self st
       = (Raise AssertionError, st')).
Proof.
  intros Hck Hne Hnd Hbound ts rk f. subst ts.
  set (st1 := mkState (world st) (calls st) (S (drawn st))).
  destruct (run_on_total Get_rank local_call (CGetRank rk ck) (targets self) (world st)
              (λ t g, <[rk := f t]> g)) as (w' & Hrun & Hin & Hout); [done | |].
  { intros t Ht. simpl. by rewrite (Hbound t Ht). }
  exists w'. split_and!; [done | done |].
  set (st2 := mkState w' (calls st ++ [Execute (CGetRank rk ck) (targets self)])
                      (S (drawn st))).
  set (st3 := mkState w' ((calls st ++ [Execute (CGetRank rk ck) (targets self)])
                            ++ [Pull rk (targets self)]) (S (drawn st))).
  destruct (rank_to_target_spec (targets self) f st3 Hnd) as (Hdom1 & Hdom2 & Hreorder).
  assert (Hprefix :
    _set_engine_rank_mapping Get_rank local_call entropy self st
    = (let target_to_rank : gmap engine value :=
         list_to_map (zip (targets self) (f <$> (targets self))) in
       let rank_to_target := invert_items (map_to_list target_to_rank) in
       if negb (bool_decide (set_range_v (length (targets self)) = dom rank_to_target))
       then raise AssertionError
       else
         targets' ← for_each (λ i, getitem rank_to_target (VInt (Z.of_nat i)))
                             (seq 0 (size rank_to_target));
         mret (mkContext (view_targets self) targets' (key_context self)
                         (_comm_key self))) st3).
  { unfold _set_engine_rank_mapping. 
    rewrite bind_unfold, _generate_key_eq. fold rk st1.
    unfold get_comm_key. rewrite Hck, ret_bind. cbn [str_of].
    rewrite (bind_ok _ _ _ _ _ (view_execute_ok _ _ _ _ _ st1 _ Hrun)).
    fold st2.
    assert (Hpull : ∀ t, t ∈ (targets self) → world st2 t !! rk = Some (f t)).
    { intros t Ht. cbn [world st2]. by rewrite Hin, lookup_insert_eq. }
    rewrite (bind_ok _ _ _ _ _ (view_pull_ok rk (targets self) f st2 Hpull)).
    fold st3.
    rewrite (bind_ok _ _ _ _ _ (get_dict_ok _ _ _ Hne Hnd)).
    cbv zeta. by rewrite Hdom1, (bool_decide_eq_true_2 (_ = _)). }
  rewrite Hprefix. clear Hprefix. cbv zeta. rewrite Hdom2. split.
  - intros Heq. rewrite bool_decide_eq_true_2 by done. cbn [negb].
    destruct Hreorder as (ts' & Hfor & Hranks & Hperm); [by rewrite Hdom2|].
    exists ts'. split_and!; [|done|done].
    by rewrite (bind_ok _ _ _ _ _ Hfor), Hck.
  - intros Hneq. by rewrite bool_decide_eq_false_2.
Qed.

End RankMappingFacts.

Section InitFacts.

Variable Get_rank : engine → list Z → Z.
Variable local_call : engine → string → list string → gmap string value → outcome.
Variable entropy : nat → N.
Variable private_rank : engine → Z.
Variable private_size : engine → Z.
Variable default_client : Client.

(** [__init__] up to the creation of the communicator, for a request whose
    targets are engines of the view *)
Lemma __init___prefix (client : option Client)
    (requested : option (list engine)) (st : state) :
  let view := ids (default default_client client) in
  let ts := default view requested in
  NoDup view → (∀ t, t ∈ ts → t ∈ view) →
  ∃ w0,
    (∀ t, t ∈ view →
       w0 t = <["numpy" := VModule]> (<["distarray" := VModule]> (world st t))) ∧
    (∀ t, t ∉ view → w0 t = world st t) ∧
    __init__ Get_rank local_call entropy private_rank private_size
             default_client client requested st
    = (self ← _make_intracomm Get_rank local_call entropy private_rank
                private_size
                (mkContext view ts (slice_to 16 (uuid_hex (entropy (drawn st))))
                           None);
       _set_engine_rank_mapping Get_rank local_call entropy self)
        (mkState w0 (calls st ++ [Execute CImport view]) (S (drawn st))).
Proof.
  intros view ts Hnd Hsub.
  destruct (run_on_total Get_rank local_call CImport view (world st)
              (λ _ g, <["numpy" := VModule]> (<["distarray" := VModule]> g)))
    as (w0 & Hrun & Hin & Hout); [done | done |].
  exists w0. split_and!; [done | done |].
  unfold __init__. fold view.
  assert (Hsel : (match requested with
                  | Some targets => select_targets view targets []
                  | None => mret view
                  end) st = (Ok ts, st)).
  { unfold ts. destruct requested as [l|]; [|done].
    by rewrite select_targets_all. }
  rewrite (bind_ok _ _ _ _ _ Hsel).
  rewrite (bind_ok _ _ _ _ _ (view_execute_ok _ _ _ _ false st _ Hrun)).
  reflexivity.
Qed.

End InitFacts.

Lemma ranks_aligned_set (Get_rank : engine → list Z → Z) (ranks : list Z)
    (ts : list engine) :
  ranks_aligned Get_rank ranks ts →
  list_to_set ((λ t, VInt (Get_rank t ranks)) <$> ts)
    = set_range_v (length ts).
Proof.
  unfold ranks_aligned, set_range_v. intros Hperm.
  assert ((λ t, VInt (Get_rank t ranks)) <$> ts
          = VInt <$> ((λ t, Get_rank t ranks) <$> ts)) as ->
    by (by rewrite <- list_fmap_compose).
  rewrite Hperm. by rewrite <- list_fmap_compose.
Qed.

Lemma ranks_aligned_of_order (Get_rank : engine → list Z → Z) (ranks : list Z)
    (ts ts' : list engine) :
  (λ t, VInt (Get_rank t ranks)) <$> ts'
    = (λ i, VInt (Z.of_nat i)) <$> seq 0 (length ts) →
  ts' ≡ₚ ts →
  ranks_aligned Get_rank ranks ts ∧
  length ts' = length ts ∧
  ∀ i t, ts' !! i = Some t → Get_rank t ranks = Z.of_nat i.
Proof.
  intros Hf Hperm.
  assert (Hg : (λ t, Get_rank t ranks) <$> ts' = Z.of_nat <$> seq 0 (length ts)).
  { pose proof (f_equal (λ l : list value, int_of <$> l) Hf) as Hf'.
    cbv beta in Hf'. rewrite <- !list_fmap_compose in Hf'. exact Hf'. }
  split_and!.
  - unfold ranks_aligned. rewrite <- Hg. by rewrite Hperm.
  - by rewrite Hperm.
  - intros i t Hi.
    assert (Hlook : ((λ t, Get_rank t ranks) <$> ts') !! i
                    = Some (Get_rank t ranks)) by (by rewrite list_lookup_fmap, Hi).
    rewrite Hg, list_lookup_fmap in Hlook.
    destruct (seq 0 (length ts) !! i) as [j|] eqn:Hj; [|done].
    apply lookup_seq in Hj as [-> _]. by injection Hlook as <-.
Qed.

(** C1. For a non-empty selection of distinct engines of a pool whose view
    covers the ranks of [COMM_PRIVATE], creating a context succeeds exactly
    when the ranks that the selected engines report in the new
    communicator are the numbers [0 .. n-1], each once (otherwise the
    [assert] on the rank dictionary fails and no context is returned).
    The context returned has the selected engines as its targets, in the
    order of their rank: its [i]-th target holds the communicator under the
    context's reserved key and reports rank [i] in it. *)
Theorem context_targets_follow_ranks
    (Get_rank : engine → list Z → Z)
    (local_call : engine → string → list string → gmap string value → outcome)
    (entropy : nat → N) (private_rank private_size : engine → Z)
    (default_client : Client)
    (client : option Client) (requested : option (list engine)) (st : state) :
  let view := ids (default default_client client) in
  let ts := default view requested in
  let ranks := private_rank <$> ts in
  NoDup view → ts ≠ [] → NoDup ts → (∀ t, t ∈ ts → t ∈ view) →
  view_covers_ranks private_rank private_size view →
  (ranks_aligned Get_rank ranks ts →
   ∃ self st' ck,
     __init__ Get_rank local_call entropy private_rank private_size
              default_client client requested st = (Ok self, st') ∧
     _comm_key self = Some (Some ck) ∧
     targets self ≡ₚ ts ∧
     ∀ i t, targets self !! i = Some t →
            world st' t !! ck = Some (VComm ranks) ∧
            Get_rank t ranks = Z.of_nat i) ∧
  (¬ ranks_aligned Get_rank ranks ts →
   ∃ st',
     __init__ Get_rank local_call entropy private_rank private_size
              default_client client requested st = (Raise AssertionError, st')).
Proof.
  intros view ts ranks Hndv Hne Hnd Hsub Hcov.
  destruct (__init___prefix Get_rank local_call entropy private_rank
              private_size default_client client requested st Hndv Hsub)
    as (w0 & _ & _ & ->).
  set (kc := slice_to 16 (uuid_hex (entropy (drawn st)))).
  set (self0 := mkContext view ts kc None).
  set (st0 := mkState w0 (calls st ++ [Execute CImport view]) (S (drawn st))).
  destruct (_make_intracomm_eq Get_rank local_call entropy private_rank
              private_size self0 st0 Hndv Hne Hsub) as [Hmake _].
  destruct (Hmake Hcov) as (w1 & Hrun1 & Hin1 & _). clear Hmake.
  cbn [view_targets targets key_context self0 st0 world calls drawn] in Hrun1, Hin1.
  fold ranks in Hrun1, Hin1.
  set (ck := (_key_header self0 (Some "comm") +:+ "_")
               +:+ uuid_hex (entropy (S (drawn st)))) in *.
  set (self1 := mkContext view ts kc (Some (Some ck))) in *.
  match type of Hrun1 with _ = (_, ?s) => set (st1 := s) in * end.
  destruct (_set_engine_rank_mapping_eq Get_rank local_call entropy self1 st1
              ck ranks eq_refl Hne Hnd) as (w2 & Hin2 & _ & Hok & Hfail).
  { intros t Ht. cbn [st1 world]. rewrite Hin1 by (by apply Hsub).
    apply lookup_insert_eq. }
  cbn [targets self1] in Hin2, Hok, Hfail.
  assert (Hkeys : (_key_header self1 None +:+ "_")
                    +:+ uuid_hex (entropy (drawn st1)) ≠ ck).
  { intros Heq. apply (f_equal String.length) in Heq. unfold ck in Heq.
    rewrite !key_length, !uuid_hex_length in Heq. simpl in Heq. lia. }
  destruct (decide (list_to_set ((λ t, VInt (Get_rank t ranks)) <$> ts)
                    = set_range_v (length ts))) as [Hset|Hset].
  - destruct (Hok Hset) as (ts' & Hrun2 & Hf & Hperm).
    destruct (ranks_aligned_of_order Get_rank ranks ts ts' Hf Hperm)
      as (Hal & Hlen & Hidx).
    split; [|by intros Hna].
    intros _. eexists _, _, ck. split_and!.
    + rewrite (bind_ok _ _ _ _ _ Hrun1). exact Hrun2.
    + done.
    + done.
    + intros i t Hi. split; [|by eapply Hidx].
      assert (Ht : t ∈ ts).
      { rewrite <- Hperm. by eapply list_elem_of_lookup_2. }
      cbn [world]. rewrite Hin2, lookup_insert_ne by done.
      cbn [st1 world]. rewrite Hin1 by (by apply Hsub).
      apply lookup_insert_eq.
  - split.
    + intros Hal. by apply ranks_aligned_set in Hal.
    + intros _. eexists. rewrite (bind_ok _ _ _ _ _ Hrun1). by apply Hfail.
Qed.

(* ===================================================================== *)
(** * Teardown *)
(* ===================================================================== *)

Section CleanupFacts.

Variable Get_rank : engine → list Z → Z.
Variable local_call : engine → string → list string → gmap string value → outcome.

Lemma view_execute_raise (c : cmd) (ts : list engine) (st : state)
    (w' : engine → gmap string value) (t : engine) (failed : list engine) :
  run_on Get_rank local_call c ts (world st) = (w', t :: failed) →
  view_execute Get_rank local_call c ts true st =
    (Raise (RemoteError (t :: failed)),
     mkState w' (calls st ++ [Execute c ts]) (drawn st)).
Proof. intros H. unfold view_execute. by rewrite H. Qed.

(** a reserved key of [self], by its name *)
Lemma reserved_key_facts (self : Context) (ck : string) :
  wf_key_context (key_context self) →
  startswith ck (_key_header self (Some "comm")) = true →
  ck ≠ "None" ∧ ck ≠ "k" ∧ startswith ck (_key_header self None) = false.
Proof.
  intros [Hl Hh] [r ->]%startswith_spec. rewrite _key_header_comm.
  rewrite app_assoc'. split_and!; [done | done |].
  rewrite _key_header_plain.
  change "__distarray__comm_" with ("__distarray__" +:+ "comm_").
  rewrite app_assoc', startswith_app_both. apply hex_not_comm; [done | lia].
Qed.

(** the deletion of the context's own reserved key, or of the [None] left
    in its place *)
Lemma delete_key_comm_key (self : Context) (key : option string) :
  _comm_key self = Some key →
  delete_key Get_rank local_call self key
    = _execute Get_rank local_call self (CDel (str_of key)).
Proof.
  intros Hck. unfold delete_key, names_one_key.
  by rewrite (bool_decide_eq_true_2 _ Hck), orb_true_r.
Qed.

End CleanupFacts.

(** C5, on the code.  The first [_cleanup_keys] of a context whose reserved
    key is bound on its targets purges the ordinary keys and then deletes
    the reserved key: these are the two remote calls it issues, in this
    order, and it succeeds.  It leaves [_comm_key] set to [None], which the
    [hasattr] test of a second [_cleanup_keys] does not look at: the second
    call purges again and then sends [del None], which every target
    refuses, so the call raises. *)
Theorem second_cleanup_raises
    (Get_rank : engine → list Z → Z)
    (local_call : engine → string → list string → gmap string value → outcome)
    (self : Context) (st : state) (ck : string) :
  wf_key_context (key_context self) →
  NoDup (targets self) → targets self ≠ [] →
  _comm_key self = Some (Some ck) →
  startswith ck (_key_header self (Some "comm")) = true →
  (∀ t, t ∈ targets self → is_Some (world st t !! ck)) →
  ∃ self' st',
    _cleanup_keys Get_rank local_call self st = (Ok self', st') ∧
    calls st' = (calls st
                   ++ [Execute (CPurge (_key_header self None)) (targets self)])
                  ++ [Execute (CDel ck) (targets self)] ∧
    (∀ t, t ∈ targets self → world st' t !! ck = None) ∧
    ∃ st'',
      _cleanup_keys Get_rank local_call self' st'
        = (Raise (RemoteError (targets self)), st'') ∧
      calls st'' = (calls st'
                      ++ [Execute (CPurge (_key_header self None)) (targets self)])
                     ++ [Execute (CDel "None") (targets self)].
Proof.
  intros Hwf Hnd Hne Hck Hres Hbound.
  destruct (reserved_key_facts self ck Hwf Hres) as (HnNone & Hnk & Hplain).
  destruct (purge_keys_own Get_rank local_call self st Hnd)
    as (st1 & Hpurge1 & Hcalls1 & _ & Hin1 & _).
  destruct (run_on_total Get_rank local_call (CDel ck) (targets self)
              (world st1) (λ _ g, delete ck g)) as (w2 & Hrun2 & Hin2 & _);
    [done | |].
  { intros t Ht. simpl. rewrite decide_False by done.
    rewrite Hin1, Hplain by done. by destruct (Hbound t Ht) as [v ->]. }
  set (self' := mkContext (view_targets self) (targets self) (key_context self)
                          (Some None)).
  set (st2 := mkState w2 (calls st1 ++ [Execute (CDel ck) (targets self)])
                      (drawn st1)).
  assert (Hfirst : _cleanup_keys Get_rank local_call self st = (Ok self', st2)).
  { unfold _cleanup_keys. rewrite (bind_ok _ _ _ _ _ Hpurge1), Hck.
    rewrite (delete_key_comm_key Get_rank local_call self (Some ck) Hck).
    unfold _execute. cbn [str_of].
    by rewrite (bind_ok _ _ _ _ _ (view_execute_ok _ _ _ _ _ _ _ Hrun2)). }
  exists self', st2. split_and!; [done | | |].
  - cbn [st2 calls]. by rewrite Hcalls1.
  - intros t Ht. cbn [st2 world]. rewrite Hin2 by done. apply lookup_delete_eq.
  - destruct (purge_keys_own Get_rank local_call self' st2 Hnd)
      as (st3 & Hpurge3 & Hcalls3 & _ & _ & _).
    destruct (run_on_all_fail Get_rank local_call (CDel "None") (targets self)
                (world st3) Hnd) as (w4 & Hrun4 & _).
    { intros t Ht. reflexivity. }
    destruct (targets self) as [|t0 ts0] eqn:Hts; [done|].
    eexists. split.
    + unfold _cleanup_keys. rewrite (bind_ok _ _ _ _ _ Hpurge3).
      cbn [_comm_key self'].
      rewrite (delete_key_comm_key Get_rank local_call self' None eq_refl).
      unfold _execute. cbn [str_of targets self'].
      by rewrite (bind_raise _ _ _ _ _ (view_execute_raise _ _ _ _ _ _ _ _ Hrun4)).
    + cbn [calls]. by rewrite Hcalls3.
Qed.

(* ===================================================================== *)
(** * Dumping the keys *)
(* ===================================================================== *)

(** ** The dictionary built by [dump_keys] *)

Lemma collect_inner_dom (t : engine) (l : list string)
    (ek : gmap string (list engine)) :
  dom (foldl (λ ek key,
                let ek' := match ek !! key with
                           | Some _ => ek
                           | None => <[key := []]> ek
                           end in
                alter (λ l, l ++ [t]) key ek') ek l)
    = dom ek ∪ list_to_set l.
Proof.
  revert ek. induction l as [|key l IH]; intros ek; simpl.
  - set_solver.
  - rewrite IH, dom_alter_L. destruct (ek !! key) eqn:Hk.
    + apply elem_of_dom_2 in Hk. set_solver.
    + rewrite dom_insert_L. set_solver.
Qed.

Lemma collect_outer_dom (ts : list engine) (iks : list (nat * list string))
    (acc : gmap string (list engine)) :
  dom (foldl (λ engine_keys ik,
                foldl (λ ek key,
                         let ek' := match ek !! key with
                                    | Some _ => ek
                                    | None => <[key := []]> ek
                                    end in
                         alter (λ l, l ++ [default 0%nat (ts !! ik.1)]) key ek')
                      engine_keys ik.2) acc iks)
    = dom acc ∪ ⋃ ((λ ik, list_to_set ik.2) <$> iks).
Proof.
  revert acc. induction iks as [|ik iks IH]; intros acc; simpl.
  - set_solver.
  - rewrite IH, collect_inner_dom. set_solver.
Qed.

Lemma collect_keys_dom (ts : list engine) (keylists : list (list string))
    (key : string) :
  key ∈ dom (collect_keys ts keylists) ↔ ∃ l, l ∈ keylists ∧ key ∈ l.
Proof.
  unfold collect_keys. rewrite collect_outer_dom, dom_empty_L, union_empty_l_L.
  rewrite elem_of_union_list. split.
  - intros (X & HX & Hkey). apply list_elem_of_fmap in HX as ([i l] & -> & Hil).
    exists l. split; [|by apply elem_of_list_to_set in Hkey].
    apply list_elem_of_lookup in Hil as [j Hj].
    rewrite list_lookup_imap in Hj.
    destruct (keylists !! j) as [l'|] eqn:Hl'; [|done].
    injection Hj as _ <-. by eapply list_elem_of_lookup_2.
  - intros (l & Hl & Hkey). apply list_elem_of_lookup in Hl as [j Hj].
    exists (list_to_set l). split; [|by apply elem_of_list_to_set].
    apply list_elem_of_fmap. exists (j, l). split; [done|].
    apply list_elem_of_lookup. exists j. by rewrite list_lookup_imap, Hj.
Qed.

Lemma elem_of_map_keys {A} (m : gmap string A) (key : string) :
  key ∈ (map_to_list m).*1 ↔ key ∈ dom m.
Proof.
  rewrite elem_of_dom, list_elem_of_fmap. split.
  - intros [[k v] [-> Hin]]. apply elem_of_map_to_list in Hin. by exists v.
  - intros [v Hv]. exists (key, v). split; [done|]. by apply elem_of_map_to_list.
Qed.

Lemma fst_pair_with {A B} (g : A → B) (l : list A) :
  ((λ x, (x, g x)) <$> l).*1 = l.
Proof. induction l as [|x l IH]; [done|]. cbn. f_equal. exact IH. Qed.

Section DumpFacts.

Variable Get_rank : engine → list Z → Z.
Variable local_call : engine → string → list string → gmap string value → outcome.
Variable entropy : nat → N.

(** [dump_keys] with a prefix of name characters, step by step *)
Lemma dump_keys_eq (self : Context) (prefix : option string)
    (all_contexts : bool) (st : state) :
  NoDup (targets self) → plain (default "" prefix) = true →
  let header := if all_contexts then _key_base prefix
                else _key_header self prefix in
  let dump_key := (_key_header self None +:+ "_")
                    +:+ uuid_hex (entropy (drawn st)) in
  let listed := λ t, List.filter (λ k, startswith k header)
                                 (keys (world st t)) in
  ∃ w' listing,
    dump_keys Get_rank local_call entropy self prefix all_contexts st
      = (Ok listing,
         mkState w' ((calls st
                        ++ [Execute (CListKeys dump_key header) (targets self)])
                       ++ [Pull dump_key (targets self)]) (S (drawn st))) ∧
    (∀ t, t ∈ targets self →
       w' t = <[dump_key := VStrs (listed t)]>
                (match last (keys (world st t)) with
                 | Some k => <["k" := VStr k]> (world st t)
                 | None => world st t
                 end)) ∧
    (∀ t, t ∉ targets self → w' t = world st t) ∧
    (∀ key, key ∈ listing.*1 ↔ ∃ t, t ∈ targets self ∧ key ∈ listed t).
Proof.
  intros Hnd Hplain header dump_key listed.
  set (st1 := mkState (world st) (calls st) (S (drawn st))).
  destruct (run_on_total Get_rank local_call (CListKeys dump_key header)
              (targets self) (world st)
              (λ _ g, <[dump_key := VStrs (List.filter (λ k, startswith k header)
                                                       (keys g))]>
                        (match last (keys g) with
                         | Some k => <["k" := VStr k]> g
                         | None => g
                         end)))
    as (w' & Hrun & Hin & Hout); [done | done |].
  set (st2 := mkState w' (calls st ++ [Execute (CListKeys dump_key header)
                                               (targets self)]) (S (drawn st))).
  set (st3 := mkState w' ((calls st ++ [Execute (CListKeys dump_key header)
                                                (targets self)])
                            ++ [Pull dump_key (targets self)]) (S (drawn st))).
  assert (Hpull : ∀ t, t ∈ targets self →
            world st2 t !! dump_key = Some (VStrs (listed t))).
  { intros t Ht. cbn [st2 world]. rewrite Hin by done. apply lookup_insert_eq. }
  set (unlist := λ v, match v with VStrs l => l | _ => [] end).
  assert (Hfor : for_each (λ v, match v with
                                | VStrs l => mret l
                                | _ => raise (TypeError "not a list of names")
                                end)
                          ((λ t, VStrs (listed t)) <$> targets self) st3
                 = (Ok (listed <$> targets self), st3)).
  { rewrite (for_each_ok _ unlist).
    - by rewrite <- list_fmap_compose.
    - by intros v (t & -> & _)%list_elem_of_fmap. }
  exists w'. eexists. split_and!; [| done | done |].
  - unfold dump_keys. fold header.
    rewrite bind_unfold, _generate_key_eq. fold dump_key st1.
    unfold _execute, _pull, list_keys_code. rewrite Hplain.
    rewrite (bind_ok _ _ _ _ _ (view_execute_ok _ _ _ _ _ st1 _ Hrun)).
    fold st2.
    rewrite (bind_ok _ _ _ _ _ (view_pull_ok _ _ _ st2 Hpull)). fold st3.
    rewrite (bind_ok _ _ _ _ _ Hfor). reflexivity.
  - intros key.
    rewrite (fst_pair_with
               (λ key, default [] (collect_keys (targets self)
                                     (listed <$> targets self) !! key))).
    rewrite merge_sort_Permutation, elem_of_map_keys.
    rewrite collect_keys_dom. split.
    + intros (l & (t & -> & Ht)%list_elem_of_fmap & Hkey). eauto.
    + intros (t & Ht & Hkey). exists (listed t). split; [|done].
      apply list_elem_of_fmap. eauto.
Qed.

End DumpFacts.

Lemma elem_of_live_keys (self : Context) (g : gmap string value) (k : string) :
  k ∈ live_keys self g ↔
  startswith k (_key_header self None) = true ∧ is_Some (g !! k).
Proof. unfold live_keys. by rewrite elem_of_filter, elem_of_dom. Qed.



(* ===================================================================== *)
(** * The concrete pool *)
(* ===================================================================== *)

(** the hypotheses of [generated_keys_never_collide] at the two contexts of
    the concrete pool *)
Lemma generated_keys_never_collide_witness :
  wf_key_context (key_context Demo.c1) ∧
  wf_key_context (key_context Demo.c2) ∧
  key_context Demo.c1 ≠ key_context Demo.c2 ∧
  ∀ k1 k2 st1' st2',
    _generate_key Demo.entropy Demo.c1 None Demo.st2 = (Ok k1, st1') →
    _generate_key Demo.entropy Demo.c2 (Some "comm") Demo.st2 = (Ok k2, st2') →
    k1 ≠ k2.
Proof.
  assert (H1 : wf_key_context (key_context Demo.c1))
    by (vm_compute; split; reflexivity).
  assert (H2 : wf_key_context (key_context Demo.c2))
    by (vm_compute; split; reflexivity).
  assert (H3 : key_context Demo.c1 ≠ key_context Demo.c2).
  { apply (bool_decide_unpack _). vm_compute. exact I. }
  split; [exact H1 | split; [exact H2 | split; [exact H3|]]].
  intros k1 k2 st1' st2'.
  exact (generated_keys_never_collide Demo.entropy Demo.entropy Demo.c1 Demo.c2
           None (Some "comm") Demo.st2 Demo.st2 st1' st2' k1 k2 H1 H2 H3
           (or_introl eq_refl) (or_intror eq_refl)).
Defined.

(** the hypotheses of [context_targets_follow_ranks] at the concrete pool,
    asked for the engines 2 and 0 *)
Lemma context_targets_follow_ranks_witness :
  NoDup (ids Demo.pool) ∧ NoDup [2; 0]%nat ∧
  (∀ t, t ∈ [2; 0]%nat → t ∈ ids Demo.pool) ∧
  view_covers_ranks Demo.mpi_rank Demo.mpi_size (ids Demo.pool) ∧
  ranks_aligned Demo.group_rank (Demo.mpi_rank <$> [2; 0]%nat) [2; 0]%nat ∧
  ∃ self st' ck,
    Demo.create None (Some [2; 0]%nat) Demo.st0 = (Ok self, st') ∧
    _comm_key self = Some (Some ck) ∧
    targets self ≡ₚ [2; 0]%nat ∧
    ∀ i t, targets self !! i = Some t →
           world st' t !! ck = Some (VComm (Demo.mpi_rank <$> [2; 0]%nat)) ∧
           Demo.group_rank t (Demo.mpi_rank <$> [2; 0]%nat) = Z.of_nat i.
Proof.
  assert (H1 : NoDup (ids Demo.pool)).
  { apply (bool_decide_unpack _). vm_compute. exact I. }
  assert (H2 : NoDup [2; 0]%nat).
  { apply (bool_decide_unpack _). vm_compute. exact I. }
  assert (H3 : ∀ t, t ∈ [2; 0]%nat → t ∈ ids Demo.pool).
  { apply Forall_forall. apply (bool_decide_unpack _). vm_compute. exact I. }
  assert (H4 : view_covers_ranks Demo.mpi_rank Demo.mpi_size (ids Demo.pool)).
  { unfold view_covers_ranks. cbn [ids Demo.pool].
    apply (bool_decide_unpack _). vm_compute. exact I. }
  assert (H5 : ranks_aligned Demo.group_rank (Demo.mpi_rank <$> [2; 0]%nat)
                             [2; 0]%nat).
  { unfold ranks_aligned. vm_compute. reflexivity. }
  assert (H0 : [2; 0]%nat ≠ []) by discriminate.
  split; [exact H1 | split; [exact H2 | split; [exact H3 |
    split; [exact H4 | split; [exact H5|]]]]].
  exact (proj1 (context_targets_follow_ranks Demo.group_rank Demo.no_local
           Demo.entropy Demo.mpi_rank Demo.mpi_size Demo.pool None
           (Some [2; 0]%nat) Demo.st0 H1 H0 H2 H3 H4) H5).
Defined.

(** C6 as it is worded fails: the engines 2 and 0 of the concrete pool
    report the ranks 2 and 0, which are not the whole range of the three
    ranks, and yet the context on them is created, the communicator
    included. *)
Lemma partial_selection_is_accepted :
  list_to_set (Demo.mpi_rank <$> [2; 0]%nat) ≠@{gset Z} set_range (Demo.mpi_size 2%nat) ∧
  (Demo.create None (Some [2; 0]%nat) Demo.st0).1 = Ok Demo.c1 ∧
  targets Demo.c1 = [2; 0]%nat ∧
  ∃ k, calls Demo.st1 !! 3%nat
       = Some (Execute (CCreateComm k [2%Z; 0%Z]) [0; 1; 2]%nat).
Proof.
  split; [apply (bool_decide_unpack _); vm_compute; exact I|].
  split; [vm_compute; reflexivity|].
  split; [vm_compute; reflexivity|].
  eexists. vm_compute. reflexivity.
Qed.

(** the hypotheses of [second_cleanup_raises] at the first context of the
    concrete pool, right after its creation *)
Lemma second_cleanup_raises_witness :
  wf_key_context (key_context Demo.c1) ∧ NoDup (targets Demo.c1) ∧
  targets Demo.c1 ≠ [] ∧
  ∃ ck,
    _comm_key Demo.c1 = Some (Some ck) ∧
    startswith ck (_key_header Demo.c1 (Some "comm")) = true ∧
    (∀ t, t ∈ targets Demo.c1 → is_Some (world Demo.st1 t !! ck)) ∧
    ∃ self' st' st'',
      _cleanup_keys Demo.group_rank Demo.no_local Demo.c1 Demo.st1
        = (Ok self', st') ∧
      _cleanup_keys Demo.group_rank Demo.no_local self' st'
        = (Raise (RemoteError (targets Demo.c1)), st'').
Proof.
  assert (H1 : wf_key_context (key_context Demo.c1))
    by (vm_compute; split; reflexivity).
  assert (H2 : NoDup (targets Demo.c1)).
  { apply (bool_decide_unpack _). vm_compute. exact I. }
  assert (H3 : targets Demo.c1 ≠ []) by (vm_compute; discriminate).
  split; [exact H1 | split; [exact H2 | split; [exact H3|]]].
  exists "__distarray__comm_000000000000fa00_000000000000fa400000000000000000".
  assert (H4 : _comm_key Demo.c1 = Some (Some
    "__distarray__comm_000000000000fa00_000000000000fa400000000000000000"))
    by (vm_compute; reflexivity).
  assert (H5 : startswith
    "__distarray__comm_000000000000fa00_000000000000fa400000000000000000"
    (_key_header Demo.c1 (Some "comm")) = true) by (vm_compute; reflexivity).
  assert (H6 : ∀ t, t ∈ targets Demo.c1 → is_Some (world Demo.st1 t !!
    "__distarray__comm_000000000000fa00_000000000000fa400000000000000000")).
  { apply Forall_forall. apply (bool_decide_unpack _). vm_compute. exact I. }
  split; [exact H4 | split; [exact H5 | split; [exact H6|]]].
  destruct (second_cleanup_raises Demo.group_rank Demo.no_local Demo.c1
              Demo.st1 _ H1 H2 H3 H4 H5 H6)
    as (self' & st' & Hfirst & _ & _ & st'' & Hsecond & _).
  exists self', st', st''. split; [exact Hfirst | exact Hsecond].
Defined.


(* ===================================================================== *)
(** * Identifiers *)
(* ===================================================================== *)

(** ** The hexadecimal rendering of a uuid *)

Section HexFacts.
Local Arguments String.append !_ _ /.

Lemma hex_char_code (d : N) :
  (d < 16)%N →
  N_of_ascii (hex_char d) = (if (d <? 10)%N then 48 + d else 87 + d)%N.
Proof.
  intros Hd. destruct d as [|p]; [done|].
  do 4 (destruct p as [p|p|]; try lia; try reflexivity).
Qed.

Lemma hex_char_inj (d1 d2 : N) :
  (d1 < 16)%N → (d2 < 16)%N → hex_char d1 = hex_char d2 → d1 = d2.
Proof.
  intros H1 H2 Hc. apply (f_equal N_of_ascii) in Hc.
  rewrite !hex_char_code in Hc by done.
  destruct (N.ltb_spec d1 10), (N.ltb_spec d2 10); lia.
Qed.

Lemma hex_go_inj (w : nat) (n1 n2 : N) (acc1 acc2 : string) :
  String.length acc1 = String.length acc2 →
  hex_go w n1 acc1 = hex_go w n2 acc2 →
  (n1 mod 16 ^ N.of_nat w = n2 mod 16 ^ N.of_nat w)%N ∧ acc1 = acc2.
Proof.
  revert n1 n2 acc1 acc2.
  induction w as [|w IH]; intros n1 n2 acc1 acc2 Hl Heq.
  - simpl in *. by rewrite !N.mod_1_r.
  - cbn [hex_go] in Heq. apply IH in Heq as [Hhi Hacc]; [|simpl; lia].
    injection Hacc as Hc ->. split; [|done].
    apply hex_char_inj in Hc; [|by apply N.mod_lt..].
    rewrite Nat2N.inj_succ, N.pow_succ_r'.
    rewrite !(N.Div0.mod_mul_r _ 16). by rewrite Hc, Hhi.
Qed.

Lemma hex_go_mod (w : nat) (n : N) (acc : string) :
  hex_go w n acc = hex_go w (n mod 16 ^ N.of_nat w) acc.
Proof.
  revert n acc. induction w as [|w IH]; intros n acc; [done|].
  cbn [hex_go]. rewrite Nat2N.inj_succ, N.pow_succ_r'.
  rewrite (N.Div0.mod_mul_r n 16).
  set (lo := (n mod 16)%N). set (hi := ((n / 16) mod 16 ^ N.of_nat w)%N).
  assert (Hlo : (lo < 16)%N) by (by apply N.mod_lt).
  replace ((lo + 16 * hi) mod 16)%N with lo
    by (rewrite (N.mul_comm 16), N.Div0.mod_add; symmetry;
        by apply N.mod_small).
  replace ((lo + 16 * hi) / 16)%N with hi
    by (rewrite (N.mul_comm 16), N.div_add by done;
        rewrite (N.div_small lo) by done; lia).
  rewrite (IH (n / 16)%N). unfold hi. rewrite (IH (_ mod _)%N).
  by rewrite N.Div0.mod_mod.
Qed.

Lemma hex_go_app (w : nat) (n : N) (acc : string) :
  hex_go w n acc = hex_go w n "" +:+ acc.
Proof.
  revert n acc. induction w as [|w IH]; intros n acc; [done|].
  cbn [hex_go]. rewrite IH, (IH _ (String _ "")). by rewrite app_assoc'.
Qed.

Lemma hex_go_split (a b : nat) (n : N) (acc : string) :
  hex_go (a + b) n acc = hex_go a (n / 16 ^ N.of_nat b) (hex_go b n acc).
Proof.
  revert n acc. induction b as [|b IH]; intros n acc.
  - rewrite Nat.add_0_r. simpl. by rewrite N.div_1_r.
  - rewrite Nat.add_succ_r. cbn [hex_go]. rewrite IH.
    rewrite Nat2N.inj_succ, N.pow_succ_r', N.Div0.div_div. done.
Qed.

Lemma slice_to_app (a b : string) :
  slice_to (String.length a) (a +:+ b) = a.
Proof. induction a as [|c a IH]; simpl; [by destruct b | by rewrite IH]. Qed.

(** the identifier of a context is the rendering of the upper half of
    its uuid *)
Lemma key_context_upper (u : N) :
  slice_to 16 (uuid_hex u) = hex_go 16 (u / 2 ^ 64) "".
Proof.
  unfold uuid_hex. rewrite (hex_go_split 16 16), hex_go_app.
  change (16 ^ N.of_nat 16)%N with (2 ^ 64)%N.
  pose proof (slice_to_app (hex_go 16 (u / 2 ^ 64) "") (hex_go 16 u "")) as H.
  by rewrite hex_go_length in H.
Qed.

Lemma uuid_hex_inj (u1 u2 : N) :
  (u1 < 2 ^ 128)%N → (u2 < 2 ^ 128)%N → uuid_hex u1 = uuid_hex u2 → u1 = u2.
Proof.
  intros H1 H2 Heq. apply hex_go_inj in Heq as [Heq _]; [|done].
  change (16 ^ N.of_nat 32)%N with (2 ^ 128)%N in Heq.
  by rewrite !N.mod_small in Heq.
Qed.

End HexFacts.

(** ** What the identifiers carry *)

(** [_setup_key_context] draws one uuid and nothing else; the identifier it
    returns has sixteen hexadecimal digits and renders the upper 64 bits of
    the uuid. *)
Theorem setup_key_context_spec (entropy : nat → N) (st : state) :
  ∃ kc,
    _setup_key_context entropy st
      = (Ok kc, mkState (world st) (calls st) (S (drawn st))) ∧
    wf_key_context kc ∧
    kc = hex_go 16 (entropy (drawn st) / 2 ^ 64) "".
Proof.
  exists (slice_to 16 (uuid_hex (entropy (drawn st)))). split_and!.
  - reflexivity.
  - apply key_context_wf.
  - apply key_context_upper.
Qed.

(** Two contexts get the same identifier exactly when their uuids agree on
    the upper 64 bits: the lower half of the uuid is cut off by [hex[:16]]. *)
Theorem key_context_collision
    (entropy1 entropy2 : nat → N) (st1 st2 st1' st2' : state)
    (kc1 kc2 : string) :
  (entropy1 (drawn st1) < 2 ^ 128)%N → (entropy2 (drawn st2) < 2 ^ 128)%N →
  _setup_key_context entropy1 st1 = (Ok kc1, st1') →
  _setup_key_context entropy2 st2 = (Ok kc2, st2') →
  (kc1 = kc2 ↔
   (entropy1 (drawn st1) / 2 ^ 64 = entropy2 (drawn st2) / 2 ^ 64)%N).
Proof.
  intros H1 H2 Hk1 Hk2.
  destruct (setup_key_context_spec entropy1 st1) as (k1 & Hr1 & _ & Hu1).
  destruct (setup_key_context_spec entropy2 st2) as (k2 & Hr2 & _ & Hu2).
  rewrite Hr1 in Hk1. rewrite Hr2 in Hk2.
  injection Hk1 as <- _. injection Hk2 as <- _. subst k1 k2. split.
  - intros Heq. apply hex_go_inj in Heq as [Heq _]; [|done].
    change (16 ^ N.of_nat 16)%N with (2 ^ 64)%N in Heq.
    rewrite !N.mod_small in Heq; [done|..];
      apply N.Div0.div_lt_upper_bound; by change (2 ^ 64 * 2 ^ 64)%N with (2 ^ 128)%N.
  - by intros ->.
Qed.

(** [key_context_collision] at two uuids that differ in the lower half only *)
Lemma key_context_collision_witness :
  (5 < 2 ^ 128)%N ∧ (7 < 2 ^ 128)%N ∧
  _setup_key_context (λ _, 5%N) Demo.st0
    = (Ok "0000000000000000", mkState (world Demo.st0) [] 1) ∧
  _setup_key_context (λ _, 7%N) Demo.st0
    = (Ok "0000000000000000", mkState (world Demo.st0) [] 1) ∧
  (5 / 2 ^ 64 = 7 / 2 ^ 64)%N.
Proof.
  assert (H1 : (5 < 2 ^ 128)%N) by (vm_compute; reflexivity).
  assert (H2 : (7 < 2 ^ 128)%N) by (vm_compute; reflexivity).
  assert (Ha : _setup_key_context (λ _, 5%N) Demo.st0
               = (Ok "0000000000000000", mkState (world Demo.st0) [] 1))
    by reflexivity.
  assert (Hb : _setup_key_context (λ _, 7%N) Demo.st0
               = (Ok "0000000000000000", mkState (world Demo.st0) [] 1))
    by reflexivity.
  split; [exact H1 | split; [exact H2 | split; [exact Ha | split; [exact Hb|]]]].
  exact (proj1 (key_context_collision (λ _, 5%N) (λ _, 7%N) Demo.st0
                  Demo.st0 _ _ _ _ H1 H2 Ha Hb) eq_refl).
Defined.

(** Within one context, two generated keys are equal exactly when they
    were generated with the same prefix and from the same uuid: the 32
    digits of the suffix render the whole uuid. *)
Theorem same_context_keys_collide
    (entropy1 entropy2 : nat → N) (self : Context) (p1 p2 : option string)
    (st1 st2 st1' st2' : state) (k1 k2 : string) :
  (entropy1 (drawn st1) < 2 ^ 128)%N → (entropy2 (drawn st2) < 2 ^ 128)%N →
  used_prefix p1 → used_prefix p2 →
  _generate_key entropy1 self p1 st1 = (Ok k1, st1') →
  _generate_key entropy2 self p2 st2 = (Ok k2, st2') →
  (k1 = k2 ↔ p1 = p2 ∧ entropy1 (drawn st1) = entropy2 (drawn st2)).
Proof.
  intros H1 H2 Hp1 Hp2 Hk1 Hk2.
  rewrite _generate_key_eq in Hk1, Hk2.
  injection Hk1 as <- _. injection Hk2 as <- _. split.
  - intros Heq.
    assert (Hp : p1 = p2).
    { apply (f_equal String.length) in Heq.
      rewrite !key_length, !uuid_hex_length in Heq.
      destruct Hp1 as [-> | ->], Hp2 as [-> | ->]; simpl in Heq; try done; lia. }
    subst p2. split; [done|]. apply String.app_inj in Heq.
    by apply uuid_hex_inj.
  - by intros [-> ->].
Qed.

(** [same_context_keys_collide] at the first context of the concrete pool *)
Lemma same_context_keys_collide_witness :
  (Demo.entropy 3 < 2 ^ 128)%N ∧ (Demo.entropy 4 < 2 ^ 128)%N ∧
  ∀ k1 k2 st1' st2',
    _generate_key Demo.entropy Demo.c1 None (mkState (λ _, ∅) [] 3)
      = (Ok k1, st1') →
    _generate_key Demo.entropy Demo.c1 None (mkState (λ _, ∅) [] 4)
      = (Ok k2, st2') →
    (k1 = k2 ↔ @None string = None ∧ Demo.entropy 3 = Demo.entropy 4).
Proof.
  assert (H1 : (Demo.entropy 3 < 2 ^ 128)%N) by (vm_compute; reflexivity).
  assert (H2 : (Demo.entropy 4 < 2 ^ 128)%N) by (vm_compute; reflexivity).
  split; [exact H1 | split; [exact H2|]].
  intros k1 k2 st1' st2'.
  exact (same_context_keys_collide Demo.entropy Demo.entropy Demo.c1 None None
           (mkState (λ _, ∅) [] 3) (mkState (λ _, ∅) [] 4) st1' st2' k1 k2
           H1 H2 (or_introl eq_refl) (or_introl eq_refl)).
Defined.

(* ===================================================================== *)
(** * Keys on the engines *)
(* ===================================================================== *)

(** ** Deleting one key *)

Section DeleteFacts.

Variable Get_rank : engine → list Z → Z.
Variable local_call : engine → string → list string → gmap string value → outcome.

Lemma delete_key_eq (self : Context) (key : string) (st : state) :
  NoDup (targets self) → names_one_key self (Some key) = true →
  key ≠ "None" →
  let missing := List.filter (λ t, bool_decide (world st t !! key = None))
                             (targets self) in
  ∃ w',
    delete_key Get_rank local_call self (Some key) st
      = (match missing with
         | [] => Ok ()
         | _ :: _ => Raise (RemoteError missing)
         end,
         mkState w' (calls st ++ [Execute (CDel key) (targets self)])
                 (drawn st)) ∧
    (∀ t, t ∈ targets self → w' t = delete key (world st t)) ∧
    (∀ t, t ∉ targets self → w' t = world st t).
Proof.
  intros Hnd Hname Hkey missing.
  destruct (run_on Get_rank local_call (CDel key) (targets self) (world st))
    as [w' failed] eqn:Hrun.
  destruct (run_on_spec _ _ _ _ _ _ _ Hnd Hrun) as (Hout & Hin & Hf).
  assert (Hfailed : failed = missing).
  { rewrite Hf. apply List.filter_ext. intros t. unfold fails. simpl.
    rewrite decide_False by done. destruct (world st t !! key); [|done].
    by rewrite bool_decide_eq_false_2. }
  exists w'. split_and!; [| | done].
  - unfold delete_key, _execute, view_execute. rewrite Hname. cbn [str_of].
    rewrite Hrun, Hfailed. by destruct missing.
  - intros t Ht. specialize (Hin t Ht). simpl in Hin.
    rewrite decide_False in Hin by done.
    destruct (world st t !! key) eqn:Hk; [done|].
    rewrite Hin. symmetry. by apply delete_id.
Qed.

End DeleteFacts.

(** For a key that is a name (name characters, no digit in front, no
    keyword) other than [None], [delete_key(key)] sends [del key] to every
    target.  The key is unbound afterwards on every target, nothing else
    changes, and the call raises exactly when some target did not have the
    key: the error names those targets, and the targets that had the key
    have lost it all the same. *)
Theorem delete_key_spec
    (Get_rank : engine → list Z → Z)
    (local_call : engine → string → list string → gmap string value → outcome)
    (self : Context) (key : string) (st : state) :
  NoDup (targets self) → is_name key = true → key ≠ "None" →
  let missing := List.filter (λ t, bool_decide (world st t !! key = None))
                             (targets self) in
  ∃ st',
    delete_key Get_rank local_call self (Some key) st
      = (match missing with
         | [] => Ok ()
         | _ :: _ => Raise (RemoteError missing)
         end, st') ∧
    calls st' = calls st ++ [Execute (CDel key) (targets self)] ∧
    (∀ t, t ∈ targets self → world st' t = delete key (world st t)) ∧
    (∀ t, t ∉ targets self → world st' t = world st t).
Proof.
  intros Hnd Hname Hkey missing.
  assert (Hone : names_one_key self (Some key) = true).
  { unfold names_one_key. cbn [str_of]. by rewrite Hname. }
  destruct (delete_key_eq Get_rank local_call self key st Hnd Hone Hkey)
    as (w' & Hrun & Hin & Hout).
  eexists. split; [exact Hrun|]. by split_and!.
Qed.

(** [delete_key_spec] at the reserved key of the first context of the
    concrete pool *)
Lemma delete_key_spec_witness :
  NoDup (targets Demo.c1) ∧
  is_name "__distarray__comm_000000000000fa00_000000000000fa400000000000000000"
    = true ∧
  "__distarray__comm_000000000000fa00_000000000000fa400000000000000000" ≠ "None" ∧
  ∃ st',
    delete_key Demo.group_rank Demo.no_local Demo.c1
      (Some "__distarray__comm_000000000000fa00_000000000000fa400000000000000000")
      Demo.st1 = (Ok (), st') ∧
    ∀ t, t ∉ targets Demo.c1 → world st' t = world Demo.st1 t.
Proof.
  assert (H1 : NoDup (targets Demo.c1)).
  { apply (bool_decide_unpack _). vm_compute. exact I. }
  assert (H2 : "__distarray__comm_000000000000fa00_000000000000fa400000000000000000"
               ≠ "None") by discriminate.
  assert (H3 : is_name
                 "__distarray__comm_000000000000fa00_000000000000fa400000000000000000"
               = true) by (vm_compute; reflexivity).
  split; [exact H1 | split; [exact H3 | split; [exact H2|]]].
  destruct (delete_key_spec Demo.group_rank Demo.no_local Demo.c1 _ Demo.st1
              H1 H3 H2) as (st' & Hrun & _ & _ & Hout).
  exists st'. split; [exact Hrun | exact Hout].
Defined.

(** ** Pushing values under fresh keys *)

Lemma push_bindings_notin (d : list (string * pyobj)) (g : gmap string value)
    (k : string) :
  k ∉ d.*1 →
  foldl (λ g kv, <[kv.1 := value_of_pyobj kv.2]> g) g d !! k = g !! k.
Proof.
  revert g. induction d as [|[k0 v0] d IH]; intros g Hk; [done|]. simpl in *.
  apply not_elem_of_cons in Hk as [Hne Hk]. rewrite IH by done.
  by rewrite lookup_insert_ne.
Qed.

Lemma push_bindings_lookup (d : list (string * pyobj)) (g : gmap string value)
    (k : string) (v : pyobj) :
  NoDup d.*1 → (k, v) ∈ d →
  foldl (λ g kv, <[kv.1 := value_of_pyobj kv.2]> g) g d !! k
    = Some (value_of_pyobj v).
Proof.
  revert g. induction d as [|[k0 v0] d IH]; intros g Hnd Hin.
  - by apply elem_of_nil in Hin.
  - simpl in *. apply NoDup_cons in Hnd as [Hk0 Hnd].
    apply elem_of_cons in Hin as [[= -> ->]|Hin].
    + rewrite push_bindings_notin by done. apply lookup_insert_eq.
    + by apply IH.
Qed.

Lemma push_on_spec (d : list (string * pyobj)) (ts : list engine)
    (w : engine → gmap string value) :
  NoDup ts →
  (∀ t, t ∈ ts →
     push_on d ts w t = foldl (λ g kv, <[kv.1 := value_of_pyobj kv.2]> g) (w t) d) ∧
  (∀ t, t ∉ ts → push_on d ts w t = w t).
Proof.
  unfold push_on. intros Hnd. revert w.
  induction Hnd as [|t0 ts Ht0 Hnd IH]; intros w; simpl.
  - split; [|done]. intros t Ht. by apply elem_of_nil in Ht.
  - destruct (IH (<[t0 := foldl (λ g kv, <[kv.1 := value_of_pyobj kv.2]> g)
                              (w t0) d]> w)) as [Hin Hout]. split.
    + intros t [->|Ht]%elem_of_cons.
      * rewrite Hout by done. by rewrite fn_lookup_insert.
      * rewrite Hin by done. rewrite fn_lookup_insert_ne; [done|]. by intros ->.
    + intros t [Hne Ht]%not_elem_of_cons. rewrite Hout by done.
      by rewrite fn_lookup_insert_ne.
Qed.

Section PushFacts.

Variable entropy : nat → N.

Lemma generate_keys_eq (self : Context) (values : list pyobj) (st : state) :
  for_each (λ _ : pyobj, _generate_key entropy self None) values st =
    (Ok ((λ i, (_key_header self None +:+ "_")
                 +:+ uuid_hex (entropy (drawn st + i)))
           <$> seq 0 (length values)),
     mkState (world st) (calls st) (drawn st + length values)).
Proof.
  revert st. induction values as [|v values IH]; intros st.
  - simpl. rewrite Nat.add_0_r. by destruct st.
  - cbn [for_each]. rewrite bind_unfold, _generate_key_eq.
    rewrite bind_unfold, IH. cbn [world calls drawn length].
    unfold mret, M_ret.
    assert (Hl : (λ i, (_key_header self None +:+ "_")
                         +:+ uuid_hex (entropy (drawn st + i)))
                   <$> seq 0 (S (length values))
                 = ((_key_header self None +:+ "_")
                      +:+ uuid_hex (entropy (drawn st)))
                   :: ((λ i, (_key_header self None +:+ "_")
                               +:+ uuid_hex (entropy (S (drawn st) + i)))
                         <$> seq 0 (length values))).
    { cbn [seq fmap list_fmap]. rewrite Nat.add_0_r. f_equal.
      rewrite <- (fmap_S_seq 0), <- list_fmap_compose. apply list_fmap_ext.
      intros i x _. simpl. by rewrite Nat.add_succ_r. }
    rewrite Hl. by rewrite Nat.add_succ_r.
Qed.

End PushFacts.

(** [_key_and_push] draws one uuid per value, sends one push with
    the values under the generated keys, and returns the keys in the order
    of the values.  When the keys are pairwise different, every target then
    has each value bound under its key, and pulling a key gives back its
    value once per target. *)
Theorem key_and_push_then_pull
    (entropy : nat → N) (self : Context) (values : list pyobj) (st : state) :
  NoDup (targets self) →
  ∃ keys st',
    _key_and_push entropy self values st = (Ok keys, st') ∧
    length keys = length values ∧
    drawn st' = drawn st + length values ∧
    calls st' = calls st ++ [Push (zip keys values) (targets self)] ∧
    (NoDup keys →
     ∀ i k v, keys !! i = Some k → values !! i = Some v →
       (∀ t, t ∈ targets self → world st' t !! k = Some (value_of_pyobj v)) ∧
       _pull self k st'
         = (Ok (replicate (length (targets self)) (value_of_pyobj v)),
            mkState (world st') (calls st' ++ [Pull k (targets self)])
                    (drawn st'))).
Proof.
  intros Hnd.
  set (keys := (λ i, (_key_header self None +:+ "_")
                       +:+ uuid_hex (entropy (drawn st + i)))
                 <$> seq 0 (length values)).
  assert (Hlen : length keys = length values)
    by (unfold keys; by rewrite length_fmap, length_seq).
  destruct (push_on_spec (zip keys values) (targets self) (world st) Hnd)
    as [Hin _].
  eexists keys, _. split_and!.
  - unfold _key_and_push. rewrite (bind_ok _ _ _ _ _ (generate_keys_eq _ _ _ _)).
    fold keys. reflexivity.
  - done.
  - done.
  - done.
  - intros Hkeys i k v Hk Hv. cbn [world calls drawn].
    assert (Hb : ∀ t, t ∈ targets self →
              push_on (zip keys values) (targets self) (world st) t !! k
              = Some (value_of_pyobj v)).
    { intros t Ht. rewrite Hin by done. apply push_bindings_lookup.
      - rewrite fst_zip by lia. done.
      - apply list_elem_of_lookup. exists i. by rewrite lookup_zip_with, Hk, Hv. }
    split; [done|]. unfold _pull.
    rewrite (view_pull_ok k (targets self) (λ _, value_of_pyobj v)
               (mkState _ _ _) Hb).
    by rewrite (const_fmap _ _ (value_of_pyobj v)).
Qed.

(** [key_and_push_then_pull] at the first context of the concrete pool *)
Lemma key_and_push_then_pull_witness :
  NoDup (targets Demo.c1) ∧
  ∃ keys st',
    _key_and_push Demo.entropy Demo.c1 [PStr "a"; PStr "b"] Demo.st1
      = (Ok keys, st') ∧
    length keys = 2.
Proof.
  assert (H1 : NoDup (targets Demo.c1)).
  { apply (bool_decide_unpack _). vm_compute. exact I. }
  split; [exact H1|].
  destruct (key_and_push_then_pull Demo.entropy Demo.c1 [PStr "a"; PStr "b"]
              Demo.st1 H1) as (keys & st' & Hrun & Hlen & _).
  exists keys, st'. split; [exact Hrun | exact Hlen].
Defined.

(** ** The listing of [dump_keys] *)

Lemma collect_inner_lookup (t : engine) (l : list string)
    (ek : gmap string (list engine)) (key : string) :
  NoDup l →
  foldl (λ ek key,
           alter (λ l, l ++ [t]) key
                 (match ek !! key with
                  | Some _ => ek
                  | None => <[key := []]> ek
                  end)) ek l !! key
  = if bool_decide (key ∈ l) then Some (default [] (ek !! key) ++ [t])
    else ek !! key.
Proof.
  intros Hnd. revert ek.
  induction Hnd as [|key0 l Hk0 Hnd IH]; intros ek; [done|].
  cbn [foldl]. rewrite IH.
  set (ek1 := alter (λ l0, l0 ++ [t]) key0
                (match ek !! key0 with
                 | Some _ => ek
                 | None => <[key0 := []]> ek
                 end)).
  assert (H0 : ek1 !! key0 = Some (default [] (ek !! key0) ++ [t])).
  { unfold ek1. rewrite lookup_alter_eq. destruct (ek !! key0) eqn:He.
    - by rewrite He.
    - by rewrite lookup_insert_eq. }
  assert (Hne : ∀ k, k ≠ key0 → ek1 !! k = ek !! k).
  { intros k Hk. unfold ek1. rewrite lookup_alter_ne by done.
    destruct (ek !! key0); [done|]. by rewrite lookup_insert_ne. }
  destruct (decide (key = key0)) as [->|Hkey].
  - rewrite (bool_decide_eq_false_2 (key0 ∈ l)) by done.
    by rewrite (bool_decide_eq_true_2 (key0 ∈ key0 :: l)) by left.
  - rewrite Hne by done.
    assert (bool_decide (key ∈ key0 :: l) = bool_decide (key ∈ l)) as ->; [|done].
    apply bool_decide_ext. rewrite elem_of_cons. intuition congruence.
Qed.

Lemma collect_outer_lookup (pairs : list (engine * list string))
    (acc : gmap string (list engine)) (key : string) :
  (∀ p, p ∈ pairs → NoDup p.2) →
  foldl (λ ek p,
           foldl (λ ek key,
                    alter (λ l, l ++ [p.1]) key
                          (match ek !! key with
                           | Some _ => ek
                           | None => <[key := []]> ek
                           end)) ek p.2) acc pairs !! key
  = match (List.filter (λ p, bool_decide (key ∈ p.2)) pairs).*1 with
    | [] => acc !! key
    | t :: hs => Some (default [] (acc !! key) ++ t :: hs)
    end.
Proof.
  revert acc. induction pairs as [|[t l] pairs IH]; intros acc Hnd; [done|].
  cbn [foldl List.filter fst snd].
  rewrite IH by (intros p Hp; apply Hnd; by right).
  rewrite (collect_inner_lookup t l acc key) by (apply (Hnd (t, l)); left).
  case_bool_decide; cbn [fmap list_fmap fst].
  - destruct (List.filter _ pairs).*1 as [|t' hs]; simpl; [done|].
    by rewrite <- app_assoc.
  - done.
Qed.

Lemma collect_keys_pairs (ts : list engine) (listed : engine → list string) :
  collect_keys ts (listed <$> ts)
  = foldl (λ ek p,
             foldl (λ ek key,
                      alter (λ l, l ++ [p.1]) key
                            (match ek !! key with
                             | Some _ => ek
                             | None => <[key := []]> ek
                             end)) ek p.2)
          ∅ ((λ t, (t, listed t)) <$> ts).
Proof.
  unfold collect_keys. cbv zeta.
  assert (Hp : (λ t, (t, listed t)) <$> ts
               = (λ ik : nat * list string, (default 0%nat (ts !! ik.1), ik.2))
                   <$> imap (λ i l, (i, l)) (listed <$> ts)).
  { apply list_eq. intros i.
    rewrite !list_lookup_fmap, list_lookup_imap, list_lookup_fmap.
    destruct (ts !! i) as [t|] eqn:Ht; [|done].
    cbn [fmap option_fmap option_map fst snd]. do 2 f_equal.
    symmetry. exact (f_equal (default 0%nat) Ht). }
  rewrite Hp, foldl_fmap. done.
Qed.

Lemma collect_keys_lookup (ts : list engine) (listed : engine → list string)
    (key : string) :
  (∀ t, NoDup (listed t)) →
  collect_keys ts (listed <$> ts) !! key
  = match List.filter (λ t, bool_decide (key ∈ listed t)) ts with
    | [] => None
    | t :: hs => Some (t :: hs)
    end.
Proof.
  intros Hnd. rewrite collect_keys_pairs, collect_outer_lookup.
  - assert (Hf : (List.filter (λ p : engine * list string,
                                 bool_decide (key ∈ p.2))
                              ((λ t, (t, listed t)) <$> ts)).*1
                 = List.filter (λ t, bool_decide (key ∈ listed t)) ts).
    { induction ts as [|t ts IH]; [done|]. cbn [fmap list_fmap List.filter].
      cbn [snd]. destruct (bool_decide (key ∈ listed t)); cbn [fmap list_fmap];
        [f_equal|]; apply IH. }
    rewrite Hf. by destruct (List.filter _ ts).
  - intros p (t & -> & _)%list_elem_of_fmap. apply Hnd.
Qed.

Section ListingFacts.

Variable Get_rank : engine → list Z → Z.
Variable local_call : engine → string → list string → gmap string value → outcome.
Variable entropy : nat → N.

(** the value [dump_keys] returns for a prefix of name characters *)
Lemma dump_keys_result (self : Context) (prefix : option string)
    (all_contexts : bool) (st : state) :
  NoDup (targets self) → plain (default "" prefix) = true →
  let header := if all_contexts then _key_base prefix
                else _key_header self prefix in
  let listed := λ t, List.filter (λ k, startswith k header)
                                 (keys (world st t)) in
  let engine_keys := collect_keys (targets self) (listed <$> targets self) in
  ∃ st',
    dump_keys Get_rank local_call entropy self prefix all_contexts st
      = (Ok ((λ key, (key, default [] (engine_keys !! key)))
               <$> merge_sort String.le (map_to_list engine_keys).*1), st').
Proof.
  intros Hnd Hplain header listed engine_keys.
  set (dump_key := (_key_header self None +:+ "_")
                     +:+ uuid_hex (entropy (drawn st))).
  set (st1 := mkState (world st) (calls st) (S (drawn st))).
  destruct (run_on_total Get_rank local_call (CListKeys dump_key header)
              (targets self) (world st)
              (λ _ g, <[dump_key := VStrs (List.filter (λ k, startswith k header)
                                                       (keys g))]>
                        (match last (keys g) with
                         | Some k => <["k" := VStr k]> g
                         | None => g
                         end)))
    as (w' & Hrun & Hin & Hout); [done | done |].
  set (st2 := mkState w' (calls st ++ [Execute (CListKeys dump_key header)
                                               (targets self)]) (S (drawn st))).
  set (st3 := mkState w' ((calls st ++ [Execute (CListKeys dump_key header)
                                                (targets self)])
                            ++ [Pull dump_key (targets self)]) (S (drawn st))).
  assert (Hpull : ∀ t, t ∈ targets self →
            world st2 t !! dump_key = Some (VStrs (listed t))).
  { intros t Ht. cbn [st2 world]. rewrite Hin by done. apply lookup_insert_eq. }
  set (unlist := λ v, match v with VStrs l => l | _ => [] end).
  assert (Hfor : for_each (λ v, match v with
                                | VStrs l => mret l
                                | _ => raise (TypeError "not a list of names")
                                end)
                          ((λ t, VStrs (listed t)) <$> targets self) st3
                 = (Ok (listed <$> targets self), st3)).
  { rewrite (for_each_ok _ unlist).
    - by rewrite <- list_fmap_compose.
    - by intros v (t & -> & _)%list_elem_of_fmap. }
  exists st3. unfold dump_keys. fold header.
  rewrite bind_unfold, _generate_key_eq. fold dump_key st1.
  unfold _execute, _pull, list_keys_code. rewrite Hplain.
  rewrite (bind_ok _ _ _ _ _ (view_execute_ok _ _ _ _ _ st1 _ Hrun)).
  fold st2.
  rewrite (bind_ok _ _ _ _ _ (view_pull_ok _ _ _ st2 Hpull)). fold st3.
  rewrite (bind_ok _ _ _ _ _ Hfor). reflexivity.
Qed.

End ListingFacts.

Lemma listed_keys_spec (header key : string) (g : gmap string value) :
  key ∈ List.filter (λ k, startswith k header) (keys g) ↔
  startswith key header = true ∧ is_Some (g !! key).
Proof.
  rewrite list_elem_of_In, List.filter_In, <- list_elem_of_In, keys_elem_of.
  tauto.
Qed.

Lemma listed_keys_NoDup (header : string) (g : gmap string value) :
  NoDup (List.filter (λ k, startswith k header) (keys g)).
Proof.
  apply NoDup_ListNoDup, List.NoDup_filter, NoDup_ListNoDup, keys_NoDup.
Qed.

(** With no prefix, or a prefix made of name characters, [dump_keys]
    returns, and its listing is sorted by key name and names no key twice.
    It holds the pair of a key and a target list exactly when the key
    starts with the dumped header and was bound on some target before the
    call, and the list is then the list of the targets that had the key, in
    the order of [self.targets]. *)
Theorem dump_keys_listing
    (Get_rank : engine → list Z → Z)
    (local_call : engine → string → list string → gmap string value → outcome)
    (entropy : nat → N)
    (self : Context) (prefix : option string) (all_contexts : bool)
    (st : state) :
  NoDup (targets self) → plain (default "" prefix) = true →
  let header := if all_contexts then _key_base prefix
                else _key_header self prefix in
  let holders := λ key,
    List.filter (λ t, startswith key header
                      && bool_decide (is_Some (world st t !! key)))
                (targets self) in
  ∃ listing st',
    dump_keys Get_rank local_call entropy self prefix all_contexts st
      = (Ok listing, st') ∧
    Sorted String.le listing.*1 ∧
    NoDup listing.*1 ∧
    ∀ key l, (key, l) ∈ listing ↔ l ≠ [] ∧ l = holders key.
Proof.
  intros Hnd Hplain header holders.
  destruct (dump_keys_result Get_rank local_call entropy self prefix
              all_contexts st Hnd Hplain) as (st' & Hrun).
  fold header in Hrun.
  set (listed := λ t, List.filter (λ k, startswith k header)
                                  (keys (world st t))) in *.
  set (ek := collect_keys (targets self) (listed <$> targets self)) in *.
  assert (Hek : ∀ key, ek !! key = match holders key with
                                   | [] => None
                                   | t :: hs => Some (t :: hs)
                                   end).
  { intros key. unfold ek. rewrite collect_keys_lookup
      by (intros t; apply listed_keys_NoDup).
    assert (List.filter (λ t, bool_decide (key ∈ listed t)) (targets self)
            = holders key) as ->; [|done].
    apply List.filter_ext. intros t. unfold listed.
    destruct (startswith key header) eqn:Hs; cbn [andb].
    - apply bool_decide_ext. rewrite listed_keys_spec. tauto.
    - apply bool_decide_eq_false_2. rewrite listed_keys_spec. rewrite Hs.
      by intros [? _]. }
  eexists _, st'. split; [exact Hrun|].
  rewrite (fst_pair_with (λ key, default [] (ek !! key))).
  split_and!.
  - apply Sorted_merge_sort, _.
  - rewrite merge_sort_Permutation. apply NoDup_fst_map_to_list.
  - intros key l. rewrite list_elem_of_fmap. split.
    + intros (key' & [= <- ->] & Hin).
      rewrite merge_sort_Permutation, elem_of_map_keys in Hin.
      apply elem_of_dom in Hin as [l Hl]. rewrite Hl. cbn [default].
      rewrite Hek in Hl. destruct (holders key); [done|].
      by injection Hl as <-.
    + intros [Hne ->]. exists key. split.
      * rewrite Hek. by destruct (holders key).
      * rewrite merge_sort_Permutation, elem_of_map_keys. apply elem_of_dom.
        rewrite Hek. destruct (holders key); [done | by eexists].
Qed.

(** [dump_keys_listing] at the first context of the concrete pool, asked
    for the keys of all contexts with the prefix [comm] *)
Lemma dump_keys_listing_witness :
  NoDup (targets Demo.c1) ∧ plain (default "" (Some "comm")) = true ∧
  ∃ listing st',
    dump_keys Demo.group_rank Demo.no_local Demo.entropy Demo.c1 (Some "comm")
              true Demo.st1 = (Ok listing, st') ∧
    Sorted String.le listing.*1 ∧ NoDup listing.*1.
Proof.
  assert (H1 : NoDup (targets Demo.c1)).
  { apply (bool_decide_unpack _). vm_compute. exact I. }
  assert (H2 : plain (default "" (Some "comm")) = true) by reflexivity.
  split; [exact H1 | split; [exact H2|]].
  destruct (dump_keys_listing Demo.group_rank Demo.no_local Demo.entropy
              Demo.c1 (Some "comm") true Demo.st1 H1 H2)
    as (listing & st' & Hrun & Hsorted & Hnd & _).
  exists listing, st'. split; [exact Hrun | split; [exact Hsorted | exact Hnd]].
Defined.

(* ===================================================================== *)
(** * The life of a context *)
(* ===================================================================== *)

Section CreatedFacts.

Variable Get_rank : engine → list Z → Z.
Variable local_call : engine → string → list string → gmap string value → outcome.
Variable entropy : nat → N.
Variable private_rank : engine → Z.
Variable private_size : engine → Z.
Variable default_client : Client.

(** a successful [__init__], with the namespaces it leaves *)
Lemma __init___ok (client : option Client) (requested : option (list engine))
    (st : state) :
  let view := ids (default default_client client) in
  let ts := default view requested in
  let ranks := private_rank <$> ts in
  let kc := slice_to 16 (uuid_hex (entropy (drawn st))) in
  let loaded := λ t, <["numpy" := VModule]>
                       (<["distarray" := VModule]> (world st t)) in
  NoDup view → ts ≠ [] → NoDup ts → (∀ t, t ∈ ts → t ∈ view) →
  view_covers_ranks private_rank private_size view →
  ranks_aligned Get_rank ranks ts →
  ∃ self st' ck rk,
    __init__ Get_rank local_call entropy private_rank private_size
             default_client client requested st = (Ok self, st') ∧
    view_targets self = view ∧ key_context self = kc ∧
    _comm_key self = Some (Some ck) ∧
    ck = (_key_header self (Some "comm") +:+ "_")
           +:+ uuid_hex (entropy (S (drawn st))) ∧
    rk = (_key_header self None +:+ "_")
           +:+ uuid_hex (entropy (S (S (drawn st)))) ∧
    targets self ≡ₚ ts ∧
    (∀ i t, targets self !! i = Some t → Get_rank t ranks = Z.of_nat i) ∧
    (∀ t, t ∈ ts →
       world st' t = <[rk := VInt (Get_rank t ranks)]>
                       (<[ck := VComm ranks]> (loaded t))) ∧
    (∀ t, t ∈ view → t ∉ ts →
       world st' t = <[ck := VComm ranks]> (loaded t)) ∧
    (∀ t, t ∉ view → world st' t = world st t).
Proof.
  intros view ts ranks kc loaded Hndv Hne Hnd Hsub Hcov Hal.
  destruct (__init___prefix Get_rank local_call entropy private_rank
              private_size default_client client requested st Hndv Hsub)
    as (w0 & Hin0 & Hout0 & ->).
  fold kc.
  set (self0 := mkContext view ts kc None).
  set (st0 := mkState w0 (calls st ++ [Execute CImport view]) (S (drawn st))).
  destruct (_make_intracomm_eq Get_rank local_call entropy private_rank
              private_size self0 st0 Hndv Hne Hsub) as [Hmake _].
  destruct (Hmake Hcov) as (w1 & Hrun1 & Hin1 & Hout1). clear Hmake.
  cbn [view_targets targets key_context self0 st0 world calls drawn]
    in Hrun1, Hin1, Hout1.
  fold ranks in Hrun1, Hin1.
  set (ck := (_key_header self0 (Some "comm") +:+ "_")
               +:+ uuid_hex (entropy (S (drawn st)))) in *.
  set (self1 := mkContext view ts kc (Some (Some ck))) in *.
  match type of Hrun1 with _ = (_, ?s) => set (st1 := s) in * end.
  destruct (_set_engine_rank_mapping_eq Get_rank local_call entropy self1 st1
              ck ranks eq_refl Hne Hnd) as (w2 & Hin2 & Hout2 & Hok & _).
  { intros t Ht. cbn [st1 world]. rewrite Hin1 by (by apply Hsub).
    apply lookup_insert_eq. }
  cbn [targets self1 st1 world drawn] in Hin2, Hout2, Hok.
  destruct (Hok (ranks_aligned_set Get_rank ranks ts Hal))
    as (ts' & Hrun2 & Hf & Hperm).
  destruct (ranks_aligned_of_order Get_rank ranks ts ts' Hf Hperm)
    as (_ & _ & Hidx).
  eexists _, _, ck, _. split.
  { rewrite (bind_ok _ _ _ _ _ Hrun1). exact Hrun2. }
  cbn [view_targets key_context _comm_key targets world].
  split_and!; try done.
  - intros t Ht. rewrite Hin2, Hin1, Hin0 by auto. done.
  - intros t Hv Ht. rewrite Hout2, Hin1, Hin0 by auto. done.
  - intros t Hv. rewrite Hout2, Hout1, Hout0; [done | done | done |].
    intros Ht. by apply Hv, Hsub.
Qed.

End CreatedFacts.

(** ** What a context leaves behind *)

Section LeftoverFacts.

Variable Get_rank : engine → list Z → Z.
Variable local_call : engine → string → list string → gmap string value → outcome.

(** [_cleanup_keys] of a context that has its reserved key: the purge,
    then the deletion, which fails on the targets that lack the key *)
Lemma _cleanup_keys_eq (self : Context) (st : state) (ck : string) :
  wf_key_context (key_context self) → NoDup (targets self) →
  _comm_key self = Some (Some ck) →
  startswith ck (_key_header self (Some "comm")) = true →
  let missing := List.filter (λ t, bool_decide (world st t !! ck = None))
                             (targets self) in
  ∃ st',
    _cleanup_keys Get_rank local_call self st
      = (match missing with
         | [] => Ok (mkContext (view_targets self) (targets self)
                               (key_context self) (Some None))
         | _ :: _ => Raise (RemoteError missing)
         end, st') ∧
    (∀ t, t ∈ targets self → world st' t !! ck = None) ∧
    (∀ t, t ∉ targets self → world st' t = world st t).
Proof.
  intros Hwf Hnd Hck Hres missing.
  destruct (reserved_key_facts self ck Hwf Hres) as (HnNone & Hnk & Hplain).
  destruct (purge_keys_own Get_rank local_call self st Hnd)
    as (st1 & Hpurge & _ & Hout1 & Hin1 & _).
  assert (Hone : names_one_key self (Some ck) = true).
  { unfold names_one_key. by rewrite (bool_decide_eq_true_2 _ Hck), orb_true_r. }
  destruct (delete_key_eq Get_rank local_call self ck st1 Hnd Hone HnNone)
    as (w2 & Hdel & Hin2 & Hout2).
  assert (Hmissing :
    List.filter (λ t, bool_decide (world st1 t !! ck = None)) (targets self)
    = missing).
  { apply List.filter_ext_in. intros t Ht%list_elem_of_In.
    by rewrite Hin1, Hplain. }
  rewrite Hmissing in Hdel.
  eexists. split_and!.
  - unfold _cleanup_keys. rewrite (bind_ok _ _ _ _ _ Hpurge), Hck.
    rewrite bind_unfold, Hdel. by destruct missing.
  - intros t Ht. cbn [world]. rewrite Hin2 by done. apply lookup_delete_eq.
  - intros t Ht. cbn [world]. by rewrite Hout2, Hout1.
Qed.

End LeftoverFacts.

(** The communicator is created on every engine of the view and deleted
    only on the targets: after a context on a part of the pool has been
    created and torn down, each engine of the view that is not a target
    still has the context's reserved key bound to the communicator. *)
Theorem comm_key_outlives_teardown
    (Get_rank : engine → list Z → Z)
    (local_call : engine → string → list string → gmap string value → outcome)
    (entropy : nat → N) (private_rank private_size : engine → Z)
    (default_client : Client)
    (client : option Client) (requested : option (list engine)) (st : state) :
  let view := ids (default default_client client) in
  let ts := default view requested in
  let ranks := private_rank <$> ts in
  NoDup view → ts ≠ [] → NoDup ts → (∀ t, t ∈ ts → t ∈ view) →
  view_covers_ranks private_rank private_size view →
  ranks_aligned Get_rank ranks ts →
  ∃ self st' ck self' st'',
    __init__ Get_rank local_call entropy private_rank private_size
             default_client client requested st = (Ok self, st') ∧
    _comm_key self = Some (Some ck) ∧
    _cleanup_keys Get_rank local_call self st' = (Ok self', st'') ∧
    (∀ t, t ∈ ts → world st'' t !! ck = None) ∧
    (∀ t, t ∈ view → t ∉ ts → world st'' t !! ck = Some (VComm ranks)).
Proof.
  intros view ts ranks Hndv Hne Hnd Hsub Hcov Hal. subst ranks ts view.
  destruct (__init___ok Get_rank local_call entropy private_rank private_size
              default_client client requested st Hndv Hne Hnd Hsub Hcov Hal)
    as (self & st' & ck & rk & Hinit & _ & Hkc & Hck & Hckeq & Hrkeq & Hperm
        & _ & Hin & Hout & _).
  assert (Hkeys : rk ≠ ck).
  { rewrite Hrkeq, Hckeq. intros Heq. apply (f_equal String.length) in Heq.
    rewrite !key_length, !uuid_hex_length in Heq. simpl in Heq. lia. }
  assert (Hwf : wf_key_context (key_context self))
    by (rewrite Hkc; apply key_context_wf).
  assert (Hnd' : NoDup (targets self)) by (by rewrite Hperm).
  assert (Hres : startswith ck (_key_header self (Some "comm")) = true).
  { rewrite Hckeq, app_assoc'. apply startswith_app. }
  destruct (_cleanup_keys_eq Get_rank local_call self st' ck Hwf Hnd' Hck Hres)
    as (st'' & Hclean & Hgone & Hkept).
  rewrite filter_none in Hclean; cycle 1.
  { intros t Ht. rewrite Hperm in Ht. rewrite Hin by done.
    rewrite lookup_insert_ne, lookup_insert_eq by done.
    by apply bool_decide_eq_false_2. }
  eexists self, st', ck, _, st''. split_and!; [done | done | exact Hclean | |].
  - intros t Ht. apply Hgone. by rewrite Hperm.
  - intros t Hv Ht. rewrite Hkept by (by rewrite Hperm).
    rewrite Hout by done. apply lookup_insert_eq.
Qed.

(** [comm_key_outlives_teardown] at the concrete pool, asked for the
    engines 2 and 0: engine 1 keeps the communicator *)
Lemma comm_key_outlives_teardown_witness :
  NoDup (ids Demo.pool) ∧ NoDup [2; 0]%nat ∧
  (∀ t, t ∈ [2; 0]%nat → t ∈ ids Demo.pool) ∧
  view_covers_ranks Demo.mpi_rank Demo.mpi_size (ids Demo.pool) ∧
  ranks_aligned Demo.group_rank (Demo.mpi_rank <$> [2; 0]%nat) [2; 0]%nat ∧
  ∃ self st' ck self' st'',
    Demo.create None (Some [2; 0]%nat) Demo.st0 = (Ok self, st') ∧
    _comm_key self = Some (Some ck) ∧
    _cleanup_keys Demo.group_rank Demo.no_local self st' = (Ok self', st'') ∧
    world st'' 1%nat !! ck = Some (VComm (Demo.mpi_rank <$> [2; 0]%nat)).
Proof.
  assert (H1 : NoDup (ids Demo.pool)).
  { apply (bool_decide_unpack _). vm_compute. exact I. }
  assert (H2 : NoDup [2; 0]%nat).
  { apply (bool_decide_unpack _). vm_compute. exact I. }
  assert (H3 : ∀ t, t ∈ [2; 0]%nat → t ∈ ids Demo.pool).
  { apply Forall_forall. apply (bool_decide_unpack _). vm_compute. exact I. }
  assert (H4 : view_covers_ranks Demo.mpi_rank Demo.mpi_size (ids Demo.pool)).
  { unfold view_covers_ranks. cbn [ids Demo.pool].
    apply (bool_decide_unpack _). vm_compute. exact I. }
  assert (H5 : ranks_aligned Demo.group_rank (Demo.mpi_rank <$> [2; 0]%nat)
                             [2; 0]%nat).
  { unfold ranks_aligned. vm_compute. reflexivity. }
  assert (H0 : [2; 0]%nat ≠ []) by discriminate.
  assert (H6 : 1%nat ∈ ids Demo.pool).
  { apply (bool_decide_unpack _). vm_compute. exact I. }
  assert (H7 : 1%nat ∉ [2; 0]%nat).
  { apply (bool_decide_unpack _). vm_compute. exact I. }
  split; [exact H1 | split; [exact H2 | split; [exact H3 |
    split; [exact H4 | split; [exact H5|]]]]].
  destruct (comm_key_outlives_teardown Demo.group_rank Demo.no_local
              Demo.entropy Demo.mpi_rank Demo.mpi_size Demo.pool None
              (Some [2; 0]%nat) Demo.st0 H1 H0 H2 H3 H4 H5)
    as (self & st' & ck & self' & st'' & Ha & Hb & Hc & _ & Hd).
  exists self, st', ck, self', st''.
  split; [exact Ha | split; [exact Hb | split; [exact Hc | exact (Hd 1%nat H6 H7)]]].
Defined.

(** The scratch key of the rank query is never deleted: in a context just
    created, the target at position [i] has an ordinary key of the context
    bound to the number [i], its rank in the communicator, so the context
    starts with one live key on every target. *)
Theorem rank_key_stays_bound
    (Get_rank : engine → list Z → Z)
    (local_call : engine → string → list string → gmap string value → outcome)
    (entropy : nat → N) (private_rank private_size : engine → Z)
    (default_client : Client)
    (client : option Client) (requested : option (list engine)) (st : state) :
  let view := ids (default default_client client) in
  let ts := default view requested in
  let ranks := private_rank <$> ts in
  NoDup view → ts ≠ [] → NoDup ts → (∀ t, t ∈ ts → t ∈ view) →
  view_covers_ranks private_rank private_size view →
  ranks_aligned Get_rank ranks ts →
  ∃ self st' rk,
    __init__ Get_rank local_call entropy private_rank private_size
             default_client client requested st = (Ok self, st') ∧
    ∀ i t, targets self !! i = Some t →
      world st' t !! rk = Some (VInt (Z.of_nat i)) ∧
      rk ∈ live_keys self (world st' t).
Proof.
  intros view ts ranks Hndv Hne Hnd Hsub Hcov Hal. subst ranks ts view.
  destruct (__init___ok Get_rank local_call entropy private_rank private_size
              default_client client requested st Hndv Hne Hnd Hsub Hcov Hal)
    as (self & st' & ck & rk & Hinit & _ & _ & _ & _ & Hrkeq & Hperm
        & Hidx & Hin & _ & _).
  exists self, st', rk. split; [done|]. intros i t Hi.
  assert (Ht : t ∈ default (ids (default default_client client)) requested).
  { rewrite <- Hperm. by eapply list_elem_of_lookup_2. }
  assert (Hb : world st' t !! rk = Some (VInt (Z.of_nat i))).
  { rewrite Hin by done. rewrite lookup_insert_eq. by rewrite (Hidx i t Hi). }
  split; [done|]. apply elem_of_live_keys. split; [|by eexists].
  rewrite Hrkeq. apply own_key_header.
Qed.

(** [rank_key_stays_bound] at the concrete pool, asked for the engines 2
    and 0 *)
Lemma rank_key_stays_bound_witness :
  NoDup (ids Demo.pool) ∧ NoDup [2; 0]%nat ∧
  (∀ t, t ∈ [2; 0]%nat → t ∈ ids Demo.pool) ∧
  view_covers_ranks Demo.mpi_rank Demo.mpi_size (ids Demo.pool) ∧
  ranks_aligned Demo.group_rank (Demo.mpi_rank <$> [2; 0]%nat) [2; 0]%nat ∧
  ∃ self st' rk,
    Demo.create None (Some [2; 0]%nat) Demo.st0 = (Ok self, st') ∧
    ∀ i t, targets self !! i = Some t →
      world st' t !! rk = Some (VInt (Z.of_nat i)) ∧
      rk ∈ live_keys self (world st' t).
Proof.
  assert (H1 : NoDup (ids Demo.pool)).
  { apply (bool_decide_unpack _). vm_compute. exact I. }
  assert (H2 : NoDup [2; 0]%nat).
  { apply (bool_decide_unpack _). vm_compute. exact I. }
  assert (H3 : ∀ t, t ∈ [2; 0]%nat → t ∈ ids Demo.pool).
  { apply Forall_forall. apply (bool_decide_unpack _). vm_compute. exact I. }
  assert (H4 : view_covers_ranks Demo.mpi_rank Demo.mpi_size (ids Demo.pool)).
  { unfold view_covers_ranks. cbn [ids Demo.pool].
    apply (bool_decide_unpack _). vm_compute. exact I. }
  assert (H5 : ranks_aligned Demo.group_rank (Demo.mpi_rank <$> [2; 0]%nat)
                             [2; 0]%nat).
  { unfold ranks_aligned. vm_compute. reflexivity. }
  assert (H0 : [2; 0]%nat ≠ []) by discriminate.
  split; [exact H1 | split; [exact H2 | split; [exact H3 |
    split; [exact H4 | split; [exact H5|]]]]].
  exact (rank_key_stays_bound Demo.group_rank Demo.no_local
           Demo.entropy Demo.mpi_rank Demo.mpi_size Demo.pool None
           (Some [2; 0]%nat) Demo.st0 H1 H0 H2 H3 H4 H5).
Defined.

(** ** How the operations compose *)

(** After one context has swept the keys of all contexts, the teardown of
    another context that shares a target with it raises: the sweep has
    removed the other context's reserved key from the shared targets, and
    the [del] of the teardown fails there. *)
Theorem teardown_after_foreign_sweep
    (Get_rank : engine → list Z → Z)
    (local_call : engine → string → list string → gmap string value → outcome)
    (self other : Context) (st : state) (r : string) :
  wf_key_context (key_context self) → wf_key_context (key_context other) →
  key_context other ≠ key_context self →
  NoDup (targets self) → NoDup (targets other) →
  _comm_key other
    = Some (Some ((_key_header other (Some "comm") +:+ "_") +:+ r)) →
  (∃ t, t ∈ targets self ∧ t ∈ targets other) →
  ∃ st1 failed st2,
    purge_keys Get_rank local_call self None true st = (Ok (), st1) ∧
    _cleanup_keys Get_rank local_call other st1
      = (Raise (RemoteError failed), st2) ∧
    ∀ t, t ∈ targets self → t ∈ targets other → t ∈ failed.
Proof.
  intros Hwf Hwf' Hne Hnd Hnd' Hck (t0 & Ht0 & Ht0').
  set (ck := (_key_header other (Some "comm") +:+ "_") +:+ r) in *.
  destruct (purge_world Get_rank local_call
              (CPurgeAll (_key_base None) (_key_header self (Some "comm")))
              (λ k, startswith k (_key_base None)
                    && negb (startswith k (_key_header self (Some "comm"))))
              (targets self) (world st))
    as (w1 & Hrun & _ & Hin & _); [done | done | done |].
  set (st1 := mkState w1 (calls st ++ [Execute (CPurgeAll (_key_base None)
                (_key_header self (Some "comm"))) (targets self)]) (drawn st)).
  assert (Hres : startswith ck (_key_header other (Some "comm")) = true).
  { unfold ck. rewrite app_assoc'. apply startswith_app. }
  assert (Hgone : ∀ t, t ∈ targets self → world st1 t !! ck = None).
  { intros t Ht. cbn [st1 world]. rewrite Hin; [| done |].
    - unfold ck. by rewrite key_base_prefix, foreign_comm_header.
    - by destruct (reserved_key_facts other ck Hwf' Hres) as (_ & ? & _). }
  destruct (_cleanup_keys_eq Get_rank local_call other st1 ck Hwf' Hnd' Hck Hres)
    as (st2 & Hclean & _ & _).
  assert (Hfailed : ∀ t, t ∈ targets self → t ∈ targets other →
            t ∈ List.filter (λ t, bool_decide (world st1 t !! ck = None))
                            (targets other)).
  { intros t Ht Ht'. apply list_elem_of_In, List.filter_In. split.
    - by apply list_elem_of_In.
    - apply bool_decide_eq_true_2. by apply Hgone. }
  destruct (List.filter (λ t, bool_decide (world st1 t !! ck = None))
                        (targets other)) as [|t1 failed] eqn:Hf.
  { specialize (Hfailed t0 Ht0 Ht0'). by apply elem_of_nil in Hfailed. }
  exists st1, (t1 :: failed), st2. split_and!; [| exact Hclean | done].
  unfold purge_keys, _execute. by apply view_execute_eq.
Qed.

(** [teardown_after_foreign_sweep] at the two contexts of the concrete
    pool: the first sweeps, the teardown of the second fails *)
Lemma teardown_after_foreign_sweep_witness :
  wf_key_context (key_context Demo.c1) ∧ wf_key_context (key_context Demo.c2) ∧
  key_context Demo.c2 ≠ key_context Demo.c1 ∧
  NoDup (targets Demo.c1) ∧ NoDup (targets Demo.c2) ∧
  (∃ t, t ∈ targets Demo.c1 ∧ t ∈ targets Demo.c2) ∧
  ∃ st1 failed st2,
    purge_keys Demo.group_rank Demo.no_local Demo.c1 None true Demo.st2
      = (Ok (), st1) ∧
    _cleanup_keys Demo.group_rank Demo.no_local Demo.c2 st1
      = (Raise (RemoteError failed), st2) ∧
    ∀ t, t ∈ targets Demo.c1 → t ∈ targets Demo.c2 → t ∈ failed.
Proof.
  assert (H1 : wf_key_context (key_context Demo.c1))
    by (vm_compute; split; reflexivity).
  assert (H2 : wf_key_context (key_context Demo.c2))
    by (vm_compute; split; reflexivity).
  assert (H3 : key_context Demo.c2 ≠ key_context Demo.c1).
  { apply (bool_decide_unpack _). vm_compute. exact I. }
  assert (H4 : NoDup (targets Demo.c1)).
  { apply (bool_decide_unpack _). vm_compute. exact I. }
  assert (H5 : NoDup (targets Demo.c2)).
  { apply (bool_decide_unpack _). vm_compute. exact I. }
  assert (H6 : _comm_key Demo.c2
               = Some (Some ((_key_header Demo.c2 (Some "comm") +:+ "_")
                               +:+ "000000000000fb000000000000000000")))
    by (vm_compute; reflexivity).
  assert (H7 : ∃ t, t ∈ targets Demo.c1 ∧ t ∈ targets Demo.c2).
  { exists 0%nat. split; apply (bool_decide_unpack _); vm_compute; exact I. }
  split; [exact H1 | split; [exact H2 | split; [exact H3 | split; [exact H4 |
    split; [exact H5 | split; [exact H7|]]]]]].
  exact (teardown_after_foreign_sweep Demo.group_rank Demo.no_local
           Demo.c1 Demo.c2 Demo.st2 _ H1 H2 H3 H4 H5 H6 H7).
Defined.

(** After [purge_keys()], [dump_keys()] of the same context lists nothing:
    no target has a name with the context's header left. *)
Theorem dump_after_purge_is_empty
    (Get_rank : engine → list Z → Z)
    (local_call : engine → string → list string → gmap string value → outcome)
    (entropy : nat → N) (self : Context) (st : state) :
  NoDup (targets self) →
  ∃ st1 st2,
    purge_keys Get_rank local_call self None false st = (Ok (), st1) ∧
    dump_keys Get_rank local_call entropy self None false st1 = (Ok [], st2).
Proof.
  intros Hnd.
  destruct (purge_keys_own Get_rank local_call self st Hnd)
    as (st1 & Hpurge & _ & _ & Hin & _).
  destruct (dump_keys_eq Get_rank local_call entropy self None false st1 Hnd
              eq_refl)
    as (w' & listing & Hdump & _ & _ & Hlist).
  assert (Hempty : listing = []).
  { destruct listing as [|[key l] listing]; [done|]. exfalso.
    destruct (proj1 (Hlist key)) as (t & Ht & Hkey); [left|].
    apply listed_keys_spec in Hkey as [Hs [v Hv]].
    rewrite Hin, Hs in Hv; [done | done |].
    intros ->. by rewrite loop_variable_plain in Hs. }
  subst listing. by eexists st1, _.
Qed.

(** [dump_after_purge_is_empty] at the first context of the concrete pool *)
Lemma dump_after_purge_is_empty_witness :
  NoDup (targets Demo.c1) ∧
  ∃ st1 st2,
    purge_keys Demo.group_rank Demo.no_local Demo.c1 None false Demo.st1
      = (Ok (), st1) ∧
    dump_keys Demo.group_rank Demo.no_local Demo.entropy Demo.c1 None false st1
      = (Ok [], st2).
Proof.
  assert (H1 : NoDup (targets Demo.c1)).
  { apply (bool_decide_unpack _). vm_compute. exact I. }
  split; [exact H1|].
  exact (dump_after_purge_is_empty Demo.group_rank Demo.no_local Demo.entropy
           Demo.c1 Demo.st1 H1).
Defined.

(* ===================================================================== *)
(** * The engines an operation reaches *)
(* ===================================================================== *)

(** ** What an operation reaches *)

Lemma confined_ret {A} (ts : list engine) (a : A) : confined ts (mret a).
Proof. intros st. by split_and!. Qed.

Lemma confined_raise {A} (ts : list engine) (e : exn) :
  confined ts (raise e : M A).
Proof. intros st. by split_and!. Qed.

Lemma confined_bind {A B} (ts : list engine) (m : M A) (k : A → M B) :
  confined ts m → (∀ a, confined ts (k a)) → confined ts (m ≫= k).
Proof.
  intros Hm Hk st. destruct (Hm st) as (Hw & Hc & Hd).
  rewrite bind_unfold. destruct (m st) as [[a|e] st1]; [|done].
  destruct (Hk a st1) as (Hw' & Hc' & Hd'). cbn [snd] in *. split_and!.
  - intros t Ht. by rewrite Hw', Hw.
  - by etrans.
  - lia.
Qed.

Lemma confined_weaken {A} (ts ts' : list engine) (m : M A) :
  ts ⊆ ts' → confined ts m → confined ts' m.
Proof.
  intros Hsub Hm st. destruct (Hm st) as (Hw & Hc & Hd). split_and!; [|done..].
  intros t Ht. apply Hw. intros Hin. by apply Ht, Hsub.
Qed.

Lemma confined_for_each {A B} (ts : list engine) (f : A → M B) (l : list A) :
  (∀ x, confined ts (f x)) → confined ts (for_each f l).
Proof.
  intros Hf. induction l as [|x l IH]; simpl.
  - apply confined_ret.
  - apply confined_bind; [done|]. intros y.
    apply confined_bind; [done|]. intros ys. apply confined_ret.
Qed.

Lemma confined_log (ts : list engine) (c : rcall) : confined ts (log c).
Proof. intros st. split_and!; [done | by apply prefix_app_r | done]. Qed.

Lemma confined_getitem `{Countable K} {V} (ts : list engine)
    (d : gmap K V) (k : K) :
  confined ts (getitem d k).
Proof.
  unfold getitem. destruct (d !! k); [apply confined_ret | apply confined_raise].
Qed.

Lemma confined_get_dict {A} (ts ts' : list engine) (results : list A) :
  confined ts (get_dict ts' results).
Proof.
  unfold get_dict. destruct ts'; [apply confined_raise|].
  case_bool_decide; [apply confined_ret | apply confined_raise].
Qed.

Lemma confined_select_targets (ts all_targets targets acc : list engine) :
  confined ts (select_targets all_targets targets acc).
Proof.
  revert acc. induction targets as [|t targets IH]; intros acc; simpl.
  - apply confined_ret.
  - case_bool_decide; [apply IH | apply confined_raise].
Qed.

Section ConfinedFacts.

Variable Get_rank : engine → list Z → Z.
Variable local_call : engine → string → list string → gmap string value → outcome.
Variable entropy : nat → N.
Variable private_rank : engine → Z.
Variable private_size : engine → Z.
Variable h5py_available : bool.
Variable default_client : Client.

Lemma run_on_frame (c : cmd) (ts : list engine) (w : engine → gmap string value)
    (t : engine) :
  t ∉ ts → (run_on Get_rank local_call c ts w).1 t = w t.
Proof.
  revert w. induction ts as [|t0 ts IH]; intros w Ht; simpl; [done|].
  apply not_elem_of_cons in Ht as [Hne Ht].
  destruct (exec_cmd Get_rank local_call t0 c (w t0)).
  - rewrite IH by done. by rewrite fn_lookup_insert_ne.
  - specialize (IH w Ht). by destruct (run_on Get_rank local_call c ts w).
Qed.

Lemma push_on_frame (d : list (string * pyobj)) (ts : list engine)
    (w : engine → gmap string value) (t : engine) :
  t ∉ ts → push_on d ts w t = w t.
Proof.
  unfold push_on. revert w. induction ts as [|t0 ts IH]; intros w Ht; simpl; [done|].
  apply not_elem_of_cons in Ht as [Hne Ht].
  rewrite IH by done. by rewrite fn_lookup_insert_ne.
Qed.

Lemma confined_view_execute (ts ts' : list engine) (c : cmd) (block : bool) :
  ts' ⊆ ts → confined ts (view_execute Get_rank local_call c ts' block).
Proof.
  intros Hsub st. unfold view_execute.
  pose proof (run_on_frame c ts' (world st)) as Hw.
  destruct (run_on Get_rank local_call c ts' (world st)) as [w' failed].
  assert (Hst : ∀ r : result unit,
            (∀ t, t ∉ ts →
               world (r, mkState w' (calls st ++ [Execute c ts']) (drawn st)).2 t
               = world st t) ∧
            calls st `prefix_of`
              calls (r, mkState w' (calls st ++ [Execute c ts']) (drawn st)).2 ∧
            (drawn st
             ≤ drawn (r, mkState w' (calls st ++ [Execute c ts']) (drawn st)).2)%nat).
  { intros r. split_and!; [| by apply prefix_app_r | done].
    intros t Ht. apply Hw. intros Hin. by apply Ht, Hsub. }
  destruct failed; [apply Hst|]. destruct block; apply Hst.
Qed.

Lemma confined_view_push (ts ts' : list engine) (d : list (string * pyobj)) :
  ts' ⊆ ts → confined ts (view_push d ts').
Proof.
  intros Hsub st. split_and!; [| by apply prefix_app_r | done].
  intros t Ht. apply push_on_frame. intros Hin. by apply Ht, Hsub.
Qed.

Lemma confined_view_pull (ts ts' : list engine) (name : string) :
  confined ts (view_pull name ts').
Proof.
  intros st. unfold view_pull.
  destruct (List.filter _ ts'); (split_and!; [done | by apply prefix_app_r | done]).
Qed.

Lemma confined_view_apply (ts ts' : list engine) (f : string) (impl : engine → Z) :
  confined ts (view_apply f impl ts').
Proof.
  unfold view_apply. apply confined_bind; [apply confined_log|].
  intros _. apply confined_ret.
Qed.

Lemma confined_uuid4 (ts : list engine) : confined ts (uuid4 entropy).
Proof. intros st. split_and!; [done | done | cbn; lia]. Qed.

Lemma confined__generate_key (ts : list engine) (self : Context)
    (prefix : option string) :
  confined ts (_generate_key entropy self prefix).
Proof.
  unfold _generate_key. apply confined_bind; [apply confined_uuid4|].
  intros uid. apply confined_ret.
Qed.

Lemma confined_get_comm_key (ts : list engine) (self : Context) :
  confined ts (get_comm_key self).
Proof.
  unfold get_comm_key.
  destruct (_comm_key self); [apply confined_ret | apply confined_raise].
Qed.

Lemma confined__execute (self : Context) (lines : cmd) :
  confined (targets self) (_execute Get_rank local_call self lines).
Proof. by apply confined_view_execute. Qed.

Lemma confined__key_and_push (self : Context) (values : list pyobj) :
  confined (targets self) (_key_and_push entropy self values).
Proof.
  unfold _key_and_push.
  apply confined_bind.
  { apply confined_for_each. intros _. apply confined__generate_key. }
  intros keys. apply confined_bind; [by apply confined_view_push|].
  intros _. apply confined_ret.
Qed.

Lemma confined_delete_key (self : Context) (key : option string) :
  confined (targets self) (delete_key Get_rank local_call self key).
Proof. apply confined__execute. Qed.

Lemma confined_purge_keys (self : Context) (prefix : option string)
    (all_contexts : bool) :
  confined (targets self)
    (purge_keys Get_rank local_call self prefix all_contexts).
Proof. unfold purge_keys. destruct all_contexts; apply confined__execute. Qed.

Lemma confined_dump_keys (self : Context) (prefix : option string)
    (all_contexts : bool) :
  confined (targets self)
    (dump_keys Get_rank local_call entropy self prefix all_contexts).
Proof.
  unfold dump_keys.
  apply confined_bind; [apply confined__generate_key|]. intros dump_key.
  apply confined_bind; [apply confined__execute|]. intros _.
  apply confined_bind; [apply confined_view_pull|]. intros vals.
  apply confined_bind; [|intros keylists; apply confined_ret].
  apply confined_for_each. intros [].
  all: first [apply confined_ret | apply confined_raise].
Qed.

Lemma confined__cleanup_keys (self : Context) :
  confined (targets self) (_cleanup_keys Get_rank local_call self).
Proof.
  unfold _cleanup_keys.
  apply confined_bind; [apply confined_purge_keys|]. intros _.
  destruct (_comm_key self); [|apply confined_ret].
  apply confined_bind; [apply confined_delete_key|]. intros _.
  apply confined_ret.
Qed.

Lemma confined_save (self : Context) (name : name_arg) (da : DistArray) :
  confined (targets self) (save Get_rank local_call entropy self name da).
Proof.
  unfold save. destruct name; [| |apply confined_raise].
  - apply confined_bind; [apply confined__key_and_push|].
    intros keys. apply confined__execute.
  - case_bool_decide; [apply confined_raise|].
    apply confined_bind; [apply confined__key_and_push|].
    intros keys. apply confined__execute.
Qed.

Lemma confined_load (self : Context) (name : name_arg) :
  confined (targets self) (load Get_rank local_call entropy self name).
Proof.
  unfold load.
  apply confined_bind; [apply confined__generate_key|]. intros da_key.
  apply confined_bind; [apply confined_get_comm_key|]. intros comm_key.
  destruct name; [| |apply confined_raise].
  - apply confined_bind; [apply confined__key_and_push|]. intros keys.
    apply confined_bind; [apply confined__execute|]. intros _.
    apply confined_ret.
  - case_bool_decide; [apply confined_raise|].
    apply confined_bind; [apply confined__key_and_push|]. intros keys.
    apply confined_bind; [apply confined__execute|]. intros _.
    apply confined_ret.
Qed.

Lemma confined_import_h5py (ts : list engine) (errmsg : string) :
  confined ts (import_h5py h5py_available errmsg).
Proof.
  unfold import_h5py.
  destruct h5py_available; [apply confined_ret | apply confined_raise].
Qed.

Lemma confined_save_hdf5 (self : Context) (filename : string) (da : DistArray)
    (key' mode : string) :
  confined (targets self)
    (save_hdf5 Get_rank local_call entropy h5py_available self filename da
               key' mode).
Proof.
  unfold save_hdf5.
  apply confined_bind; [apply confined_import_h5py|]. intros _.
  apply confined_bind; [apply confined__key_and_push|]. intros keys1.
  apply confined_bind; [apply confined__key_and_push|]. intros keys2.
  apply confined__execute.
Qed.

Lemma confined_load_npy (self : Context) (filename : string)
    (dim_data_per_process : list nat) :
  confined (targets self)
    (load_npy Get_rank local_call entropy self filename dim_data_per_process).
Proof.
  unfold load_npy. case_bool_decide; [apply confined_raise|].
  apply confined_bind; [apply confined__generate_key|]. intros da_key.
  apply confined_bind; [apply confined__key_and_push|]. intros keys.
  apply confined_bind; [apply confined_get_comm_key|]. intros comm_key.
  apply confined_bind; [apply confined__execute|]. intros _.
  apply confined_ret.
Qed.

Lemma confined_load_hdf5 (self : Context) (filename : string)
    (dim_data_per_process : list nat) (key' : string) :
  confined (targets self)
    (load_hdf5 Get_rank local_call entropy h5py_available self filename
               dim_data_per_process key').
Proof.
  unfold load_hdf5.
  apply confined_bind; [apply confined_import_h5py|]. intros _.
  case_bool_decide; [apply confined_raise|].
  apply confined_bind; [apply confined__generate_key|]. intros da_key.
  apply confined_bind; [apply confined__key_and_push|]. intros keys1.
  apply confined_bind; [apply confined_get_comm_key|]. intros comm_key.
  apply confined_bind; [apply confined__key_and_push|]. intros keys2.
  apply confined_bind; [apply confined__execute|]. intros _.
  apply confined_ret.
Qed.

End ConfinedFacts.

Lemma confined_bind_ok {A B} (ts : list engine) (m : M A) (k : A → M B) :
  confined ts m →
  (∀ a st st', m st = (Ok a, st') → confined ts (k a)) →
  confined ts (m ≫= k).
Proof.
  intros Hm Hk st. destruct (Hm st) as (Hw & Hc & Hd).
  rewrite bind_unfold. destruct (m st) as [[a|e] st1] eqn:Hrun; [|done].
  destruct (Hk a st st1 Hrun st1) as (Hw' & Hc' & Hd'). cbn [snd] in *.
  split_and!.
  - intros t Ht. by rewrite Hw', Hw.
  - by etrans.
  - lia.
Qed.

Lemma select_targets_subseteq (all_targets ts acc sel : list engine)
    (st st' : state) :
  acc ⊆ all_targets →
  select_targets all_targets ts acc st = (Ok sel, st') →
  sel ⊆ all_targets.
Proof.
  revert acc. induction ts as [|t ts IH]; intros acc Hacc; simpl.
  - by intros [= <- _].
  - case_bool_decide as Ht; [|done]. apply IH.
    intros x [Hx | ->%list_elem_of_singleton]%elem_of_app; [by apply Hacc | done].
Qed.

Section ConstructionConfined.

Variable Get_rank : engine → list Z → Z.
Variable local_call : engine → string → list string → gmap string value → outcome.
Variable entropy : nat → N.
Variable private_rank : engine → Z.
Variable private_size : engine → Z.
Variable default_client : Client.

Lemma confined__make_intracomm (self : Context) :
  confined (view_targets self)
    (_make_intracomm Get_rank local_call entropy private_rank private_size self).
Proof.
  unfold _make_intracomm.
  apply confined_bind; [apply confined_view_apply|]. intros rank_list.
  apply confined_bind; [apply confined_get_dict|]. intros rank_map.
  apply confined_bind.
  { apply confined_for_each. intros t. apply confined_getitem. }
  intros ranks.
  apply confined_bind; [apply confined_view_apply|]. intros sizes.
  apply confined_bind.
  { destruct sizes; [apply confined_raise | apply confined_ret]. }
  intros comm_size. case_bool_decide; [apply confined_raise|].
  apply confined_bind; [apply confined__generate_key|]. intros key.
  apply confined_bind; [by apply confined_view_execute|]. intros _.
  apply confined_ret.
Qed.

Lemma _make_intracomm_targets (self self' : Context) (st st' : state) :
  _make_intracomm Get_rank local_call entropy private_rank private_size self st
    = (Ok self', st') →
  view_targets self' = view_targets self ∧ targets self' = targets self.
Proof.
  unfold _make_intracomm. intros H.
  apply bind_inv in H as (rank_list & st1 & _ & H).
  apply bind_inv in H as (rank_map & st2 & _ & H).
  apply bind_inv in H as (ranks & st3 & _ & H).
  apply bind_inv in H as (sizes & st4 & _ & H).
  apply bind_inv in H as (comm_size & st5 & _ & H).
  case_bool_decide; [done|].
  apply bind_inv in H as (key & st6 & _ & H).
  apply bind_inv in H as (u & st7 & _ & H).
  by injection H as <- _.
Qed.

Lemma confined__set_engine_rank_mapping (self : Context) :
  targets self ⊆ view_targets self →
  confined (view_targets self)
    (_set_engine_rank_mapping Get_rank local_call entropy self).
Proof.
  intros Hsub. unfold _set_engine_rank_mapping.
  apply confined_bind; [apply confined__generate_key|]. intros rank.
  apply confined_bind; [apply confined_get_comm_key|]. intros comm_key.
  apply confined_bind; [by apply confined_view_execute|]. intros _.
  apply confined_bind; [apply confined_view_pull|]. intros pulled.
  apply confined_bind; [apply confined_get_dict|]. intros target_to_rank.
  cbv zeta.
  destruct (negb _); [apply confined_raise|].
  destruct (negb _); [apply confined_raise|].
  apply confined_bind; [|intros targets'; apply confined_ret].
  apply confined_for_each. intros i. apply confined_getitem.
Qed.

Lemma confined___init__ (client : option Client) (requested : option (list engine)) :
  confined (ids (default default_client client))
    (__init__ Get_rank local_call entropy private_rank private_size
              default_client client requested).
Proof.
  unfold __init__. cbv zeta.
  set (view := ids (default default_client client)).
  apply confined_bind_ok.
  { destruct requested; [apply confined_select_targets | apply confined_ret]. }
  intros ts st st' Hts.
  assert (Hsub : ts ⊆ view).
  { destruct requested as [requested|].
    - by apply (select_targets_subseteq view requested [] ts st st');
        [apply list_subseteq_nil|].
    - by injection Hts as <- _. }
  apply confined_bind; [by apply confined_view_execute|]. intros _.
  apply confined_bind.
  { unfold _setup_key_context. apply confined_bind; [apply confined_uuid4|].
    intros uid. apply confined_ret. }
  intros kc.
  apply confined_bind_ok;
    [exact (confined__make_intracomm (mkContext view ts kc None))|].
  intros self st1 st2 Hself.
  apply _make_intracomm_targets in Hself as [Hview Htargets].
  cbn [view_targets targets] in Hview, Htargets.
  rewrite <- Hview. apply confined__set_engine_rank_mapping.
  by rewrite Hview, Htargets.
Qed.

End ConstructionConfined.

(** ** The exceptions a routine can raise *)

Lemma raises_only_ret {A} (P : exn → Prop) (a : A) : raises_only P (mret a).
Proof. by intros st e st'. Qed.

Lemma raises_only_raise {A} (P : exn → Prop) (e : exn) :
  P e → raises_only P (raise e : M A).
Proof. by intros He st e' st' [= <- _]. Qed.

Lemma raises_only_bind {A B} (P : exn → Prop) (m : M A) (k : A → M B) :
  raises_only P m → (∀ a, raises_only P (k a)) → raises_only P (m ≫= k).
Proof.
  intros Hm Hk st e st'. rewrite bind_unfold.
  destruct (m st) as [[a|e0] st1] eqn:Hrun.
  - apply Hk.
  - intros [= <- _]. by eapply Hm.
Qed.

Lemma raises_only_for_each {A B} (P : exn → Prop) (f : A → M B) (l : list A) :
  (∀ x, raises_only P (f x)) → raises_only P (for_each f l).
Proof.
  intros Hf. induction l as [|x l IH]; simpl.
  - apply raises_only_ret.
  - apply raises_only_bind; [done|]. intros y.
    apply raises_only_bind; [done|]. intros ys. apply raises_only_ret.
Qed.

Section RefusalFacts.

Variable Get_rank : engine → list Z → Z.
Variable local_call : engine → string → list string → gmap string value → outcome.
Variable entropy : nat → N.

(** the routines of the rank mapping raise remote errors, the errors of
    the dictionary and the [assert], not the refusal of [_make_intracomm] *)
Lemma _set_engine_rank_mapping_raises (self : Context) :
  raises_only
    (λ e, e ≠ ValueError "Engines in view must encompass all MPI ranks.")
    (_set_engine_rank_mapping Get_rank local_call entropy self).
Proof.
  unfold _set_engine_rank_mapping.
  apply raises_only_bind; [by intros st e st'|]. intros rank.
  apply raises_only_bind.
  { unfold get_comm_key.
    destruct (_comm_key self); [apply raises_only_ret | by apply raises_only_raise]. }
  intros comm_key.
  apply raises_only_bind.
  { intros st e st'. unfold view_execute.
    destruct (run_on _ _ _ _ _) as [w' [|t failed]]; [done|]. by intros [= <- _]. }
  intros _.
  apply raises_only_bind.
  { intros st e st'. unfold view_pull.
    destruct (List.filter _ _); [done|]. by intros [= <- _]. }
  intros pulled.
  apply raises_only_bind.
  { unfold get_dict. destruct (targets self); [by apply raises_only_raise|].
    case_bool_decide; [apply raises_only_ret | by apply raises_only_raise]. }
  intros target_to_rank. cbv zeta.
  destruct (negb _); [by apply raises_only_raise|].
  destruct (negb _); [by apply raises_only_raise|].
  apply raises_only_bind; [|intros targets'; apply raises_only_ret].
  apply raises_only_for_each. intros i. unfold getitem.
  destruct (_ !! _); [apply raises_only_ret | by apply raises_only_raise].
Qed.

End RefusalFacts.

(** C6, as the code has it.  On a client that has engines, with a
    selection of registered engines, creating a context raises the
    [ValueError] "Engines in view must encompass all MPI ranks." exactly when
    the ranks that the engines of the view (all the engines of the client,
    not only the selected targets) report in [COMM_PRIVATE] are not exactly
    [0 .. size-1].  When it raises, the only remote calls issued are the
    import and the two rank and size queries: no key has been generated for
    the communicator and [create_comm_with_list] has not been sent.  When
    the view covers the range the check passes whatever ranks the selected
    engines have: [create_comm_with_list] is sent to the whole view with
    the ranks of the selected engines, and whatever the creation ends with
    is not this error. *)
Theorem creation_requires_view_to_cover_ranks
    (Get_rank : engine → list Z → Z)
    (local_call : engine → string → list string → gmap string value → outcome)
    (entropy : nat → N) (private_rank private_size : engine → Z)
    (default_client : Client)
    (client : option Client) (requested : option (list engine)) (st : state) :
  let view := ids (default default_client client) in
  let ts := default view requested in
  let refusal := ValueError "Engines in view must encompass all MPI ranks." in
  NoDup view → view ≠ [] → (∀ t, t ∈ ts → t ∈ view) →
  (¬ view_covers_ranks private_rank private_size view →
   ∃ st',
     __init__ Get_rank local_call entropy private_rank private_size
              default_client client requested st = (Raise refusal, st') ∧
     calls st' = ((calls st ++ [Execute CImport view])
                    ++ [ApplyAsync "get_rank" view])
                   ++ [ApplyAsync "get_size" view] ∧
     drawn st' = S (drawn st)) ∧
  (view_covers_ranks private_rank private_size view →
   ∃ r st' ck,
     __init__ Get_rank local_call entropy private_rank private_size
              default_client client requested st = (r, st') ∧
     r ≠ Raise refusal ∧
     Execute (CCreateComm ck (private_rank <$> ts)) view ∈ calls st').
Proof.
  intros view ts refusal Hnd Hview Hsub.
  destruct (__init___prefix Get_rank local_call entropy private_rank
              private_size default_client client requested st Hnd Hsub)
    as (w0 & _ & _ & ->).
  fold view ts.
  set (kc := slice_to 16 (uuid_hex (entropy (drawn st)))).
  set (self0 := mkContext view ts kc None).
  set (st0 := mkState w0 (calls st ++ [Execute CImport view]) (S (drawn st))).
  destruct (_make_intracomm_view Get_rank local_call entropy private_rank
              private_size self0 st0 Hnd Hview Hsub) as [Hmake Hrefuse].
  split.
  - intros Hcov. eexists. split.
    + apply bind_raise. by apply Hrefuse.
    + done.
  - intros Hcov. destruct (Hmake Hcov) as (w1 & Hrun1 & _ & _). clear Hmake Hrefuse.
    cbn [view_targets targets key_context self0 st0 world calls drawn] in Hrun1.
    set (ck := (_key_header self0 (Some "comm") +:+ "_")
                 +:+ uuid_hex (entropy (S (drawn st)))) in *.
    set (self1 := mkContext view ts kc (Some (Some ck))) in *.
    match type of Hrun1 with _ = (_, ?s) => set (st1 := s) in * end.
    rewrite (bind_ok _ _ _ _ _ Hrun1).
    destruct (_set_engine_rank_mapping Get_rank local_call entropy self1 st1)
      as [r st'] eqn:Hmap.
    exists r, st', ck. split_and!; [done | |].
    + intros ->.
      by apply (_set_engine_rank_mapping_raises Get_rank local_call entropy
                  self1 st1 _ st' Hmap).
    + destruct (confined__set_engine_rank_mapping Get_rank local_call entropy
                  self1 Hsub st1) as (_ & [l Hl] & _).
      rewrite Hmap in Hl. cbn [snd] in Hl. rewrite Hl. cbn [st1 calls].
      apply elem_of_app. left. apply elem_of_app. right. by left.
Qed.

(** the hypotheses of [creation_requires_view_to_cover_ranks] at the
    concrete pool, when the communicator has a fourth process *)
Lemma creation_requires_view_to_cover_ranks_witness :
  NoDup (ids Demo.pool) ∧ ids Demo.pool ≠ [] ∧
  (∀ t, t ∈ [2; 0]%nat → t ∈ ids Demo.pool) ∧
  ¬ view_covers_ranks Demo.mpi_rank Demo.wide_size (ids Demo.pool) ∧
  ∃ st',
    __init__ Demo.group_rank Demo.no_local Demo.entropy Demo.mpi_rank
             Demo.wide_size Demo.pool None (Some [2; 0]%nat) Demo.st0
    = (Raise (ValueError "Engines in view must encompass all MPI ranks."),
       st') ∧
    calls st' = ((calls Demo.st0 ++ [Execute CImport (ids Demo.pool)])
                   ++ [ApplyAsync "get_rank" (ids Demo.pool)])
                  ++ [ApplyAsync "get_size" (ids Demo.pool)] ∧
    drawn st' = S (drawn Demo.st0).
Proof.
  assert (H1 : NoDup (ids Demo.pool)).
  { apply (bool_decide_unpack _). vm_compute. exact I. }
  assert (H0 : ids Demo.pool ≠ []) by discriminate.
  assert (H3 : ∀ t, t ∈ [2; 0]%nat → t ∈ ids Demo.pool).
  { apply Forall_forall. apply (bool_decide_unpack _). vm_compute. exact I. }
  assert (H4 : ¬ view_covers_ranks Demo.mpi_rank Demo.wide_size (ids Demo.pool)).
  { unfold view_covers_ranks. cbn [ids Demo.pool].
    apply (bool_decide_unpack _). vm_compute. exact I. }
  split; [exact H1 | split; [exact H0 | split; [exact H3 | split; [exact H4|]]]].
  exact (proj1 (creation_requires_view_to_cover_ranks Demo.group_rank
                  Demo.no_local Demo.entropy Demo.mpi_rank Demo.wide_size
                  Demo.pool None (Some [2; 0]%nat) Demo.st0 H1 H0 H3) H4).
Defined.

Lemma reach_context (x : Functions.arg) (a : Functions.DistArray) :
  x = Functions.ADist a →
  targets (Functions.obj (Functions.context a)) ⊆ reach x.
Proof. intros ->. cbn [reach]. set_solver. Qed.

Lemma confined_push_context (entropy : nat → N) (ts : list engine)
    (c : Functions.ContextObj) (values : list pyobj) :
  targets (Functions.obj c) ⊆ ts →
  confined ts (_key_and_push entropy (Functions.obj c) values).
Proof.
  intros Hsub.
  by apply (confined_weaken (targets (Functions.obj c)));
    [|apply confined__key_and_push].
Qed.

Section ProxiesConfined.
Import Functions.

Variable Get_rank : engine → list Z → Z.
Variable local_call : engine → string → list string → gmap string value → outcome.
Variable entropy : nat → N.
Variable is_compatible : Distribution → Distribution → bool.
Variable repr_contexts : list ContextObj → string.
Variable from_localarrays : string → Distribution → M DistArray.

Hypothesis from_localarrays_confined :
  ∀ k d, confined (dist_targets d) (from_localarrays k d).

Lemma confined_determine_context (ts : list engine) (args : list arg) :
  confined ts (determine_context repr_contexts args).
Proof.
  unfold determine_context. cbv zeta. destruct (omap _ args); [apply confined_raise|].
  destruct (negb _); [apply confined_raise | apply confined_ret].
Qed.

Lemma determine_context_elem (args : list arg) (c : ContextObj) (st st' : state) :
  determine_context repr_contexts args st = (Ok c, st') →
  ∃ a, ADist a ∈ args ∧ context a = c.
Proof.
  unfold determine_context. cbv zeta.
  destruct (omap _ args) as [|c0 cs] eqn:Hctx; [done|].
  destruct (negb _); [done|]. intros [= <- _].
  assert (Hin : c0 ∈ omap (λ x, match x with
                                | ADist a => Some (context a)
                                | _ => None
                                end) args) by (rewrite Hctx; left).
  apply list_elem_of_omap in Hin as ([a| |] & Ha & Hc); [|done..].
  exists a. split; [done|]. by injection Hc.
Qed.

Lemma confined_get_key (ts : list engine) (x : arg) : confined ts (get_key x).
Proof. destruct x; [apply confined_ret | apply confined_raise..]. Qed.

Lemma confined_get_targets (ts : list engine) (x : arg) :
  confined ts (get_targets x).
Proof. destruct x; [apply confined_ret | apply confined_raise..]. Qed.

Lemma confined_get_distribution (ts : list engine) (x : arg) :
  confined ts (get_distribution x).
Proof. destruct x; [apply confined_ret | apply confined_raise..]. Qed.

Lemma confined_context_execute (ts ts' : list engine) (c : ContextObj)
    (exec_str : cmd) :
  confined ts (context_execute Get_rank local_call c exec_str (Some ts')).
Proof. apply confined_raise. Qed.

Lemma confined_from_localarrays (ts : list engine) (k : string)
    (d : Distribution) :
  dist_targets d ⊆ ts → confined ts (from_localarrays k d).
Proof. intros Hsub. by apply (confined_weaken (dist_targets d)). Qed.

Lemma reach_targets (a : DistArray) : targets a ⊆ reach (ADist a).
Proof. cbn [reach]. set_solver. Qed.

Lemma reach_distribution (a : DistArray) :
  dist_targets (distribution a) ⊆ reach (ADist a).
Proof. cbn [reach]. set_solver. Qed.

Lemma confined_unary_proxy (name : string) (a : arg) (casting : option string) :
  confined (reach a)
    (unary_proxy Get_rank local_call entropy repr_contexts from_localarrays
                 name a casting).
Proof.
  unfold unary_proxy.
  apply confined_bind_ok; [apply confined_determine_context|].
  intros c st st' Hc.
  apply determine_context_elem in Hc as (a0 & <-%list_elem_of_singleton & <-).
  apply confined_bind; [apply confined__generate_key|]. intros new_key.
  apply confined_bind; [apply confined_get_key|]. intros a_key. cbv zeta.
  change (get_targets (ADist a0)) with (mret (targets a0) : M (list engine)).
  change (get_distribution (ADist a0)) with (mret (distribution a0) : M Distribution).
  apply confined_bind_ok; [apply confined_ret|]. intros ts st1 st2 [= <- _].
  apply confined_bind; [apply confined_context_execute|].
  intros _.
  apply confined_bind_ok; [apply confined_ret|]. intros d st3 st4 [= <- _].
  apply confined_from_localarrays, reach_distribution.
Qed.

Lemma confined_first_key (ts : list engine) (keys : list string) :
  confined ts (match keys with
               | k :: _ => mret k
               | [] => raise IndexError
               end : M string).
Proof. destruct keys; [apply confined_raise | apply confined_ret]. Qed.

Lemma confined_binary_proxy (name : string) (a b : arg)
    (casting : option string) :
  confined (reach a ++ reach b)
    (binary_proxy Get_rank local_call entropy is_compatible repr_contexts
                  from_localarrays name a b casting).
Proof.
  unfold binary_proxy.
  apply confined_bind_ok; [apply confined_determine_context|].
  intros c st st' Hc.
  assert (Hpush : ∀ values,
            confined (reach a ++ reach b) (_key_and_push entropy (obj c) values)).
  { intros values. apply confined_push_context.
    apply determine_context_elem in Hc as (a0 & Hin & <-).
    apply elem_of_cons in Hin as [Ha | Hb%list_elem_of_singleton].
    - pose proof (reach_context a a0 (eq_sym Ha)). set_solver.
    - pose proof (reach_context b a0 (eq_sym Hb)). set_solver. }
  clear Hc st st'.
  apply (confined_bind_ok _ _ (λ '(a_key, b_key, distribution), _)).
  - destruct (is_dap a && is_dap b).
    { apply confined_bind; [apply confined_get_distribution|]. intros da.
      apply confined_bind; [apply confined_get_distribution|]. intros db.
      destruct (negb _); [apply confined_raise|].
      apply confined_bind; [apply confined_get_key|]. intros a_key.
      apply confined_bind; [apply confined_get_key|]. intros b_key.
      apply confined_ret. }
    destruct (is_dap a && isscalar b).
    { apply confined_bind; [apply confined_get_key|]. intros a_key.
      apply confined_bind; [apply Hpush|]. intros keys.
      apply confined_bind; [apply confined_first_key|]. intros b_key.
      apply confined_bind; [apply confined_get_distribution|]. intros da.
      apply confined_ret. }
    destruct (is_dap b && isscalar a); [|apply confined_raise].
    apply confined_bind; [apply Hpush|]. intros keys.
    apply confined_bind; [apply confined_first_key|]. intros a_key.
    apply confined_bind; [apply confined_get_key|]. intros b_key.
    apply confined_bind; [apply confined_get_distribution|]. intros db.
    apply confined_ret.
  - intros [[a_key b_key] d] st st' Hd.
    assert (Hsub : dist_targets d ⊆ reach a ++ reach b).
    { destruct a as [a0|ta|ta], b as [b0|tb|tb];
        cbn [is_dap isscalar andb get_distribution get_key] in Hd;
        try done.
      - rewrite !ret_bind in Hd. destruct (negb _); [done|].
        rewrite !ret_bind in Hd. injection Hd as _ _ <- _.
        pose proof (reach_distribution a0). set_solver.
      - rewrite ret_bind in Hd.
        apply bind_inv in Hd as (keys & st1 & _ & Hd).
        apply bind_inv in Hd as (k & st2 & _ & Hd).
        rewrite ret_bind in Hd. injection Hd as _ _ <- _.
        pose proof (reach_distribution a0). set_solver.
      - apply bind_inv in Hd as (keys & st1 & _ & Hd).
        apply bind_inv in Hd as (k & st2 & _ & Hd).
        rewrite !ret_bind in Hd. injection Hd as _ _ <- _.
        pose proof (reach_distribution b0). set_solver. }
    apply confined_bind; [apply confined__generate_key|]. intros new_key.
    cbv zeta.
    apply confined_bind; [apply confined_context_execute|]. intros _.
    by apply confined_from_localarrays.
Qed.

End ProxiesConfined.

(** The key management operations reach the targets of their context only:
    whatever the engines answer and whether the operation returns or
    raises, the namespace of every engine outside [self.targets] is as
    before, the log of remote calls has only been extended, and the count
    of uuids drawn has not gone down. *)
Theorem key_management_confined
    (Get_rank : engine → list Z → Z)
    (local_call : engine → string → list string → gmap string value → outcome)
    (entropy : nat → N) (self : Context) :
  (∀ values, confined (targets self) (_key_and_push entropy self values)) ∧
  (∀ key, confined (targets self) (delete_key Get_rank local_call self key)) ∧
  (∀ prefix all_contexts,
     confined (targets self)
       (purge_keys Get_rank local_call self prefix all_contexts)) ∧
  (∀ prefix all_contexts,
     confined (targets self)
       (dump_keys Get_rank local_call entropy self prefix all_contexts)) ∧
  confined (targets self) (_cleanup_keys Get_rank local_call self).
Proof.
  split_and!.
  - apply confined__key_and_push.
  - apply confined_delete_key.
  - apply confined_purge_keys.
  - apply confined_dump_keys.
  - apply confined__cleanup_keys.
Qed.

(** [save], [load], [save_hdf5], [load_npy] and [load_hdf5] reach the
    targets of their context only, whatever the code of [distarray.local]
    does on an engine. *)
Theorem persistence_confined
    (Get_rank : engine → list Z → Z)
    (local_call : engine → string → list string → gmap string value → outcome)
    (entropy : nat → N) (h5py_available : bool) (self : Context) :
  (∀ name da,
     confined (targets self) (save Get_rank local_call entropy self name da)) ∧
  (∀ name,
     confined (targets self) (load Get_rank local_call entropy self name)) ∧
  (∀ filename da key' mode,
     confined (targets self)
       (save_hdf5 Get_rank local_call entropy h5py_available self filename da
                  key' mode)) ∧
  (∀ filename dims,
     confined (targets self)
       (load_npy Get_rank local_call entropy self filename dims)) ∧
  (∀ filename dims key',
     confined (targets self)
       (load_hdf5 Get_rank local_call entropy h5py_available self filename
                  dims key')).
Proof.
  split_and!.
  - apply confined_save.
  - apply confined_load.
  - apply confined_save_hdf5.
  - apply confined_load_npy.
  - apply confined_load_hdf5.
Qed.

(** [Context(client, targets)] reaches the engines of the client's view
    only, whichever targets are asked for and whether it returns or
    raises. *)
Theorem construction_confined
    (Get_rank : engine → list Z → Z)
    (local_call : engine → string → list string → gmap string value → outcome)
    (entropy : nat → N) (private_rank private_size : engine → Z)
    (default_client : Client)
    (client : option Client) (requested : option (list engine)) :
  confined (ids (default default_client client))
    (__init__ Get_rank local_call entropy private_rank private_size
              default_client client requested).
Proof. apply confined___init__. Qed.



(* ===================================================================== *)
(** * Checks and operands *)
(* ===================================================================== *)

(** ** The argument checks of the wrapped operations *)

Lemma filter_length_all {A} (f : A → bool) (l : list A) :
  length (List.filter f l) = length l ↔ ∀ x, x ∈ l → f x = true.
Proof.
  split.
  - induction l as [|x l IH]; intros Hlen y Hy; [by apply elem_of_nil in Hy|].
    simpl in Hlen. pose proof (List.filter_length_le f l) as Hle.
    destruct (f x) eqn:Hx; simpl in Hlen; [|lia].
    apply elem_of_cons in Hy as [->|Hy]; [done|]. apply IH; [lia | done].
  - intros H. by rewrite filter_all.
Qed.

Lemma omap_context_split (args : list Functions.arg)
    (c0 : Functions.ContextObj) (cs : list Functions.ContextObj) :
  omap (λ x, match x with
             | Functions.ADist a => Some (Functions.context a)
             | _ => None
             end) args = c0 :: cs →
  ∃ pre a post,
    args = pre ++ Functions.ADist a :: post ∧
    Forall (λ x, Functions.is_dap x = false) pre ∧
    Functions.context a = c0.
Proof.
  induction args as [|x args IH]; [done|]. destruct x as [a|t|t]; simpl.
  - intros [= <- _]. by exists [], a, args.
  - intros (pre & a & post & -> & Hpre & <-)%IH.
    exists (Functions.AScalar t :: pre), a, post. split_and!; [done| |done].
    by constructor.
  - intros (pre & a & post & -> & Hpre & <-)%IH.
    exists (Functions.AOther t :: pre), a, post. split_and!; [done| |done].
    by constructor.
Qed.

Lemma omap_context_first (pre post : list Functions.arg) (a : Functions.DistArray) :
  Forall (λ x, Functions.is_dap x = false) pre →
  omap (λ x, match x with
             | Functions.ADist a => Some (Functions.context a)
             | _ => None
             end) (pre ++ Functions.ADist a :: post)
  = Functions.context a
      :: omap (λ x, match x with
                    | Functions.ADist a => Some (Functions.context a)
                    | _ => None
                    end) post.
Proof.
  induction 1 as [|x pre Hx Hpre IH]; [done|].
  destruct x; [done | exact IH..].
Qed.

(** [determine_context] never touches the state, and it returns a context
    exactly when there is a [DistArray] among the arguments and the contexts
    of all the [DistArray] arguments are the same object; it then returns
    the context of the first of them. *)
Theorem determine_context_spec
    (repr_contexts : list Functions.ContextObj → string)
    (args : list Functions.arg) (st : state) :
  (Functions.determine_context repr_contexts args st).2 = st ∧
  ∀ c, Functions.determine_context repr_contexts args st = (Ok c, st) ↔
       ∃ pre a post,
         args = pre ++ Functions.ADist a :: post ∧
         Forall (λ x, Functions.is_dap x = false) pre ∧
         c = Functions.context a ∧
         ∀ b, Functions.ADist b ∈ args →
              Functions.oid (Functions.context b) = Functions.oid c.
Proof.
  unfold Functions.determine_context, Functions.count. cbv zeta.
  set (f := λ x, match x with
                 | Functions.ADist a => Some (Functions.context a)
                 | _ => None
                 end).
  split.
  { destruct (omap f args); [done|]. by destruct (negb _). }
  intros c. split.
  - destruct (omap f args) as [|c0 cs] eqn:Hctx; [done|].
    case_bool_decide as Hcount; [|done]. intros [= <-].
    destruct (omap_context_split args c0 cs Hctx) as (pre & a & post & Hargs & Hpre & Ha).
    exists pre, a, post. split_and!; [done | done | done |].
    intros b Hb.
    assert (Hin : Functions.context b ∈ omap f args).
    { apply list_elem_of_omap. by exists (Functions.ADist b). }
    rewrite Hctx in Hin.
    pose proof (proj1 (filter_length_all _ _) Hcount _ Hin) as Heq.
    unfold Functions.context_eqb in Heq. by apply bool_decide_eq_true_1 in Heq.
  - intros (pre & a & post & Hargs & Hpre & -> & Hsame).
    assert (Hctx : omap f args = Functions.context a :: omap f post).
    { rewrite Hargs. by apply omap_context_first. }
    rewrite Hctx, bool_decide_eq_true_2; [done|].
    rewrite <- Hctx. apply filter_length_all.
    intros c [x [Hx Hc]]%list_elem_of_omap.
    destruct x as [b| |]; [|done..]. injection Hc as <-.
    apply bool_decide_eq_true_2. symmetry. by apply Hsame.
Qed.

(** An argument that is neither a [DistArray] nor a scalar makes the binary
    wrapper raise its [TypeError], on either side of a [DistArray], before
    a key is generated or an engine is reached. *)
Theorem binary_proxy_rejects_other
    (Get_rank : engine → list Z → Z)
    (local_call : engine → string → list string → gmap string value → outcome)
    (entropy : nat → N)
    (is_compatible : Functions.Distribution → Functions.Distribution → bool)
    (repr_contexts : list Functions.ContextObj → string)
    (from_localarrays : string → Functions.Distribution → M Functions.DistArray)
    (name : string) (casting : option string) (st : state)
    (a : Functions.DistArray) (tag : nat) :
  Functions.binary_proxy Get_rank local_call entropy is_compatible
    repr_contexts from_localarrays name
    (Functions.ADist a) (Functions.AOther tag) casting st
  = (Raise (TypeError "only DistArray or scalars are accepted"), st) ∧
  Functions.binary_proxy Get_rank local_call entropy is_compatible
    repr_contexts from_localarrays name
    (Functions.AOther tag) (Functions.ADist a) casting st
  = (Raise (TypeError "only DistArray or scalars are accepted"), st).
Proof.
  split.
  - unfold Functions.binary_proxy, Functions.determine_context, Functions.count.
    cbn. by rewrite FunctionsFacts.context_eqb_refl.
  - unfold Functions.binary_proxy, Functions.determine_context, Functions.count.
    cbn. by rewrite FunctionsFacts.context_eqb_refl.
Qed.

(** ** The order of the checks in the persistence operations *)

(** Without h5py in the controlling process [save_hdf5] and [load_hdf5]
    raise [ImportError] before anything else: whatever the arguments, also
    with a wrong number of dim_data, the state is the one before the
    call. *)
Theorem hdf5_needs_h5py
    (Get_rank : engine → list Z → Z)
    (local_call : engine → string → list string → gmap string value → outcome)
    (entropy : nat → N) (h5py_available : bool)
    (self : Context) (st : state) (filename key' mode : string)
    (da : DistArray) (dims : list nat) :
  h5py_available = false →
  save_hdf5 Get_rank local_call entropy h5py_available self filename da
            key' mode st
    = (Raise (ImportError
                "An MPI-enabled h5py must be available to use save_hdf5."), st) ∧
  load_hdf5 Get_rank local_call entropy h5py_available self filename dims key' st
    = (Raise (ImportError
                "An MPI-enabled h5py must be available to use load_hdf5."), st).
Proof. intros ->. by split. Qed.

(** [hdf5_needs_h5py] at the first context of the concrete pool, with three
    dim_data for its two targets *)
Lemma hdf5_needs_h5py_witness :
  load_hdf5 Demo.group_rank Demo.no_local Demo.entropy false Demo.c1
            "f" [1; 2; 3]%nat "buffer" Demo.st1
    = (Raise (ImportError
                "An MPI-enabled h5py must be available to use load_hdf5."),
       Demo.st1).
Proof.
  exact (proj2 (hdf5_needs_h5py Demo.group_rank Demo.no_local Demo.entropy
                  false Demo.c1 Demo.st1 "f" "buffer" "a"
                  (mkDistArray "x" Demo.c1) [1; 2; 3]%nat eq_refl)).
Defined.

(** A [name] that is neither a string nor a list makes [save] and [load]
    raise [TypeError] without a remote call; [save] leaves the state as it
    was, [load] has generated the key of the array by then, so one uuid is
    used up. *)
Theorem unsupported_name_rejected
    (Get_rank : engine → list Z → Z)
    (local_call : engine → string → list string → gmap string value → outcome)
    (entropy : nat → N) (self : Context) (st : state) (tag : nat)
    (da : DistArray) :
  is_Some (_comm_key self) →
  save Get_rank local_call entropy self (NameOther tag) da st
    = (Raise (TypeError "`name` must be a string or a list."), st) ∧
  load Get_rank local_call entropy self (NameOther tag) st
    = (Raise (TypeError "`name` must be a string or a list."),
       mkState (world st) (calls st) (S (drawn st))).
Proof.
  intros [ck Hck]. split; [done|].
  unfold load. rewrite bind_unfold, _generate_key_eq.
  rewrite bind_unfold. unfold get_comm_key. by rewrite Hck.
Qed.

(** [unsupported_name_rejected] at the first context of the concrete pool *)
Lemma unsupported_name_rejected_witness :
  is_Some (_comm_key Demo.c1) ∧
  save Demo.group_rank Demo.no_local Demo.entropy Demo.c1 (NameOther 0)
       (mkDistArray "x" Demo.c1) Demo.st1
    = (Raise (TypeError "`name` must be a string or a list."), Demo.st1).
Proof.
  assert (H : is_Some (_comm_key Demo.c1)) by (vm_compute; eexists; reflexivity).
  split; [exact H|].
  exact (proj1 (unsupported_name_rejected Demo.group_rank Demo.no_local
                  Demo.entropy Demo.c1 Demo.st1 0 (mkDistArray "x" Demo.c1) H)).
Defined.

(** ** Past the argument checks *)



(* ===================================================================== *)
(** * The escape-time kernel *)
(* ===================================================================== *)

Section JuliaFacts.

Variable C : Type.
Variable R : Type.
Variable Cmul Cadd : C → C → C.
Variable Cabs : C → option R.
Variable Rlt : R → R → bool.

Lemma below_succ (z c : C) (z_max : R) (k : nat) :
  below C R Cmul Cadd Cabs Rlt z c z_max (S k)
  = below C R Cmul Cadd Cabs Rlt (Cadd (Cmul z z) c) c z_max k.
Proof. unfold below. by rewrite Nat.iter_succ_r. Qed.

Lemma julia_loop_spec (fuel : nat) (z c : C) (z_max : R) (n_max n : Z) :
  (Z.to_nat (n_max - n) ≤ fuel)%nat →
  ∃ res, julia_loop C R Cmul Cadd Cabs Rlt fuel z c z_max n_max n = Some res ∧
    match res with
    | Count r =>
        (n ≤ r ≤ Z.max n n_max)%Z ∧
        (∀ k, (k < Z.to_nat (r - n))%nat →
           below C R Cmul Cadd Cabs Rlt z c z_max k = Some true) ∧
        ((r < n_max)%Z →
           below C R Cmul Cadd Cabs Rlt z c z_max (Z.to_nat (r - n))
             = Some false)
    | AbsOverflow =>
        ∃ k, (k ≤ Z.to_nat (n_max - n))%nat ∧
          below C R Cmul Cadd Cabs Rlt z c z_max k = None ∧
          ∀ j, (j < k)%nat →
            below C R Cmul Cadd Cabs Rlt z c z_max j = Some true
    end.
Proof.
  assert (Hraise : ∀ z n, Cabs z = None →
            ∃ k, (k ≤ Z.to_nat (n_max - n))%nat ∧
              below C R Cmul Cadd Cabs Rlt z c z_max k = None ∧
              ∀ j, (j < k)%nat →
                below C R Cmul Cadd Cabs Rlt z c z_max j = Some true).
  { intros z0 n0 Hm. exists 0%nat. split; [lia|]. split; [|lia].
    unfold below. cbn. by rewrite Hm. }
  assert (Hstay : ∀ z n m, Cabs z = Some m →
            Rlt m z_max && (n <? n_max)%Z = false →
            (n ≤ n ≤ Z.max n n_max)%Z ∧
            (∀ k, (k < Z.to_nat (n - n))%nat →
               below C R Cmul Cadd Cabs Rlt z c z_max k = Some true) ∧
            ((n < n_max)%Z →
               below C R Cmul Cadd Cabs Rlt z c z_max (Z.to_nat (n - n))
                 = Some false)).
  { intros z0 n0 m Hm Hcond. rewrite Z.sub_diag. split; [lia|]. split.
    - intros k Hk. simpl in Hk. lia.
    - intros Hlt. unfold below. change (Z.to_nat 0) with 0%nat.
      cbn [Nat.iter nat_rect]. rewrite Hm. cbn [fmap option_fmap option_map].
      apply andb_false_iff in Hcond as [->|Hn%Z.ltb_ge]; [done | lia]. }
  revert z n. induction fuel as [|fuel IH]; intros z n Hfuel; cbn [julia_loop].
  - destruct (Cabs z) as [m|] eqn:Hm.
    2:{ exists AbsOverflow. split; [done|]. by apply Hraise. }
    destruct (Rlt m z_max && (n <? n_max)%Z) eqn:Hcond.
    + apply andb_true_iff in Hcond as [_ Hn%Z.ltb_lt]. lia.
    + exists (Count n). split; [done|]. by apply (Hstay z n m).
  - destruct (Cabs z) as [m|] eqn:Hm.
    2:{ exists AbsOverflow. split; [done|]. by apply Hraise. }
    destruct (Rlt m z_max && (n <? n_max)%Z) eqn:Hcond.
    2:{ exists (Count n). split; [done|]. by apply (Hstay z n m). }
    apply andb_true_iff in Hcond as [Hz Hn%Z.ltb_lt].
    assert (H0 : below C R Cmul Cadd Cabs Rlt z c z_max 0 = Some true)
      by (unfold below; cbn; by rewrite Hm, <- Hz).
    destruct (IH (Cadd (Cmul z z) c) (n + 1)%Z) as (res & Hres & Hspec); [lia|].
    exists res. split; [done|]. destruct res as [r|].
    + destruct Hspec as (Hb & Hbelow & Hstop). split; [lia|]. split.
      * intros k Hk. destruct k as [|k]; [done|].
        rewrite below_succ. apply Hbelow. lia.
      * intros Hrn.
        replace (Z.to_nat (r - n)) with (S (Z.to_nat (r - (n + 1)))) by lia.
        rewrite below_succ. by apply Hstop.
    + destruct Hspec as (k & Hk & Hnone & Hbefore).
      exists (S k). split; [lia|]. split; [by rewrite below_succ|].
      intros j Hj. destruct j as [|j]; [done|].
      rewrite below_succ. apply Hbefore. lia.
Qed.

End JuliaFacts.

(** [julia_calc] ends once the body of its loop may run [n_max] times.
    When it returns, the count lies between 0 and [n_max] (it is 0 for a
    negative [n_max]), every iterate of [z -> z*z + c] before the count has
    a magnitude below [z_max], and when the count is less than [n_max] the
    iterate at the count has not: the count is the escape time of [z],
    capped at [n_max].  Otherwise [abs] has raised at an iterate that all
    the earlier ones led to. *)
Theorem julia_calc_escape_time
    (C R : Type) (Cmul Cadd : C → C → C) (Cabs : C → option R)
    (Rlt : R → R → bool)
    (fuel : nat) (z c : C) (z_max : R) (n_max : Z) :
  (Z.to_nat n_max ≤ fuel)%nat →
  ∃ res, julia_calc C R Cmul Cadd Cabs Rlt fuel z c z_max n_max = Some res ∧
    match res with
    | Count r =>
        (0 ≤ r ≤ Z.max 0 n_max)%Z ∧
        (∀ k, (k < Z.to_nat r)%nat →
           below C R Cmul Cadd Cabs Rlt z c z_max k = Some true) ∧
        ((r < n_max)%Z →
           below C R Cmul Cadd Cabs Rlt z c z_max (Z.to_nat r) = Some false)
    | AbsOverflow =>
        ∃ k, (k ≤ Z.to_nat n_max)%nat ∧
          below C R Cmul Cadd Cabs Rlt z c z_max k = None ∧
          ∀ j, (j < k)%nat →
            below C R Cmul Cadd Cabs Rlt z c z_max j = Some true
    end.
Proof.
  intros Hfuel.
  destruct (julia_loop_spec C R Cmul Cadd Cabs Rlt fuel z c z_max n_max 0)
    as (res & Hres & Hspec); [by rewrite Z.sub_0_r|].
  exists res. split; [done|]. destruct res as [r|].
  - by rewrite Z.sub_0_r in Hspec.
  - by rewrite Z.sub_0_r in Hspec.
Qed.

(** [julia_calc_escape_time] on the integers: from 0 with [c = 1] the
    iterates are 0, 1, 2, 5, 26, and 26 is not below 10 *)
Lemma julia_calc_escape_time_witness :
  (Z.to_nat 100 ≤ 100)%nat ∧
  ∃ res,
    julia_calc Z Z Z.mul Z.add (λ z, Some (Z.abs z)) Z.ltb 100 0%Z 1%Z 10%Z 100
      = Some res ∧
    res = Count 4.
Proof.
  assert (H : (Z.to_nat 100 ≤ 100)%nat) by (vm_compute; lia).
  split; [exact H|].
  destruct (julia_calc_escape_time Z Z Z.mul Z.add (λ z, Some (Z.abs z)) Z.ltb
              100 0%Z 1%Z 10%Z 100 H) as (res & Hres & _).
  exists res. split; [exact Hres|].
  apply (inj Some). rewrite <- Hres. vm_compute. reflexivity.
Defined.

(* ===================================================================== *)
(** * Code templates *)
(* ===================================================================== *)

(** ** The templates and their substitutions *)

Lemma well_formatted_ret {A} (a : A) : well_formatted (mret a).
Proof. intros st c Hc. by left. Qed.

Lemma well_formatted_raise {A} (e : exn) : well_formatted (raise e : M A).
Proof. intros st c Hc. by left. Qed.

Lemma well_formatted_bind_ok {A B} (m : M A) (k : A → M B) :
  well_formatted m →
  (∀ a st st', m st = (Ok a, st') → well_formatted (k a)) →
  well_formatted (m ≫= k).
Proof.
  intros Hm Hk st c. specialize (Hm st c). rewrite bind_unfold.
  destruct (m st) as [[a|e] st1] eqn:Hrun; [|done].
  intros [Hc|Hc]%(Hk a st st1 Hrun st1 c); [by apply Hm | by right].
Qed.

Lemma well_formatted_bind {A B} (m : M A) (k : A → M B) :
  well_formatted m → (∀ a, well_formatted (k a)) → well_formatted (m ≫= k).
Proof. intros Hm Hk. apply well_formatted_bind_ok; [done|]. intros a _ _ _. apply Hk. Qed.

Lemma well_formatted_for_each {A B} (f : A → M B) (l : list A) :
  (∀ x, well_formatted (f x)) → well_formatted (for_each f l).
Proof.
  intros Hf. induction l as [|x l IH]; simpl.
  - apply well_formatted_ret.
  - apply well_formatted_bind; [done|]. intros y.
    apply well_formatted_bind; [done|]. intros ys. apply well_formatted_ret.
Qed.

Lemma well_formatted_log (c : rcall) : filled c → well_formatted (log c).
Proof.
  intros Hc st c' [Hin | ->%list_elem_of_singleton]%elem_of_app; [by left | by right].
Qed.

Section FormatFacts.

Variable Get_rank : engine → list Z → Z.
Variable local_call : engine → string → list string → gmap string value → outcome.
Variable entropy : nat → N.
Variable h5py_available : bool.

Lemma well_formatted_view_execute (c : cmd) (ts : list engine) (block : bool) :
  filled (Execute c ts) →
  well_formatted (view_execute Get_rank local_call c ts block).
Proof.
  intros Hc st c'. unfold view_execute.
  destruct (run_on Get_rank local_call c ts (world st)) as [w' failed].
  assert (Hst : ∀ r : result unit,
            c' ∈ calls (r, mkState w' (calls st ++ [Execute c ts]) (drawn st)).2 →
            c' ∈ calls st ∨ filled c').
  { intros r [Hin | ->%list_elem_of_singleton]%elem_of_app; [by left | by right]. }
  destruct failed; [apply Hst|]. destruct block; apply Hst.
Qed.

Lemma well_formatted_view_push (d : list (string * pyobj)) (ts : list engine) :
  well_formatted (view_push d ts).
Proof.
  intros st c [Hin | ->%list_elem_of_singleton]%elem_of_app; [by left | by right].
Qed.

Lemma well_formatted__generate_key (self : Context) (prefix : option string) :
  well_formatted (_generate_key entropy self prefix).
Proof. intros st c Hc. by left. Qed.

Lemma well_formatted_get_comm_key (self : Context) :
  well_formatted (get_comm_key self).
Proof.
  unfold get_comm_key.
  destruct (_comm_key self); [apply well_formatted_ret | apply well_formatted_raise].
Qed.

Lemma well_formatted__key_and_push (self : Context) (values : list pyobj) :
  well_formatted (_key_and_push entropy self values).
Proof.
  unfold _key_and_push. apply well_formatted_bind.
  { apply well_formatted_for_each. intros _. apply well_formatted__generate_key. }
  intros keys. apply well_formatted_bind; [apply well_formatted_view_push|].
  intros _. apply well_formatted_ret.
Qed.

Lemma _key_and_push_length (self : Context) (values : list pyobj)
    (keys : list string) (st st' : state) :
  _key_and_push entropy self values st = (Ok keys, st') →
  length keys = length values.
Proof.
  unfold _key_and_push.
  rewrite (bind_ok _ _ _ _ _ (generate_keys_eq entropy self values st)).
  intros [= <- _]. by rewrite length_fmap, length_seq.
Qed.

Lemma well_formatted__execute (self : Context) (template : string)
    (subs : list string) :
  placeholders template = length subs →
  well_formatted (_execute Get_rank local_call self (CLocal template subs)).
Proof. intros H. by apply well_formatted_view_execute. Qed.

(** [keys = self._key_and_push(...)], then the rest *)
Tactic Notation "push_keys" ident(keys) ident(Hlen) :=
  apply well_formatted_bind_ok; [apply well_formatted__key_and_push|];
  let st := fresh "st" in
  let st' := fresh "st" in
  intros keys st st' Hlen; apply _key_and_push_length in Hlen; clear st st'.

Lemma well_formatted_creation (self : Context) (template : string)
    (shape dtype dist grid_shape : pyobj) :
  placeholders template = 6%nat →
  well_formatted
    (keys ← _key_and_push entropy self [shape; dtype; dist; grid_shape];
     da_key ← _generate_key entropy self None;
     comm_key ← get_comm_key self;
     _execute Get_rank local_call self
       (CLocal template ([da_key] ++ keys ++ [str_of comm_key]));;
     mret (mkDistArray da_key self)).
Proof.
  intros Htemplate. push_keys keys Hlen.
  apply well_formatted_bind; [apply well_formatted__generate_key|]. intros da_key.
  apply well_formatted_bind; [apply well_formatted_get_comm_key|]. intros comm_key.
  apply well_formatted_bind; [|intros _; apply well_formatted_ret].
  apply well_formatted__execute.
  rewrite Htemplate, !length_app, Hlen. reflexivity.
Qed.

Lemma well_formatted_save (self : Context) (name : name_arg) (da : DistArray) :
  well_formatted (save Get_rank local_call entropy self name da).
Proof.
  unfold save. destruct name; [| |apply well_formatted_raise].
  - push_keys keys Hlen. apply well_formatted__execute.
    rewrite length_app, Hlen. reflexivity.
  - case_bool_decide; [apply well_formatted_raise|].
    push_keys keys Hlen. apply well_formatted__execute.
    rewrite length_app, Hlen. reflexivity.
Qed.

Lemma well_formatted_load (self : Context) (name : name_arg) :
  well_formatted (load Get_rank local_call entropy self name).
Proof.
  unfold load.
  apply well_formatted_bind; [apply well_formatted__generate_key|]. intros da_key.
  apply well_formatted_bind; [apply well_formatted_get_comm_key|]. intros comm_key.
  destruct name; [| |apply well_formatted_raise].
  - push_keys keys Hlen.
    apply well_formatted_bind; [|intros _; apply well_formatted_ret].
    apply well_formatted__execute. rewrite !length_app, Hlen. reflexivity.
  - case_bool_decide; [apply well_formatted_raise|].
    push_keys keys Hlen.
    apply well_formatted_bind; [|intros _; apply well_formatted_ret].
    apply well_formatted__execute. rewrite !length_app, Hlen. reflexivity.
Qed.

Lemma well_formatted_import_h5py (errmsg : string) :
  well_formatted (import_h5py h5py_available errmsg).
Proof.
  unfold import_h5py.
  destruct h5py_available; [apply well_formatted_ret | apply well_formatted_raise].
Qed.

Lemma well_formatted_save_hdf5 (self : Context) (filename : string)
    (da : DistArray) (key' mode : string) :
  well_formatted
    (save_hdf5 Get_rank local_call entropy h5py_available self filename da
               key' mode).
Proof.
  unfold save_hdf5.
  apply well_formatted_bind; [apply well_formatted_import_h5py|]. intros _.
  push_keys keys1 Hlen1. push_keys keys2 Hlen2.
  apply well_formatted__execute. rewrite !length_app, Hlen1, Hlen2. reflexivity.
Qed.

Lemma well_formatted_load_npy (self : Context) (filename : string)
    (dim_data_per_process : list nat) :
  well_formatted
    (load_npy Get_rank local_call entropy self filename dim_data_per_process).
Proof.
  unfold load_npy. case_bool_decide; [apply well_formatted_raise|].
  apply well_formatted_bind; [apply well_formatted__generate_key|]. intros da_key.
  push_keys keys Hlen.
  apply well_formatted_bind; [apply well_formatted_get_comm_key|]. intros comm_key.
  apply well_formatted_bind; [|intros _; apply well_formatted_ret].
  apply well_formatted__execute. rewrite !length_app, Hlen. reflexivity.
Qed.

Lemma well_formatted_load_hdf5 (self : Context) (filename : string)
    (dim_data_per_process : list nat) (key' : string) :
  well_formatted
    (load_hdf5 Get_rank local_call entropy h5py_available self filename
               dim_data_per_process key').
Proof.
  unfold load_hdf5.
  apply well_formatted_bind; [apply well_formatted_import_h5py|]. intros _.
  case_bool_decide; [apply well_formatted_raise|].
  apply well_formatted_bind; [apply well_formatted__generate_key|]. intros da_key.
  push_keys keys1 Hlen1.
  apply well_formatted_bind; [apply well_formatted_get_comm_key|]. intros comm_key.
  push_keys keys2 Hlen2.
  apply well_formatted_bind; [|intros _; apply well_formatted_ret].
  apply well_formatted__execute. rewrite !length_app, Hlen1, Hlen2. reflexivity.
Qed.

Lemma confined_creation (self : Context) (template : string)
    (shape dtype dist grid_shape : pyobj) :
  confined (targets self)
    (keys ← _key_and_push entropy self [shape; dtype; dist; grid_shape];
     da_key ← _generate_key entropy self None;
     comm_key ← get_comm_key self;
     _execute Get_rank local_call self
       (CLocal template ([da_key] ++ keys ++ [str_of comm_key]));;
     mret (mkDistArray da_key self)).
Proof.
  apply confined_bind; [apply confined__key_and_push|]. intros keys.
  apply confined_bind; [apply confined__generate_key|]. intros da_key.
  apply confined_bind; [apply confined_get_comm_key|]. intros comm_key.
  apply confined_bind; [apply confined__execute|]. intros _.
  apply confined_ret.
Qed.

End FormatFacts.

(** Every code template of the array creation and persistence operations
    is filled with as many substitutions as it has [%s]: each remote call
    one of them adds to the log is [filled], so the [%] operator that
    builds the code does not raise. *)
Theorem templates_filled
    (Get_rank : engine → list Z → Z)
    (local_call : engine → string → list string → gmap string value → outcome)
    (entropy : nat → N) (h5py_available : bool) (self : Context) :
  (∀ shape dtype dist grid_shape,
     well_formatted (zeros Get_rank local_call entropy self shape dtype dist
                           grid_shape) ∧
     well_formatted (ones Get_rank local_call entropy self shape dtype dist
                          grid_shape) ∧
     well_formatted (empty Get_rank local_call entropy self shape dtype dist
                           grid_shape)) ∧
  (∀ name da, well_formatted (save Get_rank local_call entropy self name da)) ∧
  (∀ name, well_formatted (load Get_rank local_call entropy self name)) ∧
  (∀ filename da key' mode,
     well_formatted
       (save_hdf5 Get_rank local_call entropy h5py_available self filename da
                  key' mode)) ∧
  (∀ filename dims,
     well_formatted (load_npy Get_rank local_call entropy self filename dims)) ∧
  (∀ filename dims key',
     well_formatted
       (load_hdf5 Get_rank local_call entropy h5py_available self filename
                  dims key')).
Proof.
  split_and!.
  - intros shape dtype dist grid_shape. split_and!.
    + by apply well_formatted_creation.
    + by apply well_formatted_creation.
    + by apply well_formatted_creation.
  - apply well_formatted_save.
  - apply well_formatted_load.
  - apply well_formatted_save_hdf5.
  - apply well_formatted_load_npy.
  - apply well_formatted_load_hdf5.
Qed.

(** [zeros], [ones] and [empty] reach the targets of their context only. *)
Theorem creation_confined
    (Get_rank : engine → list Z → Z)
    (local_call : engine → string → list string → gmap string value → outcome)
    (entropy : nat → N) (self : Context)
    (shape dtype dist grid_shape : pyobj) :
  confined (targets self)
    (zeros Get_rank local_call entropy self shape dtype dist grid_shape) ∧
  confined (targets self)
    (ones Get_rank local_call entropy self shape dtype dist grid_shape) ∧
  confined (targets self)
    (empty Get_rank local_call entropy self shape dtype dist grid_shape).
Proof. split_and!; apply confined_creation. Qed.

Section ProxiesFormat.
Import Functions.

Variable Get_rank : engine → list Z → Z.
Variable local_call : engine → string → list string → gmap string value → outcome.
Variable entropy : nat → N.
Variable is_compatible : Distribution → Distribution → bool.
Variable repr_contexts : list ContextObj → string.
Variable from_localarrays : string → Distribution → M DistArray.

Hypothesis from_localarrays_formatted :
  ∀ k d, well_formatted (from_localarrays k d).

Lemma well_formatted_determine_context (args : list arg) :
  well_formatted (determine_context repr_contexts args).
Proof.
  unfold determine_context. cbv zeta.
  destruct (omap _ args); [apply well_formatted_raise|].
  destruct (negb _); [apply well_formatted_raise | apply well_formatted_ret].
Qed.

Lemma well_formatted_get_key (x : arg) : well_formatted (get_key x).
Proof. destruct x; [apply well_formatted_ret | apply well_formatted_raise..]. Qed.

Lemma well_formatted_get_targets (x : arg) : well_formatted (get_targets x).
Proof. destruct x; [apply well_formatted_ret | apply well_formatted_raise..]. Qed.

Lemma well_formatted_get_distribution (x : arg) :
  well_formatted (get_distribution x).
Proof. destruct x; [apply well_formatted_ret | apply well_formatted_raise..]. Qed.

Lemma well_formatted_first_key (keys : list string) :
  well_formatted (match keys with
                  | k :: _ => mret k
                  | [] => raise IndexError
                  end : M string).
Proof. destruct keys; [apply well_formatted_raise | apply well_formatted_ret]. Qed.

Lemma well_formatted_context_execute (c : ContextObj) (exec_str : cmd)
    (ts : list engine) :
  well_formatted (context_execute Get_rank local_call c exec_str (Some ts)).
Proof. apply well_formatted_raise. Qed.

Lemma well_formatted_unary_proxy (name : string) (a : arg)
    (casting : option string) :
  well_formatted
    (unary_proxy Get_rank local_call entropy repr_contexts from_localarrays
                 name a casting).
Proof.
  unfold unary_proxy.
  apply well_formatted_bind; [apply well_formatted_determine_context|]. intros c.
  apply well_formatted_bind; [apply well_formatted__generate_key|]. intros new_key.
  apply well_formatted_bind; [apply well_formatted_get_key|]. intros a_key.
  cbv zeta.
  apply well_formatted_bind; [apply well_formatted_get_targets|]. intros ts.
  apply well_formatted_bind.
  { apply well_formatted_context_execute. }
  intros _.
  apply well_formatted_bind; [apply well_formatted_get_distribution|]. intros d.
  apply from_localarrays_formatted.
Qed.

Lemma well_formatted_binary_proxy (name : string) (a b : arg)
    (casting : option string) :
  well_formatted
    (binary_proxy Get_rank local_call entropy is_compatible repr_contexts
                  from_localarrays name a b casting).
Proof.
  unfold binary_proxy.
  apply well_formatted_bind; [apply well_formatted_determine_context|]. intros c.
  apply (well_formatted_bind _ (λ '(a_key, b_key, distribution), _)).
  - destruct (is_dap a && is_dap b).
    { apply well_formatted_bind; [apply well_formatted_get_distribution|]. intros da.
      apply well_formatted_bind; [apply well_formatted_get_distribution|]. intros db.
      destruct (negb _); [apply well_formatted_raise|].
      apply well_formatted_bind; [apply well_formatted_get_key|]. intros a_key.
      apply well_formatted_bind; [apply well_formatted_get_key|]. intros b_key.
      apply well_formatted_ret. }
    destruct (is_dap a && isscalar b).
    { apply well_formatted_bind; [apply well_formatted_get_key|]. intros a_key.
      apply well_formatted_bind; [apply well_formatted__key_and_push|]. intros keys.
      apply well_formatted_bind; [apply well_formatted_first_key|]. intros b_key.
      apply well_formatted_bind; [apply well_formatted_get_distribution|]. intros da.
      apply well_formatted_ret. }
    destruct (is_dap b && isscalar a); [|apply well_formatted_raise].
    apply well_formatted_bind; [apply well_formatted__key_and_push|]. intros keys.
    apply well_formatted_bind; [apply well_formatted_first_key|]. intros a_key.
    apply well_formatted_bind; [apply well_formatted_get_key|]. intros b_key.
    apply well_formatted_bind; [apply well_formatted_get_distribution|]. intros db.
    apply well_formatted_ret.
  - intros [[a_key b_key] d].
    apply well_formatted_bind; [apply well_formatted__generate_key|]. intros new_key.
    cbv zeta.
    apply well_formatted_bind; [|intros _; apply from_localarrays_formatted].
    apply well_formatted_context_execute.
Qed.

End ProxiesFormat.


